(** * grape: parameter binding/validation and presentation

    A shallow embedding of [params.go] (the schema builder,
    [BindAndValidate], [validateJSON], [ToModel], [toSnakeCase]) and of the
    presenter ([Present], [PresentSlice], [serializeNested]), followed by
    the properties of the specification stated over it.

    Go values are modelled as follows.
    - [string] is a Go string: a sequence of bytes ([ascii]).
    - [int] is a 64-bit signed integer, carried as a [Z].
    - [float64] is an IEEE 754 binary64 number, carried as a [spec_float].
    - [map[string]interface{}] is a [gmap string value].
    - [(Input, error)] results are pairs of options, [None] for [nil].
    - A call that panics is the outcome [Panic] (or [Panics], or [None]
      where a function has no error result); a returned [error] is [Fail].
    - What the library calls and does not define (the rule engine, the JSON
      text decoder, the conversion of an unrepresentable float) is a
      parameter [External]; [env] is one such environment, used to run the
      code on concrete inputs. *)

From Stdlib Require Import ZArith Ascii String DecimalString.
From Stdlib Require Import Floats.SpecFloat.
From stdpp Require Import gmap strings list fin_maps sorting.

Set Warnings "-register-all,-abstract-large-number".
Open Scope Z_scope.

(** ** Bytes and UTF-8 (package unicode/utf8) *)

Module Utf8.

Definition byte (a : ascii) : Z := Z.of_N (N_of_ascii a).
Definition chr (z : Z) : ascii := ascii_of_N (Z.to_N z).

Definition RuneError : Z := 65533.
Definition RuneSelf : Z := 128.
Definition MaxRune : Z := 1114111.

Definition between (lo x hi : Z) : bool := (lo <=? x) && (x <=? hi).

(** The continuation range accepted after a first byte: [acceptRanges] of
    the Go decoder, with the encoded length.  [None] for ASCII and for the
    bytes that never start an encoding. *)
Definition first (s0 : Z) : option (nat * Z * Z) :=
  if between 194 s0 223 then Some (2%nat, 128, 191)
  else if s0 =? 224 then Some (3%nat, 160, 191)
  else if between 225 s0 236 then Some (3%nat, 128, 191)
  else if s0 =? 237 then Some (3%nat, 128, 159)
  else if between 238 s0 239 then Some (3%nat, 128, 191)
  else if s0 =? 240 then Some (4%nat, 144, 191)
  else if between 241 s0 243 then Some (4%nat, 128, 191)
  else if s0 =? 244 then Some (4%nat, 128, 143)
  else None.

Definition cont (b : Z) : bool := between 128 b 191.

(** [utf8.DecodeRuneInString]: the first rune of [s] and its width in
    bytes; [(RuneError, 0)] on the empty string and [(RuneError, 1)] on an
    invalid encoding. *)
Definition DecodeRuneInString (s : string) : Z * nat :=
  match s with
  | EmptyString => (RuneError, 0%nat)
  | String a0 rest =>
    let s0 := byte a0 in
    match first s0 with
    | None => if s0 <? RuneSelf then (s0, 1%nat) else (RuneError, 1%nat)
    | Some (sz, lo, hi) =>
      match rest with
      | EmptyString => (RuneError, 1%nat)
      | String a1 rest1 =>
        let s1 := byte a1 in
        if negb (between lo s1 hi) then (RuneError, 1%nat)
        else if (sz <=? 2)%nat
        then (Z.lor (Z.shiftl (Z.land s0 31) 6) (Z.land s1 63), 2%nat)
        else
          match rest1 with
          | EmptyString => (RuneError, 1%nat)
          | String a2 rest2 =>
            let s2 := byte a2 in
            if negb (cont s2) then (RuneError, 1%nat)
            else if (sz <=? 3)%nat
            then (Z.lor (Z.lor (Z.shiftl (Z.land s0 15) 12)
                               (Z.shiftl (Z.land s1 63) 6))
                        (Z.land s2 63), 3%nat)
            else
              match rest2 with
              | EmptyString => (RuneError, 1%nat)
              | String a3 _ =>
                let s3 := byte a3 in
                if negb (cont s3) then (RuneError, 1%nat)
                else (Z.lor (Z.lor (Z.lor (Z.shiftl (Z.land s0 7) 18)
                                          (Z.shiftl (Z.land s1 63) 12))
                                   (Z.shiftl (Z.land s2 63) 6))
                            (Z.land s3 63), 4%nat)
              end
          end
      end
    end
  end.

(** [utf8.RuneStart]: the byte is not a continuation byte. *)
Definition RuneStart (b : Z) : bool := negb (Z.land b 192 =? 128).

(** [utf8.DecodeLastRuneInString], on the reversed bytes [rs] of the
    string: step back over at most three continuation bytes to a rune
    start, decode from there, and accept only an encoding that ends at the
    end of the string. *)
Definition DecodeLastRune (rs : list ascii) : Z * nat :=
  match rs with
  | [] => (RuneError, 0%nat)
  | a :: _ =>
    if byte a <? RuneSelf then (byte a, 1%nat)
    else
      let try (k : nat) : Z * nat :=
        let '(r, size) :=
          DecodeRuneInString (string_of_list_ascii (rev (take k rs))) in
        if (size =? k)%nat then (r, size) else (RuneError, 1%nat) in
      match rs with
      | _ :: b1 :: tl1 =>
        if RuneStart (byte b1) then try 2%nat
        else match tl1 with
             | b2 :: tl2 =>
               if RuneStart (byte b2) then try 3%nat
               else match tl2 with
                    | b3 :: _ =>
                      if RuneStart (byte b3) then try 4%nat
                      else (RuneError, 1%nat)
                    | [] => (RuneError, 1%nat)
                    end
             | [] => (RuneError, 1%nat)
             end
      | _ => (RuneError, 1%nat)
      end
  end.

(** [utf8.AppendRune]: the UTF-8 encoding of a rune; a surrogate or a rune
    out of range is encoded as U+FFFD. *)
Definition EncodeRune (r : Z) : string :=
  if between 0 r 127 then String (chr r) EmptyString
  else if between 128 r 2047 then
    String (chr (Z.lor 192 (Z.shiftr r 6)))
      (String (chr (Z.lor 128 (Z.land r 63))) EmptyString)
  else if (between 55296 r 57343 || (r <? 0) || (MaxRune <? r))%bool then
    String (chr 239) (String (chr 191) (String (chr 189) EmptyString))
  else if r <=? 65535 then
    String (chr (Z.lor 224 (Z.shiftr r 12)))
      (String (chr (Z.lor 128 (Z.land (Z.shiftr r 6) 63)))
        (String (chr (Z.lor 128 (Z.land r 63))) EmptyString))
  else
    String (chr (Z.lor 240 (Z.shiftr r 18)))
      (String (chr (Z.lor 128 (Z.land (Z.shiftr r 12) 63)))
        (String (chr (Z.lor 128 (Z.land (Z.shiftr r 6) 63)))
          (String (chr (Z.lor 128 (Z.land r 63))) EmptyString))).

(** The runes of a string with the byte offset each one starts at, as
    [for i, r := range s] yields them. *)
Fixpoint runes_from (fuel : nat) (i : nat) (s : string) : list (nat * Z) :=
  match fuel with
  | O => []
  | S fuel' =>
    match s with
    | EmptyString => []
    | _ =>
      let '(r, w) := DecodeRuneInString s in
      (i, r) :: runes_from fuel' (i + w)%nat (string_of_list_ascii (drop w (list_ascii_of_string s)))
    end
  end.

Definition range (s : string) : list (nat * Z) :=
  runes_from (String.length s) 0%nat s.

(** [string(rs)] for a [[]rune]. *)
Definition string_of_runes (rs : list Z) : string :=
  foldr (fun r acc => String.append (EncodeRune r) acc) EmptyString rs.

(** A string coerced to valid UTF-8, every invalid byte replaced by
    U+FFFD, as [json.Marshal] writes strings. *)
Definition ToValid (s : string) : string :=
  string_of_runes (map snd (range s)).

End Utf8.

(** ** Package unicode and strings *)

(** [unicode.IsSpace]: the Unicode White_Space property. *)
Definition IsSpace (r : Z) : bool :=
  Utf8.between 9 r 13 || (r =? 32) || (r =? 133) || (r =? 160)
  || (r =? 5760) || Utf8.between 8192 r 8202 || (r =? 8232) || (r =? 8233)
  || (r =? 8239) || (r =? 8287) || (r =? 12288).

Fixpoint trimLeftSpace (fuel : nat) (s : list ascii) : list ascii :=
  match fuel with
  | O => s
  | S fuel' =>
    let '(r, w) := Utf8.DecodeRuneInString (string_of_list_ascii s) in
    if ((0 <? w)%nat && IsSpace r)%bool then trimLeftSpace fuel' (drop w s) else s
  end.

(** Trailing white space, on the reversed bytes. *)
Fixpoint trimRightSpace (fuel : nat) (rs : list ascii) : list ascii :=
  match fuel with
  | O => rs
  | S fuel' =>
    let '(r, w) := Utf8.DecodeLastRune rs in
    if ((0 <? w)%nat && IsSpace r)%bool then trimRightSpace fuel' (drop w rs) else rs
  end.

(** [strings.TrimSpace]: [s] without its leading and trailing white space. *)
Definition TrimSpace (s : string) : string :=
  let l := trimLeftSpace (String.length s) (list_ascii_of_string s) in
  string_of_list_ascii (rev (trimRightSpace (length l) (rev l))).

(** ** float64 and int *)

Definition float64 := spec_float.

Definition minInt : Z := - 2 ^ 63.
Definition maxInt : Z := 2 ^ 63 - 1.

Definition is_finite (x : float64) : bool :=
  match x with
  | S754_zero _ | S754_finite _ _ _ => true
  | _ => false
  end.

(** The integer part of a finite float, rounded toward zero. *)
Definition float64_trunc (x : float64) : option Z :=
  match x with
  | S754_zero _ => Some 0
  | S754_finite s m e =>
    let mag := Z.shiftl (Z.pos m) e in
    Some (if s then - mag else mag)
  | _ => None
  end.

(** [float64(n)]: the nearest float64, ties to even. *)
Definition float64_of_int (n : Z) : float64 := binary_normalize 53 1024 n 0 false.

(** Round half to even of [num / den], for [0 <= num] and [0 < den]. *)
Definition div_half_even (num den : Z) : Z :=
  let q := num / den in
  let r := num mod den in
  match 2 * r ?= den with
  | Lt => q
  | Gt => q + 1
  | Eq => if Z.even q then q else q + 1
  end.

Definition decimal (z : Z) : string := NilZero.string_of_uint (N.to_uint (Z.to_N z)).

(** [fmt.Sprintf("%.10f", x)]. *)
Definition Sprintf_10f (x : float64) : string :=
  let fixed (neg : bool) (q : Z) : string :=
    ((if neg then "-" else "") ++ decimal (q / 10 ^ 10) ++ "."
       ++ match decimal (10 ^ 10 + q mod 10 ^ 10) with
          | String _ digits => digits
          | EmptyString => EmptyString
          end)%string in
  match x with
  | S754_nan => "NaN"
  | S754_infinity false => "+Inf"
  | S754_infinity true => "-Inf"
  | S754_zero s => fixed s 0
  | S754_finite s m e =>
    fixed s (if 0 <=? e then Z.pos m * 2 ^ e * 10 ^ 10
             else div_half_even (Z.pos m * 10 ^ 10) (2 ^ (- e)))
  end.

(** ** Values held in an [interface{}]

    The dynamic values the binder distinguishes: what [encoding/json]
    decodes into an [interface{}], and the native [int] a caller can put in
    a map written by hand.  [VSlice] and [VMap] are non-nil. *)

Inductive value :=
| VNil
| VBool (b : bool)
| VFloat (x : float64)
| VInt (n : Z)
| VString (s : string)
| VSlice (elems : list value)
| VMap (m : gmap string value).

Abbreviation Input := (gmap string value).

Definition is_map (v : value) : bool :=
  match v with VMap _ => true | _ => false end.

(** ** Errors

    One constructor per [fmt.Errorf] format of the source; [Error] is the
    message, with [%w] the message of the wrapped cause. *)

Inductive error :=
| ErrMissingRequired (name mode : string)
| ErrMustBe (name what : string)
| ErrValidationFailed (name : string) (cause : error)
| ErrInvalidJSON (name : string)
| ErrElementMustBeObject (name : string)
| ErrElementValidationFailed (name : string) (cause : error)
| ErrRule (msg : string)
| ErrUnmarshal (msg : string).

Fixpoint Error (e : error) : string :=
  match e with
  | ErrMissingRequired name mode =>
    "missing required field '" ++ name ++ "' for " ++ mode
  | ErrMustBe name what => "field '" ++ name ++ "' must be " ++ what
  | ErrValidationFailed name cause =>
    "field '" ++ name ++ "' validation failed: " ++ Error cause
  | ErrInvalidJSON name => "field '" ++ name ++ "' must be valid JSON"
  | ErrElementMustBeObject name => "element in '" ++ name ++ "' must be object"
  | ErrElementValidationFailed name cause =>
    "element in '" ++ name ++ "' validation failed: " ++ Error cause
  | ErrRule msg => msg
  | ErrUnmarshal msg => msg
  end%string.

(** The outcome of a call: a result, a returned error, or a panic. *)
Inductive outcome (A : Type) :=
| Ok (a : A)
| Fail (e : error)
| Panic.
Arguments Ok {A} a.
Arguments Fail {A} e.
Arguments Panic {A}.

#[global] Instance outcome_ret : MRet outcome := fun A a => Ok a.
#[global] Instance outcome_bind : MBind outcome := fun A B k o =>
  match o with
  | Ok a => k a
  | Fail e => Fail e
  | Panic => Panic
  end.

(** A [for] loop over a slice whose body can return early. *)
Fixpoint forEach {A S} (step : A -> S -> outcome S) (l : list A) (s : S) : outcome S :=
  match l with
  | [] => Ok s
  | a :: l' => s' ← step a s; forEach step l' s'
  end.

(** A loop that appends one result per element. *)
Fixpoint collect {A B} (f : A -> outcome B) (l : list A) : outcome (list B) :=
  match l with
  | [] => Ok []
  | a :: l' => b ← f a; bs ← collect f l'; Ok (b :: bs)
  end.

(** What a Go function with results [(Input, error)] hands back. *)
Inductive call (A : Type) :=
| Returns (r : A)
| Panics.
Arguments Returns {A} r.
Arguments Panics {A}.

(** ** External collaborators *)

(** The outcome of [validate.Var(field, tag)] of go-playground/validator:
    the value passes, the rule fails with the engine's error, or the engine
    panics (as it does on an unknown tag). *)
Inductive var_result :=
| VarOk
| VarError (msg : string)
| VarPanic.

(** The parts of the environment the library calls and does not define. *)
Record External := {
  (** [validate.Var] of the process-wide rule engine *)
  validate_Var : value -> string -> var_result;
  (** [json.Unmarshal([]byte(s), &parsed)] into an [interface{}];
      [None] is a decoding error *)
  json_Unmarshal : string -> option value;
  (** [int(x)] for a float64 whose integer part an [int] cannot hold, which
      Go leaves to the implementation *)
  int_unrepresentable : float64 -> Z
}.

(** [int(x)] for a float64 [x]. *)
Definition int_of_float64 (E : External) (x : float64) : Z :=
  match float64_trunc x with
  | Some z => if (minInt <=? z) && (z <=? maxInt) then z else int_unrepresentable E x
  | None => int_unrepresentable E x
  end.

(** ** The JSON round trip of [validateJSON]

    [json.Marshal] followed by [json.Unmarshal] into a
    [map[string]interface{}], on the values above: an [int] comes back as
    the nearest float64, a string comes back coerced to valid UTF-8, and a
    NaN or an infinity makes [Marshal] fail.  [Marshal] writes the keys of
    a map in byte order and [Unmarshal] keeps the last value of a repeated
    key. *)

Definition key_le (a b : string * option value) : Prop :=
  String.leb a.1 b.1 = true.

#[global] Instance key_le_dec a b : Decision (key_le a b) :=
  decide (String.leb a.1 b.1 = true).

Definition decodeObject (m : gmap string (option value)) : option Input :=
  foldl (fun acc kv => out ← acc; v ← kv.2; Some (<[Utf8.ToValid kv.1 := v]> out))
        (Some ∅) (merge_sort key_le (map_to_list m)).

Fixpoint roundTrip (v : value) : option value :=
  match v with
  | VNil => Some VNil
  | VBool b => Some (VBool b)
  | VFloat x => if is_finite x then Some (VFloat x) else None
  | VInt n => Some (VFloat (float64_of_int n))
  | VString s => Some (VString (Utf8.ToValid s))
  | VSlice elems => VSlice <$> mapM roundTrip elems
  | VMap m => VMap <$> decodeObject (roundTrip <$> m)
  end.

Definition jsonRoundTrip (raw : Input) : option Input :=
  decodeObject (roundTrip <$> raw).

(** ** Schemas *)

Definition FieldType := string.

Module Ty.
Definition String : FieldType := "string".
Definition Integer : FieldType := "integer".
Definition Float : FieldType := "float".
Definition BigDecimal : FieldType := "bigdecimal".
Definition Numeric : FieldType := "numeric".
Definition Date : FieldType := "date".
Definition DateTime : FieldType := "datetime".
Definition Time : FieldType := "time".
Definition Boolean : FieldType := "boolean".
Definition JSON : FieldType := "json".
Definition Slice : FieldType := "slice".
End Ty.

(** [Param], over the type [S] of what its [Schema] pointer refers to. *)
Record Param (S : Type) := mkParam {
  Name : string;
  Type_ : FieldType;
  Validate : string;
  RequiredOn : list string;
  Schema : option S;
  SliceType : FieldType
}.
Arguments mkParam {S}.
Arguments Name {S}.
Arguments Type_ {S}.
Arguments Validate {S}.
Arguments RequiredOn {S}.
Arguments Schema {S}.
Arguments SliceType {S}.

(** [Params] as the binder reads it: the field list, each nested schema
    reached through its pointer. *)
Inductive Params := MkParams { Fields : list (Param Params) }.

(** The [isRequired] loop of both binders. *)
Definition isRequired {S} (f : Param S) (mode : string) : bool :=
  existsb (fun r => String.eqb (TrimSpace r) mode) (RequiredOn f).

(** ** The binder *)

Section Binder.

Variable E : External.

(** [if f.Validate != "" { if err := validate.Var(v, f.Validate); err != nil {...} }]
    followed by [k]. *)
Definition validated {S A} (f : Param S) (v : value) (k : outcome A) : outcome A :=
  if String.eqb (Validate f) "" then k
  else match validate_Var E v (Validate f) with
       | VarOk => k
       | VarError msg => Fail (ErrValidationFailed (Name f) (ErrRule msg))
       | VarPanic => Panic
       end.

(** The [switch f.Type] of [validateJSON]: the value stored under
    [f.Name].  [nested] is [f.Schema.validateJSON(_, mode)] when
    [f.Schema] is not nil. *)
Definition validateJSONValue {S} (nested : option (Input -> outcome Input))
    (f : Param S) (val : value) : outcome value :=
  if String.eqb (Type_ f) Ty.String then
    match val with
    | VString s => validated f (VString s) (Ok (VString s))
    | _ => Fail (ErrMustBe (Name f) "string")
    end
  else if String.eqb (Type_ f) Ty.Integer then
    match val with
    | VFloat vv => Ok (VInt (int_of_float64 E vv))
    | VInt vv => Ok (VInt vv)
    | _ => Fail (ErrMustBe (Name f) "integer")
    end
  else if String.eqb (Type_ f) Ty.JSON then
    match nested with
    | Some validate_nested =>
      match val with
      | VMap m =>
        match validate_nested m with
        | Ok nested => Ok (VMap nested)
        | Fail err => Fail (ErrValidationFailed (Name f) err)
        | Panic => Panic
        end
      | _ => Panic
      end
    | None => Ok val
    end
  else Ok val.

(** One iteration of the field loop of [validateJSON]. *)
Definition validateJSONField {S} (nested : option (Input -> outcome Input))
    (parsed : Input) (mode : string) (f : Param S) (out : Input) : outcome Input :=
  match parsed !! Name f with
  | None =>
    if isRequired f mode then Fail (ErrMissingRequired (Name f) mode)
    else Ok out
  | Some val =>
    v ← validateJSONValue nested f val; Ok (<[Name f := v]> out)
  end.

(** [for k, v := range raw { if _, ok := out[k]; !ok { out[k] = v } }] *)
Definition passthrough (raw out : Input) : Input :=
  map_fold (fun k v out => match out !! k with
                           | Some _ => out
                           | None => <[k := v]> out
                           end) out raw.

Fixpoint validateJSON (p : Params) (raw : Input) (mode : string) {struct p}
  : outcome Input :=
  match jsonRoundTrip raw with
  | None => Fail (ErrUnmarshal "unexpected end of JSON input")
  | Some parsed =>
    out ← forEach
          (fun f out =>
             validateJSONField
               (match Schema f with
                | Some s => Some (fun m => validateJSON s m mode)
                | None => None
                end) parsed mode f out)
          (Fields p) ∅;
    Ok (passthrough parsed out)
  end.

(** A field whose value must be a string ([String], [Date], [DateTime],
    [Time]): the type assertion, the rule, the assignment. *)
Definition bindString (f : Param Params) (val : value) (what : string) : outcome value :=
  match val with
  | VString s => validated f (VString s) (Ok (VString s))
  | _ => Fail (ErrMustBe (Name f) what)
  end.

(** [f.Schema.validateJSON(m, mode)] with the error wrapped by [wrap]. *)
Definition nestedJSON (s : Params) (m : Input) (mode : string)
    (wrap : error -> error) : outcome value :=
  match validateJSON s m mode with
  | Ok nested => Ok (VMap nested)
  | Fail err => Fail (wrap err)
  | Panic => Panic
  end.

(** The [switch f.Type] of [BindAndValidate]: the value stored under
    [f.Name]. *)
Definition bindValue (f : Param Params) (val : value) (mode : string) : outcome value :=
  if String.eqb (Type_ f) Ty.String then bindString f val "string"
  else if String.eqb (Type_ f) Ty.Integer then
    match val with
    | VFloat vv =>
      let i := int_of_float64 E vv in
      validated f (VInt i) (Ok (VInt i))
    | VInt vv => Ok (VInt vv)
    | _ => Fail (ErrMustBe (Name f) "integer")
    end
  else if String.eqb (Type_ f) Ty.Float then
    match val with
    | VFloat fv => validated f (VFloat fv) (Ok (VFloat fv))
    | _ => Fail (ErrMustBe (Name f) "float")
    end
  else if String.eqb (Type_ f) Ty.BigDecimal then
    match val with
    | VString vv => validated f (VString vv) (Ok (VString vv))
    | VFloat vv => Ok (VString (Sprintf_10f vv))
    | _ => Fail (ErrMustBe (Name f) "bigdecimal (string or float)")
    end
  else if String.eqb (Type_ f) Ty.Numeric then
    match val with
    | VFloat vv => validated f (VFloat vv) (Ok (VFloat vv))
    | VString vv => validated f (VString vv) (Ok (VString vv))
    | _ => Fail (ErrMustBe (Name f) "numeric (float or string)")
    end
  else if String.eqb (Type_ f) Ty.Date then bindString f val "date string"
  else if String.eqb (Type_ f) Ty.DateTime then bindString f val "datetime string"
  else if String.eqb (Type_ f) Ty.Time then bindString f val "time string"
  else if String.eqb (Type_ f) Ty.Boolean then
    match val with
    | VBool bv => Ok (VBool bv)
    | _ => Fail (ErrMustBe (Name f) "boolean")
    end
  else if String.eqb (Type_ f) Ty.JSON then
    match val with
    | VMap vv =>
      match Schema f with
      | Some s => nestedJSON s vv mode (ErrValidationFailed (Name f))
      | None => Ok (VMap vv)
      end
    | VSlice vv => Ok (VSlice vv)
    | VString vv =>
      match json_Unmarshal E vv with
      | None => Fail (ErrInvalidJSON (Name f))
      | Some parsed => Ok parsed
      end
    | _ => Fail (ErrMustBe (Name f) "json (object, array, or json string)")
    end
  else if String.eqb (Type_ f) Ty.Slice then
    match val with
    | VSlice svals =>
      if String.eqb (SliceType f) Ty.JSON then
        match Schema f with
        | Some s =>
          arr ← collect
                (fun elem =>
                   match elem with
                   | VMap m =>
                     nestedJSON s m mode (ErrElementValidationFailed (Name f))
                   | _ => Fail (ErrElementMustBeObject (Name f))
                   end) svals;
          Ok (VSlice arr)
        | None => Ok (VSlice svals)
        end
      else Ok (VSlice svals)
    | _ => Fail (ErrMustBe (Name f) "array")
    end
  else Ok val.

(** One iteration of the field loop of [BindAndValidate]. *)
Definition bindField (raw : Input) (mode : string) (f : Param Params) (out : Input)
  : outcome Input :=
  match raw !! Name f with
  | None =>
    if isRequired f mode then Fail (ErrMissingRequired (Name f) mode)
    else Ok out
  | Some val =>
    v ← bindValue f val mode; Ok (<[Name f := v]> out)
  end.

(** The field loop, from the empty output. *)
Definition bindFields (p : Params) (raw : Input) (mode : string) : outcome Input :=
  forEach (bindField raw mode) (Fields p) ∅.

(** [func (p *Params) BindAndValidate(raw, mode) (Input, error)]: the pair
    of results, [None] for [nil]. *)
Definition BindAndValidate (p : Params) (raw : Input) (mode : string)
  : call (option Input * option error) :=
  match bindFields p raw mode with
  | Ok out => Returns (Some (passthrough raw out), None)
  | Fail err => Returns (None, Some err)
  | Panic => Panics
  end.

End Binder.

(** ** The schema builder

    Schemas and field builders live on a heap and are named by pointers: a
    [FieldBuilder] holds its own copy of the descriptor and a pointer to the
    schema it was declared on.  A call on a pointer that was never
    allocated is a nil dereference, [None]. *)

Module Builder.

Abbreviation ptr := nat.

Record FieldBuilder := { param : Param ptr; parent : ptr }.

Record heap := {
  schemas : list (list (Param ptr));
  builders : list FieldBuilder
}.

Definition empty : heap := {| schemas := []; builders := [] |}.

(** [NewParams()] *)
Definition NewParams (h : heap) : ptr * heap :=
  (length (schemas h),
   {| schemas := schemas h ++ [[]]; builders := builders h |}).

(** [p.Fields = append(p.Fields, fb.param)] for a fresh builder of [name]:
    the body of both [Requires] and [Optional], whose descriptors differ
    only in [RequiredOn] being an empty or a nil slice. *)
Definition declare (p : ptr) (name : string) (h : heap) : option (ptr * heap) :=
  fs ← schemas h !! p;
  let fb := {| param := mkParam name "" "" [] None ""; parent := p |} in
  Some (length (builders h),
        {| schemas := <[p := fs ++ [param fb]]> (schemas h);
           builders := builders h ++ [fb] |}).

Definition Requires := declare.
Definition Optional := declare.

(** The loop of [updateParent] over the parent's fields: the first
    descriptor with the name of [q] becomes [q]. *)
Fixpoint overwrite (q : Param ptr) (fs : list (Param ptr)) : list (Param ptr) :=
  match fs with
  | [] => []
  | g :: fs' =>
    if String.eqb (Name g) (Name q) then q :: fs' else g :: overwrite q fs'
  end.

Definition updateParent (fb : FieldBuilder) (h : heap) : option heap :=
  fs ← schemas h !! parent fb;
  Some {| schemas := <[parent fb := overwrite (param fb) fs]> (schemas h);
          builders := builders h |}.

(** A chained setter on the builder [b]: it changes the builder's copy of
    the descriptor, then calls [updateParent]. *)
Definition set (upd : Param ptr -> Param ptr) (b : ptr) (h : heap) : option heap :=
  fb ← builders h !! b;
  let fb' := {| param := upd (param fb); parent := parent fb |} in
  updateParent fb' {| schemas := schemas h; builders := <[b := fb']> (builders h) |}.

Definition On (endpoints : list string) : ptr -> heap -> option heap :=
  set (fun q => mkParam (Name q) (Type_ q) (Validate q) (RequiredOn q ++ endpoints)
                        (Schema q) (SliceType q)).

Definition setType (t : FieldType) : ptr -> heap -> option heap :=
  set (fun q => mkParam (Name q) t (Validate q) (RequiredOn q) (Schema q) (SliceType q)).

Definition String := setType Ty.String.
Definition Integer := setType Ty.Integer.
Definition Float := setType Ty.Float.
Definition BigDecimal := setType Ty.BigDecimal.
Definition Numeric := setType Ty.Numeric.
Definition Date := setType Ty.Date.
Definition DateTime := setType Ty.DateTime.
Definition Time := setType Ty.Time.
Definition Boolean := setType Ty.Boolean.
Definition JSON := setType Ty.JSON.
Definition Slice := setType Ty.Slice.

Definition WithSchema (s : option ptr) : ptr -> heap -> option heap :=
  set (fun q => mkParam (Name q) (Type_ q) (Validate q) (RequiredOn q) s (SliceType q)).

Definition SliceOf (t : FieldType) (s : option ptr) : ptr -> heap -> option heap :=
  set (fun q => mkParam (Name q) Ty.Slice (Validate q) (RequiredOn q) s t).

Definition Validate (tag : string) : ptr -> heap -> option heap :=
  set (fun q => mkParam (Name q) (Type_ q) tag (RequiredOn q) (Schema q) (SliceType q)).

(** A call of the builder API. *)
Inductive call :=
| CallNewParams
| CallRequires (p : ptr) (name : string)
| CallOptional (p : ptr) (name : string)
| CallOn (b : ptr) (endpoints : list string)
| CallType (b : ptr) (t : FieldType)
| CallValidate (b : ptr) (tag : string)
| CallWithSchema (b : ptr) (s : option ptr)
| CallSliceOf (b : ptr) (t : FieldType) (s : option ptr).

Definition step (c : call) (h : heap) : option heap :=
  match c with
  | CallNewParams => Some (NewParams h).2
  | CallRequires p name => snd <$> Requires p name h
  | CallOptional p name => snd <$> Optional p name h
  | CallOn b endpoints => On endpoints b h
  | CallType b t => setType t b h
  | CallValidate b tag => Validate tag b h
  | CallWithSchema b s => WithSchema s b h
  | CallSliceOf b t s => SliceOf t s b h
  end.

(** A sequence of calls, from the empty heap. *)
Definition run (cs : list call) : option heap :=
  foldl (fun oh c => oh ≫= step c) (Some empty) cs.

(** The names declared on the schema [p], in the order of the calls. *)
Definition declared (p : ptr) (cs : list call) : list string :=
  omap (fun c => match c with
                 | CallRequires p' name | CallOptional p' name =>
                   if decide (p' = p) then Some name else None
                 | _ => None
                 end) cs.

End Builder.

(** ** Go values seen through package reflect

    The presenter and [ToModel] read and write records by reflection.  The
    model covers the types [bool], [int], [float64], [string],
    [interface{}], pointers, slices, maps with string keys, named struct
    types and named types over these; records have no embedded fields.
    Other types (sized integers, [float32], arrays, channels, functions)
    are outside it. *)

Inductive gtype :=
| TBool
| TInt
| TFloat64
| TString
| TInterface
| TPtr (elem : gtype)
| TSlice (elem : gtype)
| TMap (elem : gtype)
| TStruct (name : string)
| TNamed (name : string) (underlying : gtype).

#[global] Instance gtype_eq_dec : EqDecision gtype.
Proof. solve_decision. Defined.

(** The type of a map with string keys, as far as a type assertion to
    [map[string]any] can tell: exactly that type, the named type [H], or
    another map type. *)
Inductive map_type := MapAny | MapH | MapOther.

(** A field of a record: its name, whether it is exported, its declared
    type and its content. *)
Record field (V : Type) := mkField {
  fname : string;
  fexported : bool;
  ftype : gtype;
  fvalue : V
}.
Arguments mkField {V}.
Arguments fname {V}.
Arguments fexported {V}.
Arguments ftype {V}.
Arguments fvalue {V}.

(** A value held in an [any]; [GNil] is the nil interface, a pointer, slice
    or map is [None] when nil. *)
Inductive gval :=
| GNil
| GBool (b : bool)
| GInt (n : Z)
| GFloat64 (x : float64)
| GString (s : string)
| GPtr (target : option gval)
| GSlice (elems : option (list gval))
| GMap (ty : map_type) (m : option (gmap string gval))
| GStruct (fields : list (field gval)).

Fixpoint underlying (t : gtype) : gtype :=
  match t with
  | TNamed _ u => underlying u
  | _ => t
  end.

Definition is_interface (t : gtype) : bool :=
  match underlying t with TInterface => true | _ => false end.

(** A defined (named) type, as opposed to a type literal. *)
Definition named (t : gtype) : bool :=
  match t with
  | TBool | TInt | TFloat64 | TString | TStruct _ | TNamed _ _ => true
  | _ => false
  end.

Definition numeric (t : gtype) : bool :=
  match underlying t with TInt | TFloat64 => true | _ => false end.

(** [V.AssignableTo(T)] *)
Definition AssignableTo (V T : gtype) : bool :=
  bool_decide (V = T) || is_interface T
  || (bool_decide (underlying V = underlying T) && (negb (named V) || negb (named T))).

(** [V.ConvertibleTo(T)] *)
Definition ConvertibleTo (V T : gtype) : bool :=
  AssignableTo V T
  || bool_decide (underlying V = underlying T)
  || (numeric V && numeric T)
  || (bool_decide (underlying V = TInt) && bool_decide (underlying T = TString)).

(** [reflect.Value.IsZero] of a variable of type [t] holding [v], as of
    Go 1.22: the value compares equal to the zero value of its type.  A
    float64 is zero when it is [0] of either sign (a NaN is not); an
    interface, a pointer, a slice and a map are zero when nil; a record is
    zero when each of its fields is, a blank field (named [_]) left
    aside. *)
Fixpoint IsZero (t : gtype) (v : gval) : bool :=
  if is_interface t then match v with GNil => true | _ => false end
  else
    match v with
    | GNil => true
    | GBool b => negb b
    | GInt n => n =? 0
    | GFloat64 x => match x with S754_zero _ => true | _ => false end
    | GString s => String.eqb s ""
    | GPtr target => match target with None => true | Some _ => false end
    | GSlice elems => match elems with None => true | Some _ => false end
    | GMap _ m => match m with None => true | Some _ => false end
    | GStruct fields =>
      forallb (fun f => String.eqb (fname f) "_" || IsZero (ftype f) (fvalue f))
              fields
    end.

(** [reflect.ValueOf(obj)] followed by one [Elem] when it is a pointer:
    [None] is the invalid [reflect.Value]. *)
Definition indirect (obj : gval) : option gval :=
  match obj with
  | GNil => None
  | GPtr target => target
  | v => Some v
  end.

(** [v.FieldByName(name)] on a record. *)
Definition FieldByName (fields : list (field gval)) (name : string) : option (field gval) :=
  find (fun f => String.eqb (fname f) name) fields.

(** The dynamic type and the content of a value bound by the binder. *)
Definition TypeOf (v : value) : gtype :=
  match v with
  | VNil => TInterface
  | VBool _ => TBool
  | VFloat _ => TFloat64
  | VInt _ => TInt
  | VString _ => TString
  | VSlice _ => TSlice TInterface
  | VMap _ => TMap TInterface
  end.

Fixpoint of_value (v : value) : gval :=
  match v with
  | VNil => GNil
  | VBool b => GBool b
  | VFloat x => GFloat64 x
  | VInt n => GInt n
  | VString s => GString s
  | VSlice elems => GSlice (Some (map of_value elems))
  | VMap m => GMap MapAny (Some (of_value <$> m))
  end.

(** [reflect.ValueOf(val).Convert(T)] for a [val] whose type is convertible
    to [T]. *)
Definition Convert (E : External) (val : value) (T : gtype) : gval :=
  match val, underlying T with
  | VFloat x, TInt => GInt (int_of_float64 E x)
  | VInt n, TFloat64 => GFloat64 (float64_of_int n)
  | VInt n, TString => GString (Utf8.EncodeRune n)
  | _, _ => of_value val
  end.

(** ** The presenter *)

Module Presenter.

Abbreviation H := (gmap string gval).

Record EntityField (P : Type) := mkEntityField {
  Name : string;
  Presenter : option P;
  (** a transform; [None] as result is a panic of the function *)
  Func : option (gval -> option gval);
  JSONKey : string;
  Condition : option (gval -> H -> option bool);
  Default : gval;
  Desc : string;
  Example : gval
}.
Arguments mkEntityField {P}.
Arguments Name {P}.
Arguments Presenter {P}.
Arguments Func {P}.
Arguments JSONKey {P}.
Arguments Condition {P}.
Arguments Default {P}.
Arguments Desc {P}.
Arguments Example {P}.

Inductive Entity := MkEntity { Fields : list (EntityField Entity) }.

(** [opts := H{}; if len(options) > 0 { opts = options[0] }] *)
Definition firstOption (options : list H) : H :=
  match options with
  | o :: _ => o
  | [] => ∅
  end.

(** The value of the source field, or the default. *)
Definition fieldOrDefault {P} (f : EntityField P) (obj : gval) : option gval :=
  match indirect obj with
  | Some (GStruct fields) =>
    match FieldByName fields (Name f) with
    | None => Some (Default f)
    | Some fieldVal =>
      if IsZero (ftype fieldVal) (fvalue fieldVal) then Some (Default f)
      else if fexported fieldVal then Some (fvalue fieldVal)
      else None
    end
  | _ => None
  end.

(** [var val any; if f.Func != nil {...} else {...}] *)
Definition resolve {P} (f : EntityField P) (obj : gval) : option gval :=
  match Func f with
  | Some fn => fn obj
  | None => fieldOrDefault f obj
  end.

(** [f.Condition != nil && !f.Condition(obj, opts)] *)
Definition skipped {P} (f : EntityField P) (obj : gval) (opts : H) : option bool :=
  match Condition f with
  | Some cond => negb <$> cond obj opts
  | None => Some false
  end.

Definition isPtrOrStruct (v : gval) : bool :=
  match v with GPtr _ | GStruct _ => true | _ => false end.

(** [serializeNested(val, presenter, opts)], where [present] is
    [Present(_, presenter, opts)]. *)
Definition serializeNested (present : gval -> option H) (val : gval) : option gval :=
  match val with
  | GNil => Some GNil
  | GSlice elems =>
    arr ← mapM (fun item =>
                  match item with
                  | GPtr _ => GMap MapH <$> (Some <$> present item)
                  | GNil => None
                  | _ => GMap MapH <$> (Some <$> present (GPtr (Some item)))
                  end) (default [] elems);
    Some (GSlice (Some arr))
  | GPtr _ | GStruct _ => GMap MapH <$> (Some <$> present val)
  | GMap MapAny None => Some (GMap MapH None)
  | GMap MapAny (Some m) =>
    out ← mapM (fun kv =>
                  if isPtrOrStruct kv.2
                  then h ← present kv.2; Some (kv.1, GMap MapH (Some h))
                  else Some kv) (map_to_list m);
    Some (GMap MapH (Some (list_to_map out)))
  | GMap _ _ => Some GNil
  | _ => Some val
  end.

(** One iteration of the field loop of [Present]; [nested] is
    [serializeNested(_, f.Presenter, opts)] when [f.Presenter] is not
    nil. *)
Definition presentField {P} (nested : option (gval -> option gval))
    (obj : gval) (opts : H) (f : EntityField P) (out : H) : option H :=
  skip ← skipped f obj opts;
  if (skip : bool) then Some out
  else
    val ← resolve f obj;
    val' ← match nested with
            | Some serialize => serialize val
            | None => Some val
            end;
    Some (<[JSONKey f := val']> out).

Fixpoint loop {A S} (step : A -> S -> option S) (l : list A) (s : S) : option S :=
  match l with
  | [] => Some s
  | a :: l' => s' ← step a s; loop step l' s'
  end.

(** [Present(obj, p, options...)]; [None] is a panic. *)
Fixpoint Present (p : Entity) (obj : gval) (options : list H) {struct p} : option H :=
  match obj with
  | GNil => Some ∅
  | _ =>
    let opts := firstOption options in
    loop (fun f out =>
            presentField
              (match Presenter f with
               | Some p' => Some (serializeNested (fun o => Present p' o [opts]))
               | None => None
               end) obj opts f out)
         (Fields p) ∅
  end.


End Presenter.

(** ** [ToModel] *)

(** [toSnakeCase] *)
Definition toSnakeCase (str : string) : string :=
  if String.eqb str "" then ""
  else
    Utf8.string_of_runes
      (foldl (fun out ir =>
                let '(i, r) := ir in
                if Utf8.between 65 r 90 then
                  (if (0 <? i)%nat
                      && match String.get (i - 1) str with
                         | Some c => Utf8.between 97 (Utf8.byte c) 122
                         | None => false
                         end
                   then out ++ [95] else out) ++ [r - 65 + 97]
                else out ++ [r])
             [] (Utf8.range str)).

(** [stringsEqualFold] *)
Definition stringsEqualFold (structField jsonKey : string) : bool :=
  String.eqb (toSnakeCase structField) jsonKey.

(** [field.Set(...)] on the field [f], settable and found for [val]. *)
Definition assign (E : External) (val : value) (f : field gval) : field gval :=
  if AssignableTo (TypeOf val) (ftype f)
  then mkField (fname f) (fexported f) (ftype f) (of_value val)
  else if ConvertibleTo (TypeOf val) (ftype f)
  then mkField (fname f) (fexported f) (ftype f) (Convert E val (ftype f))
  else f.

(** The body of the loop of [ToModel] for the entry [k], [val], on the
    value [v] the destination points to.  [FieldByNameFunc] panics when [v]
    is not a record and finds a field only when exactly one matches. *)
Definition setField (E : External) (k : string) (val : value) (v : gval) : option gval :=
  match v with
  | GStruct fields =>
    match filter (fun f => stringsEqualFold (fname f) k = true) fields with
    | [found] =>
      if negb (fexported found) then Some v
      else match val with
           | VNil => Some v
           | _ =>
             Some (GStruct (map (fun f => if stringsEqualFold (fname f) k
                                          then assign E val f else f) fields))
           end
    | _ => Some v
    end
  | _ => None
  end.

(** [func (i Input) ToModel(dst interface{})]: what [dst] points to after
    the call, or [None] when the call panics. *)
Definition ToModel (E : External) (i : Input) (dst : gval) : option gval :=
  match dst with
  | GPtr (Some v) =>
    map_fold (fun k val acc => v' ← acc; setField E k val v') (Some v) i
  | _ => None
  end.

(** ** A JSON decoder

    [json.Unmarshal] into an [interface{}]: objects become maps (the last
    value of a repeated key is kept), arrays become slices, every number
    becomes the nearest float64 and is an error when out of range, strings
    are unquoted with invalid UTF-8 and unpaired surrogates replaced by
    U+FFFD, and nesting deeper than 10000 is an error. *)

Module Json.

Definition isWS (c : ascii) : bool :=
  let b := Utf8.byte c in (b =? 32) || (b =? 9) || (b =? 13) || (b =? 10).

Fixpoint skip_ws (s : string) : string :=
  match s with
  | String c r => if isWS c then skip_ws r else s
  | EmptyString => s
  end.

Definition digit (c : ascii) : option Z :=
  let b := Utf8.byte c in
  if Utf8.between 48 b 57 then Some (b - 48) else None.

Definition hex (c : ascii) : option Z :=
  let b := Utf8.byte c in
  if Utf8.between 48 b 57 then Some (b - 48)
  else if Utf8.between 97 b 102 then Some (b - 87)
  else if Utf8.between 65 b 70 then Some (b - 55)
  else None.

(** [getu4]: the four hex digits that follow a backslash-u. *)
Definition getu4 (s : string) : option (Z * string) :=
  match s with
  | String a (String b (String c (String d r))) =>
    x ← hex a; y ← hex b; z ← hex c; w ← hex d;
    Some (x * 4096 + y * 256 + z * 16 + w, r)
  | _ => None
  end.

Definition isSurrogate (r : Z) : bool := Utf8.between 55296 r 57343.

(** [utf16.DecodeRune]. *)
Definition decodeSurrogates (r1 r2 : Z) : Z :=
  if Utf8.between 55296 r1 56319 && Utf8.between 56320 r2 57343
  then (r1 - 55296) * 1024 + (r2 - 56320) + 65536
  else Utf8.RuneError.

(** The body of a string literal after its opening quote: the unquoted
    bytes and the rest of the input after the closing quote. *)
Fixpoint unquote (fuel : nat) (s : string) : option (string * string) :=
  match fuel with
  | O => None
  | S fuel' =>
    match s with
    | EmptyString => None
    | String c r =>
      let b := Utf8.byte c in
      if b =? 34 then Some (EmptyString, r)
      else if b <? 32 then None
      else if b =? 92 then
        match r with
        | String e r' =>
          let simple (z : Z) :=
            '(str, rest) ← unquote fuel' r';
            Some (String (Utf8.chr z) str, rest) in
          let eb := Utf8.byte e in
          if (eb =? 34) || (eb =? 92) || (eb =? 47) then simple eb
          else if eb =? 98 then simple 8
          else if eb =? 102 then simple 12
          else if eb =? 110 then simple 10
          else if eb =? 114 then simple 13
          else if eb =? 116 then simple 9
          else if eb =? 117 then
            '(rr, r1) ← getu4 r';
            let '(rune, r2) :=
              if isSurrogate rr then
                match r1 with
                | String bs (String u r1') =>
                  if (Utf8.byte bs =? 92) && (Utf8.byte u =? 117) then
                    match getu4 r1' with
                    | Some (rr1, r1'') =>
                      let dec := decodeSurrogates rr rr1 in
                      if dec =? Utf8.RuneError then (Utf8.RuneError, r1)
                      else (dec, r1'')
                    | None => (Utf8.RuneError, r1)
                    end
                  else (Utf8.RuneError, r1)
                | _ => (Utf8.RuneError, r1)
                end
              else (rr, r1) in
            '(str, rest) ← unquote fuel' r2;
            Some (String.append (Utf8.EncodeRune rune) str, rest)
          else None
        | EmptyString => None
        end
      else if b <? Utf8.RuneSelf then
        '(str, rest) ← unquote fuel' r;
        Some (String c str, rest)
      else
        let '(rune, w) := Utf8.DecodeRuneInString s in
        '(str, rest) ← unquote fuel'
           (string_of_list_ascii (drop w (list_ascii_of_string s)));
        Some (String.append (Utf8.EncodeRune rune) str, rest)
    end
  end.

(** A run of decimal digits: their value, how many, and the rest. *)
Fixpoint digits (s : string) (acc : Z) (n : Z) : Z * Z * string :=
  match s with
  | String c r =>
    match digit c with
    | Some d => digits r (acc * 10 + d) (n + 1)
    | None => (acc, n, s)
    end
  | EmptyString => (acc, n, s)
  end.

(** [strconv.ParseFloat]: the float64 nearest to [m * 10 ^ e10], ties to
    even; [None] when it overflows. *)
Definition float_of_decimal (neg : bool) (m e10 : Z) : option float64 :=
  match m with
  | Z.pos mp =>
    let x :=
      if 0 <=? e10 then binary_normalize 53 1024 (m * 10 ^ e10) 0 false
      else SFdiv 53 1024 (S754_finite false mp 0)
                 (S754_finite false (Z.to_pos (10 ^ (- e10))) 0) in
    if is_finite x then Some (if neg then SFopp x else x) else None
  | _ => Some (S754_zero neg)
  end.

(** A number literal. *)
Definition number (s : string) : option (float64 * string) :=
  let '(neg, s1) :=
    match s with
    | String c r => if Utf8.byte c =? 45 then (true, r) else (false, s)
    | EmptyString => (false, s)
    end in
  let '(ip, ni, s2) := digits s1 0 0 in
  if ni =? 0 then None
  else if (1 <? ni) && (match s1 with
                        | String c _ => Utf8.byte c =? 48
                        | EmptyString => false
                        end) then None
  else
    '(m, nf, s3) ←
      match s2 with
      | String c r =>
        if Utf8.byte c =? 46 then
          let '(m, nf, s3) := digits r ip 0 in
          if nf =? 0 then None else Some (m, nf, s3)
        else Some (ip, 0, s2)
      | EmptyString => Some (ip, 0, s2)
      end;
    '(ex, s4) ←
      match s3 with
      | String c r =>
        if (Utf8.byte c =? 101) || (Utf8.byte c =? 69) then
          let '(eneg, r1) :=
            match r with
            | String c' r' =>
              if Utf8.byte c' =? 43 then (false, r')
              else if Utf8.byte c' =? 45 then (true, r')
              else (false, r)
            | EmptyString => (false, r)
            end in
          let '(ev, ne, s4) := digits r1 0 0 in
          if ne =? 0 then None else Some (if eneg then - ev else ev, s4)
        else Some (0, s3)
      | EmptyString => Some (0, s3)
      end;
    x ← float_of_decimal neg m (ex - nf);
    Some (x, s4).

Definition keyword (kw : string) (s : string) (v : value) : option (value * string) :=
  if String.prefix kw s
  then Some (v, string_of_list_ascii (drop (String.length kw) (list_ascii_of_string s)))
  else None.

Definition maxNestingDepth : nat := 10000.

Fixpoint parse_value (fuel : nat) (depth : nat) (s : string) : option (value * string) :=
  match fuel with
  | O => None
  | S fuel' =>
    match skip_ws s with
    | EmptyString => None
    | String c r as s' =>
      let b := Utf8.byte c in
      if b =? 110 then keyword "null" s' VNil
      else if b =? 116 then keyword "true" s' (VBool true)
      else if b =? 102 then keyword "false" s' (VBool false)
      else if b =? 34 then
        '(str, rest) ← unquote (String.length r) r; Some (VString str, rest)
      else if b =? 91 then
        if (maxNestingDepth <? depth + 1)%nat then None
        else match skip_ws r with
             | String c' r' =>
               if Utf8.byte c' =? 93 then Some (VSlice [], r')
               else parse_elems fuel' (depth + 1)%nat r []
             | EmptyString => None
             end
      else if b =? 123 then
        if (maxNestingDepth <? depth + 1)%nat then None
        else match skip_ws r with
             | String c' r' =>
               if Utf8.byte c' =? 125 then Some (VMap ∅, r')
               else parse_members fuel' (depth + 1)%nat r ∅
             | EmptyString => None
             end
      else '(x, rest) ← number s'; Some (VFloat x, rest)
    end
  end
with parse_elems (fuel : nat) (depth : nat) (s : string) (acc : list value)
  : option (value * string) :=
  match fuel with
  | O => None
  | S fuel' =>
    '(v, r) ← parse_value fuel' depth s;
    match skip_ws r with
    | String c r' =>
      if Utf8.byte c =? 44 then parse_elems fuel' depth r' (v :: acc)
      else if Utf8.byte c =? 93 then Some (VSlice (rev (v :: acc)), r')
      else None
    | EmptyString => None
    end
  end
with parse_members (fuel : nat) (depth : nat) (s : string) (acc : Input)
  : option (value * string) :=
  match fuel with
  | O => None
  | S fuel' =>
    match skip_ws s with
    | String q r =>
      if Utf8.byte q =? 34 then
        '(key, r1) ← unquote (String.length r) r;
        match skip_ws r1 with
        | String colon r2 =>
          if Utf8.byte colon =? 58 then
            '(v, r3) ← parse_value fuel' depth r2;
            match skip_ws r3 with
            | String c r' =>
              if Utf8.byte c =? 44 then parse_members fuel' depth r' (<[key := v]> acc)
              else if Utf8.byte c =? 125 then Some (VMap (<[key := v]> acc), r')
              else None
            | EmptyString => None
            end
          else None
        | EmptyString => None
        end
      else None
    | EmptyString => None
    end
  end.

(** [json.Unmarshal([]byte(s), &parsed)] for [var parsed interface{}]. *)
Definition Unmarshal (s : string) : option value :=
  '(v, rest) ← parse_value (2 * String.length s + 2) 0 s;
  match skip_ws rest with
  | EmptyString => Some v
  | _ => None
  end.

End Json.

(** ** A rule engine

    A fragment of go-playground/validator: the rules [required], [min=N]
    and [max=N], for a tag that is a comma-separated list of them with [N]
    a decimal integer with an optional minus sign, applied to a string
    (its length in runes), an [int] or a float64, the three kinds of value
    the binder hands to the engine.  The engine reads [N] with
    [strconv.ParseInt] for a string and an [int] and with
    [strconv.ParseFloat] for a float64, and panics when that fails, out of
    range included.

    A tag outside the fragment is answered by a panic.  This is the answer
    of the engine to a tag it does not know; the engine knows more rules
    than these three ([email], [len], ...) and more spellings of [N], and
    for them the fragment does not give its answer.  No statement depends
    on that: the theorems hold for every engine, and the examples use the
    tag [min=0,max=150] and tags the engine does not know. *)

Module Rules.

Fixpoint split (sep : ascii) (s : string) : list string :=
  match s with
  | EmptyString => [EmptyString]
  | String c r =>
    if Ascii.eqb c sep then EmptyString :: split sep r
    else match split sep r with
         | w :: ws => String c w :: ws
         | [] => [String c EmptyString]
         end
  end.

(** A decimal integer with an optional minus sign and no leading zero,
    the spelling that [strconv.ParseInt] with base 0 and
    [strconv.ParseFloat] read alike. *)
Definition asInt (s : string) : option Z :=
  let unsigned (d : string) : option Z :=
    let '(v, n, rest) := Json.digits d 0 0 in
    if (0 <? n) && String.eqb rest "" && ((n =? 1) || negb (String.prefix "0" d))
    then Some v else None in
  match s with
  | String c r => if Utf8.byte c =? 45 then Z.opp <$> unsigned r else unsigned s
  | EmptyString => None
  end.

(** The parameter of a rule as the engine reads it for the kind of the
    value: an [int64] for a string and an [int], a float64 for a float64.
    [None] is the panic of the engine on a parameter it cannot read. *)
Definition param_of (v : value) (param : string) : option Z :=
  p ← asInt param;
  match v with
  | VString _ | VInt _ => if (minInt <=? p) && (p <=? maxInt) then Some p else None
  | VFloat _ => if is_finite (float64_of_int p) then Some p else None
  | _ => None
  end.

(** The sign of [v - p], where the rule compares. *)
Definition compare (v : value) (p : Z) : option comparison :=
  match v with
  | VString s => Some (Z.of_nat (length (Utf8.range s)) ?= p)
  | VInt n => Some (n ?= p)
  | VFloat x => SFcompare x (float64_of_int p)
  | _ => None
  end.

Definition hasValue (v : value) : option bool :=
  match v with
  | VString s => Some (negb (String.eqb s ""))
  | VInt n => Some (negb (n =? 0))
  | VFloat x => Some (negb (SFeqb x (S754_zero false)))
  | _ => None
  end.

Definition failed (tag : string) : var_result :=
  VarError ("Key: '' Error:Field validation for '' failed on the '" ++ tag ++ "' tag").

Definition rule (v : value) (r : string) : var_result :=
  match split "=" r with
  | ["required"%string] =>
    match hasValue v with
    | Some true => VarOk
    | Some false => failed "required"
    | None => VarPanic
    end
  | ["min"%string; param] =>
    match param_of v param with
    | Some p =>
      match v, compare v p with
      | (VString _ | VInt _ | VFloat _), Some (Eq | Gt) => VarOk
      | (VString _ | VInt _ | VFloat _), _ => failed "min"
      | _, _ => VarPanic
      end
    | None => VarPanic
    end
  | ["max"%string; param] =>
    match param_of v param with
    | Some p =>
      match v, compare v p with
      | (VString _ | VInt _ | VFloat _), Some (Eq | Lt) => VarOk
      | (VString _ | VInt _ | VFloat _), _ => failed "max"
      | _, _ => VarPanic
      end
    | None => VarPanic
    end
  | _ => VarPanic
  end.

Fixpoint all (v : value) (rs : list string) : var_result :=
  match rs with
  | [] => VarOk
  | r :: rs' =>
    match rule v r with
    | VarOk => all v rs'
    | res => res
    end
  end.

Definition Var (v : value) (tag : string) : var_result := all v (split "," tag).

End Rules.

(** The environment of the examples: the rule engine and the decoder above,
    and the conversion of amd64, where [int(x)] of a float64 out of range is
    the least [int]. *)
Definition env : External := {|
  validate_Var := Rules.Var;
  json_Unmarshal := Json.Unmarshal;
  int_unrepresentable := fun _ => minInt
|}.

(** ** Vocabulary of the statements *)

(** The field an error message names first. *)
Definition error_field (e : error) : option string :=
  match e with
  | ErrMissingRequired name _ | ErrMustBe name _ | ErrValidationFailed name _
  | ErrInvalidJSON name | ErrElementMustBeObject name
  | ErrElementValidationFailed name _ => Some name
  | ErrRule _ | ErrUnmarshal _ => None
  end.

Definition is_missing (e : error) : bool :=
  match e with ErrMissingRequired _ _ => true | _ => false end.


(** One iteration of the field loop of [validateJSON], with the recursive
    call it makes for a field that has a nested schema. *)
Definition nestedOf (E : External) (mode : string) (f : Param Params)
  : option (Input -> outcome Input) :=
  match Schema f with
  | Some s => Some (fun m => validateJSON E s m mode)
  | None => None
  end.

Definition validateJSONStep (E : External) (parsed : Input) (mode : string)
    (f : Param Params) (out : Input) : outcome Input :=
  validateJSONField E (nestedOf E mode f) parsed mode f out.

(** [z] is the float [x] truncated toward zero: [z] has the sign of [x] and
    [|z|] is the largest integer not above [|x|].  For a finite [x] of
    magnitude [m * 2 ^ e]. *)
Definition trunc_toward_zero (x : float64) (z : Z) : Prop :=
  match x with
  | S754_zero _ => z = 0
  | S754_finite s m e =>
    (if s then z <= 0 else 0 <= z)
    /\ if 0 <=? e then Z.abs z = Z.pos m * 2 ^ e
       else Z.abs z * 2 ^ (- e) <= Z.pos m < (Z.abs z + 1) * 2 ^ (- e)
  | _ => False
  end.

(** Every builder holds a descriptor that is in the field list of its
    schema, and no two builders on one schema hold the same name. *)
Definition builder_inv (h : Builder.heap) : Prop :=
  (forall b fb, Builder.builders h !! b = Some fb ->
     exists fs, Builder.schemas h !! Builder.parent fb = Some fs /\ Builder.param fb ∈ fs)
  /\ (forall b1 b2 fb1 fb2,
        Builder.builders h !! b1 = Some fb1 -> Builder.builders h !! b2 = Some fb2 ->
        Builder.parent fb1 = Builder.parent fb2 -> Name (Builder.param fb1) = Name (Builder.param fb2) -> b1 = b2).

(** One iteration of the field loop of [Present], with the nested
    presentation of a field that has a nested presenter. *)
Definition presentStep (obj : gval) (opts : Presenter.H)
    (f : Presenter.EntityField Presenter.Entity) (out : Presenter.H)
  : option Presenter.H :=
  Presenter.presentField
    (match Presenter.Presenter f with
     | Some p' =>
       Some (Presenter.serializeNested (fun o => Presenter.Present p' o [opts]))
     | None => None
     end) obj opts f out.

Definition is_struct (v : gval) : bool :=
  match v with GStruct _ => true | _ => false end.

Definition is_nil (v : value) : bool :=
  match v with VNil => true | _ => false end.

(** [f] is the only field of the record whose name converts to the same
    snake-case key. *)
Definition sole (fields : list (field gval)) (f : field gval) : bool :=
  match filter (fun g => stringsEqualFold (fname g) (toSnakeCase (fname f)) = true) fields with
  | [_] => true
  | _ => false
  end.

(** The field [f] of the destination after [ToModel]: written from the
    entry under its snake-case key when the field is the only one with that
    key, is exported, and the entry is not nil. *)
Definition copied (E : External) (i : Input) (fields : list (field gval))
    (f : field gval) : field gval :=
  match i !! toSnakeCase (fname f) with
  | Some val =>
    if sole fields f && fexported f && negb (is_nil val) then assign E val f else f
  | None => f
  end.

(** Go leaves the order of [for k, v := range m] unspecified.  The two
    loops over a map, run on the entries in a given order. *)
Definition passthroughIn (order : list (string * value)) (out : Input) : Input :=
  foldl (fun out kv => match out !! kv.1 with
                       | Some _ => out
                       | None => <[kv.1 := kv.2]> out
                       end) out order.

Definition ToModelIn (E : External) (order : list (string * value)) (dst : gval)
  : option gval :=
  match dst with
  | GPtr (Some v) => foldl (fun acc kv => v' ← acc; setField E kv.1 kv.2 v') (Some v) order
  | _ => None
  end.

(** ** Schemas and inputs of the examples *)

(** The schema and the input of [TestBindAndValidateSuccess], without the
    rule on the email. *)
Definition test_schema : Params :=
  MkParams [ mkParam "name" Ty.String "" [] None "";
             mkParam "age" Ty.Integer "" [] None "";
             mkParam "email" Ty.String "" [] None "" ].

Definition test_raw : Input :=
  {[ "name" := VString "John";
     "age" := VFloat (S754_finite false 15 1);
     "email" := VString "john@example.com";
     "extra" := VString "ignored" ]}.

Definition test_out : Input :=
  {[ "name" := VString "John";
     "age" := VInt 30;
     "email" := VString "john@example.com";
     "extra" := VString "ignored" ]}.


(** The scenario of the specification: [name] is a string required on
    [create], [age] is an optional integer. *)
Definition name_field : Param Params := mkParam "name" Ty.String "" ["create"] None "".
Definition age_field : Param Params := mkParam "age" Ty.Integer "" [] None "".
Definition required_schema : Params := MkParams [name_field; age_field].
Definition age_only : Input := {[ "age" := VFloat (S754_finite false 15 1) ]}.

(** The same two fields with [age] declared first, and an input whose
    [age] is a string. *)
Definition age_first_schema : Params := MkParams [age_field; name_field].
Definition age_thirty : Input := {[ "age" := VString "thirty" ]}.

(** A field required on a mode written with a space after it, and one
    required on a mode written with a space before it. *)
Definition name_on_create_sp : Param Params :=
  mkParam "name" Ty.String "" ["create "] None "".
Definition name_on_sp_create : Param Params :=
  mkParam "name" Ty.String "" [" create"] None "".

(** The numbers 5.0, 5.9 and -5.9 as [encoding/json] decodes them. *)
Definition f5_0 : float64 := S754_finite false 5629499534213120 (-50).
Definition f5_9 : float64 := S754_finite false 6642809450371482 (-50).
Definition fm5_9 : float64 := S754_finite true 6642809450371482 (-50).
Definition f200 : float64 := S754_finite false 7036874417766400 (-45).

(** The [age] field of the README: an integer between 0 and 150. *)
Definition age_ruled : Param Params := mkParam "age" Ty.Integer "min=0,max=150" [] None "".

(** A nested schema with a boolean field, as the [preferences] schema of
    the README, and an object whose [notifications] is a string. *)
Definition preferences_schema : Params :=
  MkParams [ mkParam "theme" Ty.String "" [] None "";
             mkParam "notifications" Ty.Boolean "" [] None "" ].
Definition preferences_field : Param Params :=
  mkParam "preferences" Ty.JSON "" [] (Some preferences_schema) "".
Definition preferences_yes : Input :=
  {[ "theme" := VString "dark"; "notifications" := VString "yes" ]}.

(** A nested schema with a field that itself declares a nested schema, as
    [profile] inside [user] in the README, and objects whose [profile] is
    a string or an array. *)
Definition profile_schema : Params := MkParams [ mkParam "bio" Ty.String "" [] None "" ].
Definition profile_field : Param Params :=
  mkParam "profile" Ty.JSON "" [] (Some profile_schema) "".
Definition user_schema : Params :=
  MkParams [ mkParam "name" Ty.String "" [] None ""; profile_field ].
Definition user_field : Param Params := mkParam "user" Ty.JSON "" [] (Some user_schema) "".
Definition user_profile_string : Input :=
  {[ "name" := VString "John"; "profile" := VString "none" ]}.
Definition user_profile_array : Input :=
  {[ "name" := VString "John"; "profile" := VSlice [] ]}.

(** Two declarations of the field [a] on one schema, the first typed
    string, the second typed integer. *)
Definition declared_twice : list Builder.call :=
  [ Builder.CallNewParams;
    Builder.CallRequires 0 "a"; Builder.CallType 0 Ty.String;
    Builder.CallOptional 0 "a"; Builder.CallType 1 Ty.Integer ].

(** The schema of [TestFieldBuilderTypes], shortened. *)
Definition declared_once : list Builder.call :=
  [ Builder.CallNewParams;
    Builder.CallOptional 0 "name"; Builder.CallType 0 Ty.String;
    Builder.CallOptional 0 "age"; Builder.CallType 1 Ty.Integer;
    Builder.CallValidate 0 "required" ].

Definition heap_once : Builder.heap :=
  Eval vm_compute in default Builder.empty (Builder.run declared_once).
Definition fields_once : list (Param nat) :=
  Eval vm_compute in default [] (Builder.schemas heap_once !! 0%nat).
Definition heap_twice : Builder.heap :=
  Eval vm_compute in default Builder.empty (Builder.run declared_twice).

(** The presenter and the record of [TestPresentWithDefault]: [City] is
    empty and has the default ["Unknown"]. *)
Definition name_entity : Presenter.EntityField Presenter.Entity :=
  Presenter.mkEntityField "Name" None None "Name" None GNil "" GNil.
Definition city_entity : Presenter.EntityField Presenter.Entity :=
  Presenter.mkEntityField "City" None None "City" None (GString "Unknown") "" GNil.
Definition city_presenter : Presenter.Entity :=
  Presenter.MkEntity [name_entity; city_entity].
Definition john_fields : list (field gval) :=
  [ mkField "Name" true TString (GString "John");
    mkField "City" true TString (GString "") ].
Definition john : gval := GStruct john_fields.

(** The same presenter with [City] shown only in the detailed view, as the
    conditional fields of the README. *)
Definition detailed (obj : gval) (options : Presenter.H) : option bool :=
  Some match options !! "view" with
       | Some (GString s) => String.eqb s "detailed"
       | _ => false
       end.
Definition city_if_detailed : Presenter.EntityField Presenter.Entity :=
  Presenter.mkEntityField "City" None None "City" (Some detailed) (GString "Unknown") "" GNil.
Definition conditional_presenter : Presenter.Entity :=
  Presenter.MkEntity [name_entity; city_if_detailed].

(** The record [ToModelUser] of the tests, holding earlier values, with an
    unexported field and a pointer field added, and an input for it. *)
Definition user_fields : list (field gval) :=
  [ mkField "ID" true TInt (GInt 0);
    mkField "Name" true TString (GString "Original Name");
    mkField "Email" true TString (GString "original@example.com");
    mkField "Age" true TInt (GInt 25);
    mkField "IsActive" true TBool (GBool false);
    mkField "password" false TString (GString "");
    mkField "Nickname" true (TPtr TString) (GPtr None) ].

Definition user_input : Input :=
  {[ "id" := VFloat f5_0;
     "name" := VNil;
     "email" := VString "new@example.com";
     "age" := VString "25";
     "is_active" := VBool true;
     "password" := VString "secret";
     "nickname" := VString "nick";
     "extra_field" := VString "ignored" ]}.

Definition user_fields_after : list (field gval) :=
  [ mkField "ID" true TInt (GInt 5);
    mkField "Name" true TString (GString "Original Name");
    mkField "Email" true TString (GString "new@example.com");
    mkField "Age" true TInt (GInt 25);
    mkField "IsActive" true TBool (GBool true);
    mkField "password" false TString (GString "");
    mkField "Nickname" true (TPtr TString) (GPtr None) ].

(** A record with two fields whose names have the same snake-case form. *)
Definition twin_fields : list (field gval) :=
  [ mkField "UserID" true TInt (GInt 0); mkField "UserId" true TInt (GInt 0) ].

(** * The rest of the library *)

(** ** Typed accessors of [Input] *)

Module Accessors.

(** [func (i Input) String(name string) string] *)
Definition String (i : Input) (name : string) : string :=
  match i !! name with
  | Some (VString v) => v
  | _ => ""
  end.

(** [func (i Input) Integer(name string, def int) int] *)
Definition Integer (i : Input) (name : string) (def : Z) : Z :=
  match i !! name with
  | Some (VInt v) => v
  | _ => def
  end.

(** [func (i Input) Float(name string, def float64) float64] *)
Definition Float (i : Input) (name : string) (def : float64) : float64 :=
  match i !! name with
  | Some (VFloat v) => v
  | _ => def
  end.

(** [func (i Input) Boolean(name string, def bool) bool] *)
Definition Boolean (i : Input) (name : string) (def : bool) : bool :=
  match i !! name with
  | Some (VBool v) => v
  | _ => def
  end.

(** [BigDecimal], [Date], [DateTime] and [Time] have the body of [String]. *)
Definition BigDecimal := String.
Definition Date := String.
Definition DateTime := String.
Definition Time := String.

(** [func (i Input) Numeric(name string, def float64) float64]; [parseFloat]
    is the helper of that name, [fmt.Sscanf(s, "%f", &f)], with [None] for
    an error. *)
Definition Numeric (parseFloat : string -> option float64)
    (i : Input) (name : string) (def : float64) : float64 :=
  match i !! name with
  | Some (VFloat v) => v
  | Some (VString s) =>
    match parseFloat s with
    | Some f => f
    | None => def
    end
  | _ => def
  end.

(** [func (i Input) JSON(name string) interface{}] *)
Definition JSON (i : Input) (name : string) : value :=
  match i !! name with
  | Some v => v
  | None => VNil
  end.

End Accessors.

(** ** Vocabulary of the further properties *)

(** The dynamic type a bound value has for each declared type; a
    structured-JSON field and a field of an unknown type can hold any
    value. *)
Definition conforms (t : FieldType) (w : value) : bool :=
  if String.eqb t Ty.String then match w with VString _ => true | _ => false end
  else if String.eqb t Ty.Integer then match w with VInt _ => true | _ => false end
  else if String.eqb t Ty.Float then match w with VFloat _ => true | _ => false end
  else if String.eqb t Ty.BigDecimal then match w with VString _ => true | _ => false end
  else if String.eqb t Ty.Numeric then
    match w with VFloat _ | VString _ => true | _ => false end
  else if String.eqb t Ty.Date then match w with VString _ => true | _ => false end
  else if String.eqb t Ty.DateTime then match w with VString _ => true | _ => false end
  else if String.eqb t Ty.Time then match w with VString _ => true | _ => false end
  else if String.eqb t Ty.Boolean then match w with VBool _ => true | _ => false end
  else if String.eqb t Ty.JSON then true
  else if String.eqb t Ty.Slice then match w with VSlice _ => true | _ => false end
  else true.

(** The value [BindAndValidate] hands to the rule engine for the field [f]
    holding [v], [None] where it runs no rule: not for a native [int], not
    for a float in an arbitrary-precision decimal field, and for no
    boolean, structured-JSON or array field. *)
Definition ruled (E : External) (f : Param Params) (v : value) : option value :=
  let t := Type_ f in
  if String.eqb t Ty.String || String.eqb t Ty.Date || String.eqb t Ty.DateTime
     || String.eqb t Ty.Time || String.eqb t Ty.BigDecimal
  then match v with VString _ => Some v | _ => None end
  else if String.eqb t Ty.Integer
  then match v with VFloat x => Some (VInt (int_of_float64 E x)) | _ => None end
  else if String.eqb t Ty.Float
  then match v with VFloat _ => Some v | _ => None end
  else if String.eqb t Ty.Numeric
  then match v with VFloat _ | VString _ => Some v | _ => None end
  else None.

(** A field whose bound value binds to itself: every scalar type, the
    arbitrary-precision decimal only without a validation tag (its float
    form is bound as a string, which the tag would then be run on). *)
Definition rebindable (f : Param Params) : bool :=
  let t := Type_ f in
  String.eqb t Ty.String || String.eqb t Ty.Integer || String.eqb t Ty.Float
  || String.eqb t Ty.Numeric || String.eqb t Ty.Date || String.eqb t Ty.DateTime
  || String.eqb t Ty.Time || String.eqb t Ty.Boolean
  || (String.eqb t Ty.BigDecimal && String.eqb (Validate f) "").

(** [strings.Contains(s, sub)] *)
Definition Contains (s sub : string) : Prop :=
  exists pre suf, s = (pre ++ sub ++ suf)%string.

(** The schema as [validateJSON] reads its rules: the tag of every field
    that is not of type [String] removed, at every depth. *)
Fixpoint untagged (p : Params) : Params :=
  MkParams
    (map (fun f =>
            mkParam (Name f) (Type_ f)
                    (if String.eqb (Type_ f) Ty.String then Validate f else "")
                    (RequiredOn f)
                    (match Schema f with
                     | Some s => Some (untagged s)
                     | None => None
                     end)
                    (SliceType f))
         (Fields p)).

(** [BindAndValidate] with the pass-through loop run on the entries of the
    input in a given order. *)
Definition BindAndValidateIn (E : External) (order : list (string * value))
    (p : Params) (raw : Input) (mode : string)
  : call (option Input * option error) :=
  match bindFields E p raw mode with
  | Ok out => Returns (Some (passthroughIn order out), None)
  | Fail err => Returns (None, Some err)
  | Panic => Panics
  end.

(** What a call of the builder API makes of the descriptor held by the
    builder [b]: the assignment of the setter when the call is on [b]. *)
Definition applied (b : Builder.ptr) (c : Builder.call) (q : Param Builder.ptr)
  : Param Builder.ptr :=
  match c with
  | Builder.CallOn b' endpoints =>
    if decide (b' = b)
    then mkParam (Name q) (Type_ q) (Validate q) (RequiredOn q ++ endpoints)
                 (Schema q) (SliceType q)
    else q
  | Builder.CallType b' t =>
    if decide (b' = b)
    then mkParam (Name q) t (Validate q) (RequiredOn q) (Schema q) (SliceType q)
    else q
  | Builder.CallValidate b' tag =>
    if decide (b' = b)
    then mkParam (Name q) (Type_ q) tag (RequiredOn q) (Schema q) (SliceType q)
    else q
  | Builder.CallWithSchema b' s =>
    if decide (b' = b)
    then mkParam (Name q) (Type_ q) (Validate q) (RequiredOn q) s (SliceType q)
    else q
  | Builder.CallSliceOf b' t s =>
    if decide (b' = b)
    then mkParam (Name q) Ty.Slice (Validate q) (RequiredOn q) s t
    else q
  | _ => q
  end.

(** The descriptor of the field [name] after the calls [cs], as the calls
    on the builder [b] make it. *)
Definition replay (b : Builder.ptr) (cs : list Builder.call) (name : string)
  : Param Builder.ptr :=
  foldl (fun q c => applied b c q) (mkParam name "" "" [] None "") cs.

(** The endpoints passed to [On] on the builder [b], in the order of the
    calls. *)
Definition endpoints_of (b : Builder.ptr) (cs : list Builder.call) : list string :=
  concat (omap (fun c => match c with
                         | Builder.CallOn b' endpoints =>
                           if decide (b' = b) then Some endpoints else None
                         | _ => None
                         end) cs).

(** The string holds a capital ASCII letter, a byte from ['A'] to ['Z']. *)
Fixpoint has_upper (s : string) : bool :=
  match s with
  | EmptyString => false
  | String c r => Utf8.between 65 (Utf8.byte c) 90 || has_upper r
  end.

(** The values the binders hand to the rule engine: a string, an [int] or
    a float64. *)
Definition scalar (v : value) : bool :=
  match v with
  | VString _ | VInt _ | VFloat _ => true
  | _ => false
  end.

(** The rule engine returns, with or without an error, on the tag of the
    field [f] for every value the binders can hand it: the tag is one the
    engine knows. *)
Definition engine_defined {S} (E : External) (f : Param S) : Prop :=
  Validate f ≠ "" ->
  forall v, scalar v = true -> validate_Var E v (Validate f) ≠ VarPanic.

(** A schema in which nesting stops after one level: no field of a nested
    schema is a structured-JSON field with a schema of its own. *)
Definition flat (s : Params) : Prop :=
  Forall (fun g => Type_ g = Ty.JSON -> Schema g = None) (Fields s).

(** ** Further examples *)

(** The ruled [age] of the README beside its nested [preferences]. *)
Definition ruled_schema : Params := MkParams [age_ruled; preferences_field].

(** An input with a number under a key that names no field of
    [required_schema]. *)
Definition john_scored : Input :=
  {[ "name" := VString "John"; "score" := VFloat f5_9 ]}.

(** Builder calls of the README: [email] is declared with [Requires] and
    required on two modes through two calls of [On], [nick] is declared
    with [Requires] and no [On]. *)
Definition declared_chain : list Builder.call :=
  [ Builder.CallNewParams;
    Builder.CallRequires 0 "email"; Builder.CallType 0 Ty.String;
    Builder.CallOn 0 ["create"]; Builder.CallValidate 0 "required";
    Builder.CallOn 0 ["update"];
    Builder.CallRequires 0 "nick"; Builder.CallType 1 Ty.String ].

Definition heap_chain : Builder.heap :=
  Eval vm_compute in default Builder.empty (Builder.run declared_chain).

Definition email_builder : Builder.FieldBuilder :=
  {| Builder.param := mkParam "email" Ty.String "required" ["create"; "update"] None "";
     Builder.parent := 0%nat |}.

Definition nick_builder : Builder.FieldBuilder :=
  {| Builder.param := mkParam "nick" Ty.String "" [] None "";
     Builder.parent := 0%nat |}.



(** Two schemas whose first field panics on the input beside them, and
    whose second field, the integer [age], is given a string: the nested
    [profile] of [user] is a string where an object is asserted, and the
    tag of [name] is a rule that the engine does not know. *)
Definition panicking_schema : Params := MkParams [user_field; age_field].
Definition panicking_raw : Input :=
  {[ "user" := VMap user_profile_string; "age" := VString "thirty" ]}.
Definition unruly_schema : Params :=
  MkParams [mkParam "name" Ty.String "nosuchrule" [] None ""; age_field].
Definition unruly_raw : Input :=
  {[ "name" := VString "John"; "age" := VString "thirty" ]}.

(** A record whose only field holds the float64 negative zero, and a
    presenter with a default for it. *)
Definition cold_fields : list (field gval) :=
  [ mkField "Temp" true TFloat64 (GFloat64 (S754_zero true)) ].
Definition temp_presenter : Presenter.Entity :=
  Presenter.MkEntity
    [ Presenter.mkEntityField "Temp" None None "temp" None (GString "n/a") "" GNil ].

(** * Properties *)

(** ** Strings and numbers *)

Example TrimSpace_create : TrimSpace " create	" = "create".
Proof. reflexivity. Qed.

Example TrimSpace_inner : TrimSpace "a b" = "a b".
Proof. reflexivity. Qed.

Example Sprintf_10f_1_5 :
  Sprintf_10f (S754_finite false 3 (-1)) = "1.5000000000".
Proof. reflexivity. Qed.

Example Sprintf_10f_tie :
  Sprintf_10f (S754_finite true 1 (-11)) = "-0.0004882812".
Proof. reflexivity. Qed.

(** ** The binder *)

Section BinderProperties.

Variable E : External.

Lemma forEach_app {A S} (step : A -> S -> outcome S) (l1 l2 : list A) (s : S) :
  forEach step (l1 ++ l2) s = (s' ← forEach step l1 s; forEach step l2 s').
Proof.
  revert s. induction l1 as [|a l1 IH]; intros s; simpl; [done|].
  destruct (step a s) as [s'| |]; simpl; auto.
Qed.

(** The pass-through loop keeps what the field loop bound and adds every
    other key of the input. *)
Lemma passthrough_lookup (raw out : Input) (k : string) :
  passthrough raw out !! k =
  match out !! k with
  | Some v => Some v
  | None => raw !! k
  end.
Proof.
  unfold passthrough.
  apply (map_fold_weak_ind
           (fun (r : Input) (m : Input) =>
              r !! k = match out !! k with Some v => Some v | None => m !! k end)).
  - rewrite lookup_empty. by destruct (out !! k).
  - intros i x m r Hi IH.
    destruct (r !! i) as [y|] eqn:Hri.
    + rewrite IH. destruct (out !! k) as [v|] eqn:Hk; [done|].
      destruct (decide (i = k)) as [->|Hne].
      * rewrite IH, Hi in Hri. done.
      * by rewrite lookup_insert_ne.
    + destruct (decide (i = k)) as [->|Hne].
      * rewrite !lookup_insert_eq.
        rewrite IH in Hri. destruct (out !! k); [done|reflexivity].
      * rewrite !lookup_insert_ne by done. exact IH.
Qed.

Lemma passthrough_union (raw out : Input) : passthrough raw out = out ∪ raw.
Proof.
  apply map_eq. intros k. rewrite passthrough_lookup, lookup_union.
  destruct (out !! k), (raw !! k); reflexivity.
Qed.

(** The result of the pass-through loop does not depend on the order in
    which [range] yields the entries of the input. *)
Lemma passthrough_any_order (raw out : Input) (order : list (string * value)) :
  order ≡ₚ map_to_list raw -> passthroughIn order out = passthrough raw out.
Proof.
  intros Hperm. rewrite passthrough_union.
  assert (Hgen : forall l (o : Input), passthroughIn l o = o ∪ list_to_map l).
  { induction l as [|[k v] l IH]; intros o.
    - simpl. apply map_eq. intros j. rewrite lookup_union, lookup_empty.
      by destruct (o !! j).
    - unfold passthroughIn in *. simpl. rewrite IH. apply map_eq. intros j.
      rewrite !lookup_union.
      destruct (o !! k) as [w|] eqn:Hk.
      + destruct (decide (k = j)) as [<-|Hne].
        * rewrite Hk. by destruct (list_to_map l !! k), (<[k:=v]> (list_to_map l) !! k).
        * by rewrite lookup_insert_ne.
      + destruct (decide (k = j)) as [<-|Hne].
        * rewrite Hk, !lookup_insert_eq. simpl. by destruct (list_to_map l !! k).
        * by rewrite !lookup_insert_ne. }
  rewrite Hgen. f_equal.
  rewrite <- (list_to_map_to_list raw). apply list_to_map_proper; [|done].
  rewrite Hperm. apply NoDup_fst_map_to_list.
Qed.

(** An iteration of the field loop writes no key but the name of its field. *)
Lemma bindField_other_key raw mode f (out out' : Input) k :
  bindField E raw mode f out = Ok out' -> Name f ≠ k -> out' !! k = out !! k.
Proof.
  unfold bindField. intros H Hne.
  destruct (raw !! Name f) as [val|].
  - destruct (bindValue E f val mode) as [v| |]; simpl in H; try discriminate.
    injection H as <-. by rewrite lookup_insert_ne.
  - destruct (isRequired f mode); [discriminate|]. by injection H as <-.
Qed.

Lemma bindFields_other_key raw mode fs (out out' : Input) k :
  forEach (bindField E raw mode) fs out = Ok out' ->
  Forall (fun f => Name f ≠ k) fs ->
  out' !! k = out !! k.
Proof.
  revert out. induction fs as [|f fs IH]; intros out H Hall; simpl in H.
  - by injection H as <-.
  - inversion Hall as [|? ? Hf Hfs]; subst.
    destruct (bindField E raw mode f out) as [o| |] eqn:Hstep; simpl in H;
      try discriminate.
    rewrite (IH _ H Hfs). eapply bindField_other_key; eauto.
Qed.

Lemma forEach_fail {A S} (step : A -> S -> outcome S) (l : list A) (s : S) e :
  forEach step l s = Fail e ->
  exists pre a post s0,
    l = pre ++ a :: post /\ forEach step pre s = Ok s0 /\ step a s0 = Fail e.
Proof.
  revert s. induction l as [|a l IH]; intros s H; simpl in H; [discriminate|].
  destruct (step a s) as [s'| |] eqn:Hstep; simpl in H; try discriminate.
  - destruct (IH _ H) as (pre & b & post & s0 & -> & Hpre & Hb).
    exists (a :: pre), b, post, s0. simpl. rewrite Hstep. simpl. auto.
  - injection H as <-. exists [], a, l, s. auto.
Qed.

Lemma forEach_first_fail {A S} (step : A -> S -> outcome S) pre a post (s s0 : S) e :
  forEach step pre s = Ok s0 -> step a s0 = Fail e ->
  forEach step (pre ++ a :: post) s = Fail e.
Proof.
  intros Hpre Ha. rewrite forEach_app, Hpre. simpl. rewrite Ha. reflexivity.
Qed.

Lemma collect_fail {A B} (g : A -> outcome B) (l : list A) e :
  collect g l = Fail e -> exists a, a ∈ l /\ g a = Fail e.
Proof.
  induction l as [|a l IH]; simpl; [discriminate|].
  destruct (g a) as [b| |] eqn:Hg; simpl; try discriminate.
  - destruct (collect g l) as [bs| |]; simpl; try discriminate.
    intros H. destruct (IH H) as (a' & Hin & Ha'). exists a'. split; [by right|done].
  - intros H. injection H as <-. exists a. split; [by left|done].
Qed.

Lemma isRequired_spec {S} (f : Param S) (mode : string) :
  isRequired f mode = true <-> exists r, r ∈ RequiredOn f /\ TrimSpace r = mode.
Proof.
  unfold isRequired. rewrite existsb_exists. split.
  - intros (r & Hin & Heq). exists r. split; [by apply list_elem_of_In|].
    by apply String.eqb_eq.
  - intros (r & Hin & Heq). exists r. split; [by apply list_elem_of_In|].
    by apply String.eqb_eq.
Qed.

Lemma validated_fail {S A} (f : Param S) v (k : outcome A) e :
  validated E f v k = Fail e ->
  k = Fail e \/ (exists msg, e = ErrValidationFailed (Name f) (ErrRule msg)).
Proof.
  unfold validated. destruct (String.eqb (Validate f) ""); [auto|].
  destruct (validate_Var E v (Validate f)); [auto| |discriminate].
  intros H. injection H as <-. eauto.
Qed.

(** The type switch fails with a wrong-type, rule, JSON or element error
    that names its field, never with a missing-field error. *)
Lemma bindValue_fail f val mode e :
  bindValue E f val mode = Fail e ->
  error_field e = Some (Name f) /\ is_missing e = false.
Proof.
  unfold bindValue, bindString, nestedJSON. intros H.
  repeat match type of H with
         | (if ?c then _ else _) = _ => destruct c
         | match ?v with _ => _ end = _ => destruct v eqn:?
         | validated _ _ _ _ = Fail _ =>
           apply validated_fail in H; destruct H as [H|[msg ->]]
         | _ ≫= _ = Fail _ => idtac
         end;
    try discriminate; try (injection H as <-); try (split; reflexivity).
  all: match type of H with
       | (?c ≫= _) = _ => destruct c as [arr| |] eqn:Hc; simpl in H; try discriminate
       end.
  all: injection H as <-.
  all: apply collect_fail in Hc; destruct Hc as (a & _ & Ha).
  all: destruct a; try (injection Ha as <-; split; reflexivity).
  all: match type of Ha with
       | match ?c with _ => _ end = _ => destruct c; try discriminate
       end.
  all: injection Ha as <-; split; reflexivity.
Qed.

Lemma bindField_fail raw mode f out e :
  bindField E raw mode f out = Fail e ->
  error_field e = Some (Name f)
  /\ (is_missing e = true ->
      e = ErrMissingRequired (Name f) mode /\ raw !! Name f = None
      /\ isRequired f mode = true).
Proof.
  unfold bindField. destruct (raw !! Name f) as [val|].
  - destruct (bindValue E f val mode) as [v| |] eqn:Hv; simpl; try discriminate.
    intros H. injection H as <-. apply bindValue_fail in Hv as [H1 H2].
    split; [done|]. rewrite H2. discriminate.
  - destruct (isRequired f mode); [|discriminate].
    intros H. injection H as <-. auto.
Qed.

Lemma bindField_absent raw mode f (out out' : Input) k :
  raw !! k = None -> bindField E raw mode f out = Ok out' -> out' !! k = out !! k.
Proof.
  intros Hk H. destruct (decide (Name f = k)) as [Heq|Hne].
  - unfold bindField in H. rewrite Heq, Hk in H.
    destruct (isRequired f mode); [discriminate|]. by injection H as <-.
  - eapply bindField_other_key; eauto.
Qed.

Lemma bindFields_absent raw mode fs (out out' : Input) k :
  raw !! k = None -> forEach (bindField E raw mode) fs out = Ok out' ->
  out' !! k = out !! k.
Proof.
  intros Hk. revert out. induction fs as [|f fs IH]; intros out H; simpl in H.
  - by injection H as <-.
  - destruct (bindField E raw mode f out) as [o| |] eqn:Hstep; simpl in H;
      try discriminate.
    rewrite (IH _ H). eapply bindField_absent; eauto.
Qed.

(** C1 — extra-field passthrough: when [BindAndValidate] returns an
    output, every key of the raw map that is the name of no field of the
    schema is in the output with the value it has in the raw map. *)
Theorem BindAndValidate_passthrough (p : Params) (raw : Input) (mode : string)
    (out : Input) (err : option error) (k : string) (v : value) :
  BindAndValidate E p raw mode = Returns (Some out, err) ->
  raw !! k = Some v ->
  Forall (fun f => Name f ≠ k) (Fields p) ->
  out !! k = Some v.
Proof.
  unfold BindAndValidate, bindFields. intros H Hk Hnames.
  destruct (forEach (bindField E raw mode) (Fields p) ∅) as [o| |] eqn:Hloop;
    try discriminate.
  injection H as <- <-.
  rewrite passthrough_lookup, (bindFields_other_key _ _ _ _ _ _ Hloop Hnames).
  by rewrite lookup_empty.
Qed.

(** C2 (as amended) — required fields.  A field is required on a mode
    when some entry of its requiredOn list equals the mode once the white
    space around the entry is trimmed.  For the field [f] at any position
    of the schema:
    - absent from the input and required on the mode, with every earlier
      field bound: the call returns the missing-required-field error that
      names the field and the mode;
    - present in the input: the call never returns that error;
    - absent and not required: its iteration leaves the output as it is,
      and an output the call returns has no entry for the field. *)
Theorem BindAndValidate_required (p : Params) (raw : Input) (mode : string)
    (pre post : list (Param Params)) (f : Param Params) :
  Fields p = pre ++ f :: post ->
  (raw !! Name f = None ->
   (exists r, r ∈ RequiredOn f /\ TrimSpace r = mode) ->
   forall out0, forEach (bindField E raw mode) pre ∅ = Ok out0 ->
   BindAndValidate E p raw mode
   = Returns (None, Some (ErrMissingRequired (Name f) mode)))
  /\ (forall v, raw !! Name f = Some v ->
      forall out, BindAndValidate E p raw mode
                  ≠ Returns (out, Some (ErrMissingRequired (Name f) mode)))
  /\ (raw !! Name f = None ->
      ~ (exists r, r ∈ RequiredOn f /\ TrimSpace r = mode) ->
      (forall out, bindField E raw mode f out = Ok out)
      /\ (forall out err, BindAndValidate E p raw mode = Returns (Some out, err) ->
          out !! Name f = None)).
Proof.
  intros Hp. unfold BindAndValidate, bindFields. rewrite Hp. repeat split.
  - intros Habs Hreq out0 Hpre. apply isRequired_spec in Hreq.
    erewrite forEach_first_fail; eauto.
    unfold bindField. by rewrite Habs, Hreq.
  - intros v Hv out H.
    destruct (forEach (bindField E raw mode) (pre ++ f :: post) ∅)
      as [o| |] eqn:Hloop; try discriminate.
    injection H as <- ->.
    apply forEach_fail in Hloop as (pre' & g & post' & s0 & _ & _ & Hg).
    apply bindField_fail in Hg as [_ Hg].
    destruct (Hg eq_refl) as (Heq & Hnone & _).
    injection Heq as Heq. rewrite <- Heq, Hv in Hnone. discriminate.
  - intros out. unfold bindField. rewrite H.
    destruct (isRequired f mode) eqn:Hreq; [|done].
    apply isRequired_spec in Hreq. contradiction.
  - intros out err Hret.
    destruct (forEach (bindField E raw mode) (pre ++ f :: post) ∅)
      as [o| |] eqn:Hloop; try discriminate.
    injection Hret as <- <-.
    rewrite passthrough_lookup, (bindFields_absent _ _ _ _ _ _ H Hloop).
    by rewrite lookup_empty.
Qed.

Lemma forEach_panic {A S} (step : A -> S -> outcome S) (l : list A) (s : S) :
  forEach step l s = Panic ->
  exists pre a post s0,
    l = pre ++ a :: post /\ forEach step pre s = Ok s0 /\ step a s0 = Panic.
Proof.
  revert s. induction l as [|a l IH]; intros s H; simpl in H; [discriminate|].
  destruct (step a s) as [s'| |] eqn:Hstep; simpl in H; try discriminate.
  - destruct (IH _ H) as (pre & b & post & s0 & -> & Hpre & Hb).
    exists (a :: pre), b, post, s0. simpl. rewrite Hstep. simpl. auto.
  - exists [], a, l, s. auto.
Qed.

(** C3 (as amended) — failure semantics.  An error is never returned with
    an output; the error returned is the one of the first field, in schema
    order, whose iteration fails, and it names that field; and as soon as
    the iteration of a field fails after all the earlier ones bound, the
    call returns that error and a null output.  The call returns nothing
    at all, neither output nor error, exactly when the iteration of a
    field panics after all the earlier ones bound, whatever the later
    fields hold: a failing field behind it is not reported. *)
Theorem BindAndValidate_first_error (p : Params) (raw : Input) (mode : string) :
  (forall out err,
      BindAndValidate E p raw mode = Returns (out, Some err) ->
      out = None
      /\ exists pre f post out0,
          Fields p = pre ++ f :: post
          /\ forEach (bindField E raw mode) pre ∅ = Ok out0
          /\ bindField E raw mode f out0 = Fail err
          /\ error_field err = Some (Name f))
  /\ (forall pre f post out0 err,
         Fields p = pre ++ f :: post ->
         forEach (bindField E raw mode) pre ∅ = Ok out0 ->
         bindField E raw mode f out0 = Fail err ->
         BindAndValidate E p raw mode = Returns (None, Some err))
  /\ (BindAndValidate E p raw mode = Panics
      <-> exists pre f post out0,
            Fields p = pre ++ f :: post
            /\ forEach (bindField E raw mode) pre ∅ = Ok out0
            /\ bindField E raw mode f out0 = Panic).
Proof.
  unfold BindAndValidate, bindFields. split; [|split].
  - intros out err H.
    destruct (forEach (bindField E raw mode) (Fields p) ∅) as [o| |] eqn:Hloop;
      try discriminate.
    injection H as <- <-. split; [reflexivity|].
    apply forEach_fail in Hloop as (pre & f & post & s0 & Hp & Hpre & Hf).
    exists pre, f, post, s0. repeat split; try assumption.
    by apply bindField_fail in Hf as [? _].
  - intros pre f post out0 err Hp Hpre Hf.
    rewrite Hp. by erewrite forEach_first_fail.
  - split.
    + intros H.
      destruct (forEach (bindField E raw mode) (Fields p) ∅) as [o| |] eqn:Hloop;
        try discriminate.
      by apply forEach_panic in Hloop.
    + intros (pre & f & post & out0 & Hp & Hpre & Hf).
      rewrite Hp, forEach_app, Hpre. simpl. by rewrite Hf.
Qed.

Lemma validateJSON_eq (p : Params) (raw : Input) (mode : string) :
  validateJSON E p raw mode =
  match jsonRoundTrip raw with
  | None => Fail (ErrUnmarshal "unexpected end of JSON input")
  | Some parsed =>
    out ← forEach (validateJSONStep E parsed mode) (Fields p) ∅;
    Ok (passthrough parsed out)
  end.
Proof. destruct p. reflexivity. Qed.

Lemma forEach_first_panic {A S} (step : A -> S -> outcome S) pre a post (s s0 : S) :
  forEach step pre s = Ok s0 -> step a s0 = Panic ->
  forEach step (pre ++ a :: post) s = Panic.
Proof.
  intros Hpre Ha. rewrite forEach_app, Hpre. simpl. rewrite Ha. reflexivity.
Qed.

(** [float64_trunc] computes the truncation toward zero. *)
Lemma float64_trunc_spec (x : float64) (z : Z) :
  float64_trunc x = Some z <-> trunc_toward_zero x z.
Proof.
  destruct x as [s|s| |s m e]; simpl; try (split; [discriminate|tauto]).
  - split; [intros [= <-]; reflexivity|intros ->; reflexivity].
  - destruct (Z.leb_spec 0 e) as [He|He].
    + rewrite Z.shiftl_mul_pow2 by done.
      assert (0 <= Z.pos m * 2 ^ e) by (apply Z.mul_nonneg_nonneg; lia).
      split.
      * intros [= <-]. destruct s; split; lia.
      * intros [Hs Habs]. f_equal. destruct s; lia.
    + rewrite Z.shiftl_div_pow2 by lia.
      assert (Hd : 0 < 2 ^ (- e)) by (apply Z.pow_pos_nonneg; lia).
      pose proof (Z.div_mod (Z.pos m) (2 ^ (- e)) ltac:(lia)) as Hdm.
      pose proof (Z.mod_pos_bound (Z.pos m) (2 ^ (- e)) Hd) as Hmod.
      assert (Hq : 0 <= Z.pos m / 2 ^ (- e)) by (apply Z.div_pos; lia).
      split.
      * intros [= <-].
        destruct s; (split; [lia|]); rewrite ?Z.abs_opp, Z.abs_eq by lia; nia.
      * intros [Hs [Hlo Hhi]]. f_equal.
        assert (Z.abs z = Z.pos m / 2 ^ (- e)) as Habs.
        { apply (Z.div_unique _ _ _ (Z.pos m - Z.abs z * 2 ^ (- e))); lia. }
        destruct s; lia.
Qed.

(** C7 (as amended) — integer fields.  For a field declared integer and
    present in the input, the iteration of the field loop
    - on a float64 whose truncation toward zero [z] fits an [int]: binds
      [z] when the field has no validation tag or the rule engine accepts
      [z], and returns the validation error when the engine rejects [z];
    - on a native [int]: binds it unchanged;
    - on any other value: returns the wrong-type error. *)
Theorem integer_field_binding (raw : Input) (mode : string) (f : Param Params)
    (out : Input) (v : value) :
  Type_ f = Ty.Integer ->
  raw !! Name f = Some v ->
  match v with
  | VFloat x =>
    forall z, trunc_toward_zero x z -> minInt <= z <= maxInt ->
      (Validate f = "" \/ validate_Var E (VInt z) (Validate f) = VarOk ->
       bindField E raw mode f out = Ok (<[Name f := VInt z]> out))
      /\ (forall msg, Validate f ≠ "" ->
           validate_Var E (VInt z) (Validate f) = VarError msg ->
           bindField E raw mode f out
           = Fail (ErrValidationFailed (Name f) (ErrRule msg)))
  | VInt n => bindField E raw mode f out = Ok (<[Name f := VInt n]> out)
  | _ => bindField E raw mode f out = Fail (ErrMustBe (Name f) "integer")
  end.
Proof.
  intros Hty Hv. unfold bindField, bindValue. rewrite Hv, Hty. simpl.
  destruct v; try reflexivity.
  intros z Hz Hrange. apply float64_trunc_spec in Hz.
  unfold int_of_float64. rewrite Hz.
  replace ((minInt <=? z) && (z <=? maxInt)) with true
    by (symmetry; apply andb_true_iff; split; apply Z.leb_le; lia).
  unfold validated. split.
  - intros [Htag|Hok].
    + rewrite Htag. reflexivity.
    + destruct (String.eqb (Validate f) ""); [reflexivity|]. by rewrite Hok.
  - intros msg Htag Herr.
    destruct (String.eqb_spec (Validate f) ""); [contradiction|]. by rewrite Herr.
Qed.

(** C10 — the rule of an integer field runs on floats only.  For a field
    declared integer with a non-empty validation tag: a native [int] is
    bound whatever the rule engine would say of it; a float64 is bound,
    rejected or panics as the engine decides on its conversion to [int];
    every other value is a wrong-type error. *)
Theorem integer_rule_runs_on_float_only (raw : Input) (mode : string)
    (f : Param Params) (out : Input) (v : value) :
  Type_ f = Ty.Integer ->
  Validate f ≠ "" ->
  raw !! Name f = Some v ->
  match v with
  | VInt n => bindField E raw mode f out = Ok (<[Name f := VInt n]> out)
  | VFloat x =>
    bindField E raw mode f out =
    match validate_Var E (VInt (int_of_float64 E x)) (Validate f) with
    | VarOk => Ok (<[Name f := VInt (int_of_float64 E x)]> out)
    | VarError msg => Fail (ErrValidationFailed (Name f) (ErrRule msg))
    | VarPanic => Panic
    end
  | _ => bindField E raw mode f out = Fail (ErrMustBe (Name f) "integer")
  end.
Proof.
  intros Hty Htag Hv. unfold bindField, bindValue. rewrite Hv, Hty. simpl.
  destruct v; try reflexivity.
  unfold validated. destruct (String.eqb_spec (Validate f) ""); [contradiction|].
  by destruct (validate_Var E _ _).
Qed.

(** C9 — the unchecked assertion of [validateJSON].  When the field loop
    of [validateJSON] reaches a field declared structured-JSON with a
    nested schema whose value, after the round trip, is not a mapping,
    the call panics; and so does the iteration of [BindAndValidate] for a
    structured-JSON field whose nested schema this is. *)
Theorem validateJSON_panics_on_non_map (p : Params) (raw parsed : Input)
    (mode : string) (pre post : list (Param Params)) (f : Param Params)
    (s : Params) (v : value) (out0 : Input) :
  jsonRoundTrip raw = Some parsed ->
  Fields p = pre ++ f :: post ->
  forEach (validateJSONStep E parsed mode) pre ∅ = Ok out0 ->
  Type_ f = Ty.JSON ->
  Schema f = Some s ->
  parsed !! Name f = Some v ->
  is_map v = false ->
  validateJSON E p raw mode = Panic
  /\ forall top raw0 out,
      Type_ top = Ty.JSON -> Schema top = Some p ->
      raw0 !! Name top = Some (VMap raw) ->
      bindField E raw0 mode top out = Panic.
Proof.
  intros Hrt Hp Hpre Hty Hs Hv Hmap.
  assert (Hpanic : validateJSON E p raw mode = Panic).
  { rewrite validateJSON_eq, Hrt, Hp.
    erewrite forEach_first_panic; eauto.
    unfold validateJSONStep, validateJSONField, validateJSONValue, nestedOf.
    rewrite Hv, Hty, Hs. simpl. by destruct v. }
  split; [exact Hpanic|].
  intros top raw0 out Htop Hstop Hraw0.
  unfold bindField, bindValue, nestedJSON.
  rewrite Hraw0, Htop, Hstop. simpl. by rewrite Hpanic.
Qed.

End BinderProperties.

Lemma test_schema_binds :
  BindAndValidate env test_schema test_raw "create" = Returns (Some test_out, None).
Proof. vm_compute. reflexivity. Qed.

Lemma BindAndValidate_passthrough_witness :
  BindAndValidate env test_schema test_raw "create" = Returns (Some test_out, None)
  /\ test_raw !! "extra" = Some (VString "ignored")
  /\ Forall (fun f : Param Params => Name f ≠ "extra") (Fields test_schema)
  /\ test_out !! "extra" = Some (VString "ignored").
Proof.
  assert (H1 : BindAndValidate env test_schema test_raw "create"
               = Returns (Some test_out, None)) by (vm_compute; reflexivity).
  assert (H2 : test_raw !! "extra" = Some (VString "ignored")) by reflexivity.
  assert (H3 : Forall (fun f : Param Params => Name f ≠ "extra") (Fields test_schema)).
  { repeat constructor; simpl; discriminate. }
  split; [exact H1|]. split; [exact H2|]. split; [exact H3|].
  exact (BindAndValidate_passthrough env test_schema test_raw "create" test_out None
           "extra" (VString "ignored") H1 H2 H3).
Defined.

Lemma BindAndValidate_required_witness :
  Fields required_schema = [] ++ name_field :: [age_field]
  /\ BindAndValidate env required_schema age_only "create"
     = Returns (None, Some (ErrMissingRequired "name" "create")).
Proof.
  split; [reflexivity|].
  apply (proj1 (BindAndValidate_required env required_schema age_only "create"
                  [] [age_field] name_field eq_refl)) with (out0 := ∅).
  - reflexivity.
  - exists "create". split; [apply list_elem_of_here|reflexivity].
  - reflexivity.
Defined.

(** C2 as stated fails on the code in both directions: a field whose
    requiredOn list contains the mode, absent from the input, binds without
    error when the mode starts with a space; and a field whose requiredOn
    list does not contain the mode is reported missing when an entry of the
    list is the mode followed by a space. *)
Lemma BindAndValidate_required_counterexample :
  ((" create" ∈ RequiredOn name_on_sp_create)
   /\ (∅ : Input) !! Name name_on_sp_create = None
   /\ BindAndValidate env (MkParams [name_on_sp_create]) ∅ " create"
      = Returns (Some ∅, None))
  /\ (("create" ∉ RequiredOn name_on_create_sp)
      /\ (∅ : Input) !! Name name_on_create_sp = None
      /\ BindAndValidate env (MkParams [name_on_create_sp]) ∅ "create"
         = Returns (None, Some (ErrMissingRequired "name" "create"))).
Proof.
  split; split.
  - apply list_elem_of_here.
  - split; reflexivity.
  - intros H. apply list_elem_of_In in H. simpl in H.
    destruct H as [H|[]]. discriminate.
  - split; reflexivity.
Qed.

Lemma BindAndValidate_first_error_witness :
  Fields age_first_schema = [] ++ age_field :: [name_field]
  /\ bindField env age_thirty "create" age_field ∅ = Fail (ErrMustBe "age" "integer")
  /\ bindField env age_thirty "create" name_field ∅
     = Fail (ErrMissingRequired "name" "create")
  /\ BindAndValidate env age_first_schema age_thirty "create"
     = Returns (None, Some (ErrMustBe "age" "integer")).
Proof.
  split; [reflexivity|]. split; [reflexivity|]. split; [reflexivity|].
  exact (proj1 (proj2 (BindAndValidate_first_error env age_first_schema age_thirty
                         "create"))
           [] age_field [name_field] ∅ (ErrMustBe "age" "integer")
           eq_refl eq_refl eq_refl).
Defined.

(** C3 as stated fails on the code: a field fails and the call returns no
    error.  In both inputs [age] is a string where the schema declares an
    integer, and the field declared before it panics: [user], whose nested
    [profile] is a string where [validateJSON] asserts an object; and
    [name], whose tag is a rule the engine does not know. *)
Lemma BindAndValidate_first_error_counterexample :
  ((forall out, bindField env panicking_raw "create" age_field out
                = Fail (ErrMustBe "age" "integer"))
   /\ BindAndValidate env panicking_schema panicking_raw "create" = Panics)
  /\ ((forall out, bindField env unruly_raw "create" age_field out
                   = Fail (ErrMustBe "age" "integer"))
      /\ BindAndValidate env unruly_schema unruly_raw "create" = Panics).
Proof.
  split; split; try (intros out; reflexivity); vm_compute; reflexivity.
Qed.

Example trunc_5_0 : float64_trunc f5_0 = Some 5.
Proof. reflexivity. Qed.

Example trunc_5_9 : float64_trunc f5_9 = Some 5.
Proof. reflexivity. Qed.

Example trunc_minus_5_9 : float64_trunc fm5_9 = Some (-5).
Proof. reflexivity. Qed.

Example bind_float_as_integer :
  BindAndValidate env (MkParams [age_field]) {[ "age" := VFloat f5_0 ]} ""
  = Returns (Some {[ "age" := VInt 5 ]}, None).
Proof. vm_compute. reflexivity. Qed.

Lemma integer_field_binding_witness :
  Type_ age_field = Ty.Integer
  /\ trunc_toward_zero f5_9 5
  /\ bindField env {[ "age" := VFloat f5_9 ]} "" age_field ∅ = Ok {[ "age" := VInt 5 ]}.
Proof.
  assert (Ht : trunc_toward_zero f5_9 5).
  { split; [lia|]. split; [apply Z.leb_le|apply Z.ltb_lt]; reflexivity. }
  split; [reflexivity|]. split; [exact Ht|].
  refine (proj1 (integer_field_binding env {[ "age" := VFloat f5_9 ]} "" age_field ∅
                   (VFloat f5_9) eq_refl eq_refl 5 Ht _) (or_introl eq_refl)).
  split; [apply Z.leb_le|apply Z.leb_le]; reflexivity.
Defined.

(** C7 as stated fails on the code: an integer field with a validation tag
    does not accept the float 200.0, whose truncation is 200, when the rule
    rejects 200. *)
Lemma integer_field_binding_counterexample :
  Type_ age_ruled = Ty.Integer
  /\ trunc_toward_zero f200 200
  /\ BindAndValidate env (MkParams [age_ruled]) {[ "age" := VFloat f200 ]} ""
     = Returns (None,
                Some (ErrValidationFailed "age"
                        (ErrRule "Key: '' Error:Field validation for '' failed on the 'max' tag"))).
Proof.
  split; [reflexivity|]. split.
  - split; [lia|]. split; [apply Z.leb_le|apply Z.ltb_lt]; reflexivity.
  - vm_compute. reflexivity.
Qed.

Lemma integer_rule_runs_on_float_only_witness :
  Type_ age_ruled = Ty.Integer
  /\ Validate age_ruled ≠ ""
  /\ validate_Var env (VInt 200) (Validate age_ruled)
     = VarError "Key: '' Error:Field validation for '' failed on the 'max' tag"
  /\ bindField env {[ "age" := VInt 200 ]} "" age_ruled ∅ = Ok {[ "age" := VInt 200 ]}.
Proof.
  split; [reflexivity|]. split; [discriminate|]. split; [reflexivity|].
  exact (integer_rule_runs_on_float_only env {[ "age" := VInt 200 ]} "" age_ruled ∅
           (VInt 200) eq_refl ltac:(discriminate) eq_refl).
Defined.

Example native_int_passes_unvalidated :
  BindAndValidate env (MkParams [age_ruled]) {[ "age" := VInt 200 ]} ""
  = Returns (Some {[ "age" := VInt 200 ]}, None).
Proof. vm_compute. reflexivity. Qed.

Lemma validateJSON_panics_on_non_map_witness :
  jsonRoundTrip user_profile_string = Some user_profile_string
  /\ Fields user_schema = [mkParam "name" Ty.String "" [] None ""] ++ profile_field :: []
  /\ is_map (VString "none") = false
  /\ validateJSON env user_schema user_profile_string "create" = Panic
  /\ bindField env {[ "user" := VMap user_profile_string ]} "create" user_field ∅ = Panic.
Proof.
  assert (Hrt : jsonRoundTrip user_profile_string = Some user_profile_string)
    by (vm_compute; reflexivity).
  split; [exact Hrt|]. split; [reflexivity|]. split; [reflexivity|].
  destruct (validateJSON_panics_on_non_map env user_schema user_profile_string
              user_profile_string "create"
              [mkParam "name" Ty.String "" [] None ""] [] profile_field
              profile_schema (VString "none") {[ "name" := VString "John" ]}
              Hrt eq_refl) as [H1 H2]; try reflexivity.
  split; [exact H1|].
  apply H2; reflexivity.
Defined.

Example nested_array_panics :
  BindAndValidate env (MkParams [user_field]) {[ "user" := VMap user_profile_array ]} "create"
  = Panics.
Proof. vm_compute. reflexivity. Qed.

Example nested_string_panics :
  BindAndValidate env (MkParams [user_field]) {[ "user" := VMap user_profile_string ]} "create"
  = Panics.
Proof. vm_compute. reflexivity. Qed.

Example top_level_array_is_bound :
  BindAndValidate env user_schema user_profile_array "create"
  = Returns (Some user_profile_array, None).
Proof. vm_compute. reflexivity. Qed.

(** C4 — the nested binder is not the top-level binder: on the object
    [preferences_yes], whose [notifications] is a string where the schema
    declares a boolean, [BindAndValidate] returns the wrong-type error and
    [validateJSON] returns the object, so that the object nested under a
    structured-JSON field with this schema is bound unchecked. *)
Theorem validateJSON_skips_boolean_check (E : External) (mode : string) :
  BindAndValidate E preferences_schema preferences_yes mode
  = Returns (None, Some (ErrMustBe "notifications" "boolean"))
  /\ validateJSON E preferences_schema preferences_yes mode = Ok preferences_yes
  /\ BindAndValidate E (MkParams [preferences_field])
                     {[ "preferences" := VMap preferences_yes ]} mode
     = Returns (Some {[ "preferences" := VMap preferences_yes ]}, None).
Proof. split; [|split]; vm_compute; reflexivity. Qed.

(** The parts of C4 that hold: the nested binder passes the mode on
    unchanged (it is the [mode] of [nestedOf]), starts from an empty output,
    and passes through every key of the round-tripped object that names no
    field of the nested schema. *)
Lemma validateJSON_passthrough (E : External) (p : Params) (raw parsed out : Input)
    (mode : string) (k : string) (v : value) :
  validateJSON E p raw mode = Ok out ->
  jsonRoundTrip raw = Some parsed ->
  parsed !! k = Some v ->
  Forall (fun f => Name f ≠ k) (Fields p) ->
  out !! k = Some v.
Proof.
  rewrite validateJSON_eq. intros H Hrt Hk Hnames. rewrite Hrt in H.
  destruct (forEach (validateJSONStep E parsed mode) (Fields p) ∅) as [o| |] eqn:Hloop;
    simpl in H; try discriminate.
  injection H as <-. rewrite passthrough_lookup.
  assert (Ho : o !! k = None); [|by rewrite Ho].
  assert (Hgen : forall fs (o0 o1 : Input),
             forEach (validateJSONStep E parsed mode) fs o0 = Ok o1 ->
             Forall (fun f => Name f ≠ k) fs -> o1 !! k = o0 !! k).
  { induction fs as [|f fs IH]; intros o0 o1 H Hall; simpl in H.
    - by injection H as <-.
    - inversion Hall as [|? ? Hf Hfs]; subst.
      destruct (validateJSONStep E parsed mode f o0) as [o'| |] eqn:Hstep;
        simpl in H; try discriminate.
      rewrite (IH _ _ H Hfs).
      unfold validateJSONStep, validateJSONField in Hstep.
      destruct (parsed !! Name f) as [val|].
      + destruct (validateJSONValue E (nestedOf E mode f) f val) as [w| |];
          simpl in Hstep; try discriminate.
        injection Hstep as <-. by rewrite lookup_insert_ne.
      + destruct (isRequired f mode); [discriminate|]. by injection Hstep as <-. }
  rewrite (Hgen _ _ _ Hloop Hnames). apply lookup_empty.
Qed.

Example nested_address_is_bound :
  BindAndValidate env
    (MkParams [mkParam "address" Ty.JSON "" []
                 (Some (MkParams [mkParam "city" Ty.String "" [] None ""])) ""])
    {[ "address" := VMap {[ "city" := VString "NYC"; "zip" := VString "10001" ]} ]} ""
  = Returns (Some {[ "address" := VMap {[ "city" := VString "NYC";
                                          "zip" := VString "10001" ]} ]}, None).
Proof. vm_compute. reflexivity. Qed.

Example Error_missing :
  Error (ErrMissingRequired "name" "create") = "missing required field 'name' for create".
Proof. reflexivity. Qed.

Example Error_wrapped :
  Error (ErrValidationFailed "address" (ErrMustBe "city" "string"))
  = "field 'address' validation failed: field 'city' must be string".
Proof. reflexivity. Qed.

(** ** The schema builder *)

Section BuilderProperties.

Import Builder.

Lemma run_snoc cs c : run (cs ++ [c]) = run cs ≫= step c.
Proof. unfold run. by rewrite foldl_app. Qed.

Lemma overwrite_names q fs : map Name (overwrite q fs) = map Name fs.
Proof.
  induction fs as [|g fs IH]; simpl; [done|].
  destruct (String.eqb_spec (Name g) (Name q)) as [Heq|Hne]; simpl; congruence.
Qed.

Lemma overwrite_self q fs :
  Name q ∈ map Name fs -> q ∈ overwrite q fs.
Proof.
  induction fs as [|g fs IH]; simpl; intros H.
  - by apply elem_of_nil in H.
  - destruct (String.eqb_spec (Name g) (Name q)) as [Heq|Hne].
    + apply list_elem_of_here.
    + apply elem_of_cons in H as [H|H]; [congruence|].
      apply list_elem_of_further. auto.
Qed.

Lemma overwrite_other q g fs :
  g ∈ fs -> Name g ≠ Name q -> g ∈ overwrite q fs.
Proof.
  induction fs as [|g' fs IH]; simpl; intros H Hne.
  - by apply elem_of_nil in H.
  - apply elem_of_cons in H as [->|H].
    + destruct (String.eqb_spec (Name g') (Name q)); [contradiction|].
      apply list_elem_of_here.
    + destruct (String.eqb_spec (Name g') (Name q)).
      * by apply list_elem_of_further.
      * apply list_elem_of_further. auto.
Qed.

(** What a setter does to the heap. *)
Lemma set_spec upd b h h' :
  (forall q, Name (upd q) = Name q) ->
  set upd b h = Some h' ->
  exists fb fs,
    builders h !! b = Some fb
    /\ schemas h !! parent fb = Some fs
    /\ schemas h' = <[parent fb := overwrite (upd (param fb)) fs]> (schemas h)
    /\ builders h' = <[b := {| param := upd (param fb); parent := parent fb |}]> (builders h).
Proof.
  intros Hname. unfold set, updateParent. simpl.
  destruct (builders h !! b) as [fb|] eqn:Hb; simpl; [|discriminate].
  destruct (schemas h !! parent fb) as [fs|] eqn:Hfs; simpl; [|discriminate].
  intros [= <-]. exists fb, fs. simpl. auto.
Qed.

Lemma step_setter c h h' :
  step c h = Some h' ->
  match c with
  | CallNewParams | CallRequires _ _ | CallOptional _ _ => True
  | CallOn b _ | CallType b _ | CallValidate b _ | CallWithSchema b _ | CallSliceOf b _ _ =>
    exists fb fs q,
      builders h !! b = Some fb
      /\ schemas h !! parent fb = Some fs
      /\ schemas h' = <[parent fb := overwrite q fs]> (schemas h)
      /\ builders h' = <[b := {| param := q; parent := parent fb |}]> (builders h)
      /\ Name q = Name (param fb)
  end.
Proof.
  destruct c; simpl; try done; intros H;
    apply set_spec in H as (fb & fs & ? & ? & ? & ?); try done;
    exists fb, fs; eexists; (split; [eassumption|]); (split; [eassumption|]);
    (split; [eassumption|]); (split; [eassumption|]); reflexivity.
Qed.


Lemma declared_snoc p cs c : declared p (cs ++ [c]) = declared p cs ++ declared p [c].
Proof. unfold declared. by rewrite omap_app. Qed.

Lemma run_snoc_Some cs c h :
  run (cs ++ [c]) = Some h -> exists h0, run cs = Some h0 /\ step c h0 = Some h.
Proof.
  rewrite run_snoc. destruct (run cs) as [h0|]; simpl; [eauto|discriminate].
Qed.

Lemma declare_spec p name h r :
  declare p name h = Some r ->
  exists fs,
    schemas h !! p = Some fs
    /\ schemas r.2 = <[p := fs ++ [mkParam name "" "" [] None ""]]> (schemas h)
    /\ builders r.2
       = builders h ++ [{| param := mkParam name "" "" [] None ""; parent := p |}].
Proof.
  unfold declare. destruct (schemas h !! p) as [fs|]; simpl; [|discriminate].
  intros [= <-]. eauto.
Qed.

(** The names in a schema are the names declared on it, in order. *)
Lemma run_names cs h p :
  run cs = Some h ->
  match schemas h !! p with
  | Some fs => map Name fs = declared p cs
  | None => declared p cs = []
  end.
Proof.
  revert h. induction cs as [|c cs IH] using rev_ind; intros h Hrun.
  - injection Hrun as <-. reflexivity.
  - apply run_snoc_Some in Hrun as (h0 & Hrun & Hstep).
    specialize (IH h0 Hrun). rewrite declared_snoc.
    pose proof (step_setter _ _ _ Hstep) as Hset.
    destruct c; simpl in Hstep;
      try (destruct Hset as (fb & fs & q & Hb & Hfs & -> & _ & Hq); simpl;
           rewrite app_nil_r;
           destruct (decide (parent fb = p)) as [<-|Hne];
           [ rewrite list_lookup_insert_eq by (by eapply lookup_lt_Some);
             rewrite Hfs in IH; by rewrite overwrite_names
           | by rewrite list_lookup_insert_ne ]).
    + injection Hstep as <-. simpl. rewrite app_nil_r.
      destruct (decide (p < length (schemas h0))%nat) as [Hlt|Hge].
      * rewrite lookup_app_l by done. exact IH.
      * rewrite lookup_ge_None_2 in IH by lia.
        rewrite lookup_app_r by lia.
        destruct (p - length (schemas h0))%nat as [|n]; simpl; by rewrite IH.
    + destruct (Requires p0 name h0) as [r|] eqn:Hd; simpl in Hstep; [|discriminate].
      injection Hstep as <-.
      apply declare_spec in Hd as (fs & Hfs & -> & _). simpl.
      destruct (decide (p0 = p)) as [->|Hne].
      * rewrite list_lookup_insert_eq by (by eapply lookup_lt_Some).
        rewrite Hfs in IH. by rewrite map_app, IH.
      * rewrite list_lookup_insert_ne by done. by rewrite app_nil_r.
    + destruct (Optional p0 name h0) as [r|] eqn:Hd; simpl in Hstep; [|discriminate].
      injection Hstep as <-.
      apply declare_spec in Hd as (fs & Hfs & -> & _). simpl.
      destruct (decide (p0 = p)) as [->|Hne].
      * rewrite list_lookup_insert_eq by (by eapply lookup_lt_Some).
        rewrite Hfs in IH. by rewrite map_app, IH.
      * rewrite list_lookup_insert_ne by done. by rewrite app_nil_r.
Qed.

Lemma declare_inv p name h r cs :
  run cs = Some h ->
  NoDup (declared p cs ++ [name]) ->
  builder_inv h ->
  declare p name h = Some r ->
  builder_inv r.2.
Proof.
  intros Hrun Hnd [I1 I2] Hd.
  apply declare_spec in Hd as (fs0 & Hfs0 & Hs & Hb).
  assert (Hfresh : forall fb b, builders h !! b = Some fb -> parent fb = p ->
                                Name (param fb) ≠ name).
  { intros fb b Hfb Hp Hname. destruct (I1 _ _ Hfb) as (fs & Hfs & Hin).
    rewrite Hp, Hfs0 in Hfs. injection Hfs as <-.
    pose proof (run_names cs h p Hrun) as Hn. rewrite Hfs0 in Hn.
    apply NoDup_app in Hnd as (_ & Hdisj & _).
    apply (Hdisj name); [|apply list_elem_of_here].
    rewrite <- Hn, <- Hname. by apply list_elem_of_fmap_2. }
  split.
  - intros b fb. rewrite Hb, Hs. intros Hlk.
    apply lookup_app_Some in Hlk as [Hold|[Hlen Hnew]].
    + destruct (I1 _ _ Hold) as (fs & Hfs & Hin).
      destruct (decide (p = parent fb)) as [->|Hne].
      * rewrite list_lookup_insert_eq by (by eapply lookup_lt_Some).
        rewrite Hfs0 in Hfs. injection Hfs as <-.
        eexists. split; [done|]. apply elem_of_app. by left.
      * rewrite list_lookup_insert_ne by done. eauto.
    + apply list_lookup_singleton_Some in Hnew as [_ <-]. simpl.
      rewrite list_lookup_insert_eq by (by eapply lookup_lt_Some).
      eexists. split; [done|]. apply elem_of_app. right. apply list_elem_of_here.
  - intros b1 b2 fb1 fb2. rewrite Hb. intros H1 H2 Hp Hn.
    apply lookup_app_Some in H1 as [H1|[Hlen1 H1]];
      apply lookup_app_Some in H2 as [H2|[Hlen2 H2]].
    + eauto.
    + apply list_lookup_singleton_Some in H2 as [_ <-]. simpl in *.
      exfalso. eapply Hfresh; eauto.
    + apply list_lookup_singleton_Some in H1 as [_ <-]. simpl in *.
      exfalso. eapply Hfresh; eauto.
    + apply list_lookup_singleton_Some in H1 as [? _].
      apply list_lookup_singleton_Some in H2 as [? _]. lia.
Qed.

Lemma setter_inv h h' b fb fs q :
  builder_inv h ->
  builders h !! b = Some fb ->
  schemas h !! parent fb = Some fs ->
  schemas h' = <[parent fb := overwrite q fs]> (schemas h) ->
  builders h' = <[b := {| param := q; parent := parent fb |}]> (builders h) ->
  Name q = Name (param fb) ->
  builder_inv h'.
Proof.
  intros [I1 I2] Hb Hfs Hs Hbs Hq.
  assert (Hlt : (b < length (builders h))%nat) by (by eapply lookup_lt_Some).
  assert (Hplt : (parent fb < length (schemas h))%nat) by (by eapply lookup_lt_Some).
  assert (Hold : forall b' fb', builders h' !! b' = Some fb' ->
            exists fb0, builders h !! b' = Some fb0 /\ parent fb' = parent fb0
                        /\ Name (param fb') = Name (param fb0)
                        /\ (b' = b -> param fb' = q) /\ (b' ≠ b -> fb' = fb0)).
  { intros b' fb'. rewrite Hbs. destruct (decide (b' = b)) as [->|Hne].
    - rewrite list_lookup_insert_eq by done. intros [= <-]. exists fb. simpl. tauto.
    - rewrite list_lookup_insert_ne by done. intros H. exists fb'. tauto. }
  split.
  - intros b' fb' Hb'. destruct (Hold _ _ Hb') as (fb0 & Hb0 & Hp & Hn & Heq & Hneq).
    rewrite Hs, Hp. destruct (I1 _ _ Hb0) as (fs0 & Hfs0 & Hin0).
    destruct (decide (parent fb = parent fb0)) as [Hpp|Hpp].
    + rewrite <- Hpp, list_lookup_insert_eq by done. eexists. split; [done|].
      rewrite <- Hpp, Hfs in Hfs0. injection Hfs0 as <-.
      destruct (decide (b' = b)) as [->|Hne].
      * rewrite (Heq eq_refl). apply overwrite_self.
        rewrite Hq. rewrite Hb in Hb0. injection Hb0 as <-.
        by apply list_elem_of_fmap_2.
      * rewrite (Hneq Hne). apply overwrite_other; [done|].
        intros Hname. apply Hne. eapply (I2 b' b); eauto. congruence.
    + rewrite list_lookup_insert_ne by done. exists fs0. split; [done|].
      destruct (decide (b' = b)) as [->|Hne].
      * rewrite Hb in Hb0. injection Hb0 as <-. done.
      * by rewrite (Hneq Hne).
  - intros b1 b2 fb1 fb2 H1 H2 Hp Hn.
    destruct (Hold _ _ H1) as (g1 & Hg1 & Hp1 & Hn1 & _).
    destruct (Hold _ _ H2) as (g2 & Hg2 & Hp2 & Hn2 & _).
    eapply I2; eauto; congruence.
Qed.

Lemma run_inv cs h :
  run cs = Some h -> (forall p, NoDup (declared p cs)) -> builder_inv h.
Proof.
  revert h. induction cs as [|c cs IH] using rev_ind; intros h Hrun Hnd.
  - injection Hrun as <-. split; intros *; simpl; by rewrite lookup_nil.
  - apply run_snoc_Some in Hrun as (h0 & Hrun & Hstep).
    assert (Hnd0 : forall p, NoDup (declared p cs)).
    { intros p. specialize (Hnd p). rewrite declared_snoc in Hnd.
      by apply NoDup_app in Hnd as [? _]. }
    specialize (IH h0 Hrun Hnd0).
    pose proof (step_setter _ _ _ Hstep) as Hset.
    destruct c; simpl in Hstep;
      try (destruct Hset as (fb & fs & q & Hb & Hfs & Hs & Hbs & Hq);
           eapply setter_inv; eauto; fail).
    + injection Hstep as <-. destruct IH as [I1 I2]. split; simpl.
      * intros b fb Hb. destruct (I1 _ _ Hb) as (fs & Hfs & Hin).
        exists fs. split; [|done]. rewrite lookup_app_l; [done|].
        by eapply lookup_lt_Some.
      * exact I2.
    + destruct (Requires p name h0) as [r|] eqn:Hd; simpl in Hstep; [|discriminate].
      injection Hstep as <-. eapply declare_inv; eauto.
      specialize (Hnd p). rewrite declared_snoc in Hnd. simpl in Hnd.
      by rewrite decide_True in Hnd.
    + destruct (Optional p name h0) as [r|] eqn:Hd; simpl in Hstep; [|discriminate].
      injection Hstep as <-. eapply declare_inv; eauto.
      specialize (Hnd p). rewrite declared_snoc in Hnd. simpl in Hnd.
      by rewrite decide_True in Hnd.
Qed.

(** C5 (as amended) — names in a schema built by any sequence of builder
    calls.  [Requires] and [Optional] always append and a chained setter
    only overwrites in place, so the names in the field list of a schema
    are the names declared on it, one per declaration and in the order of
    the calls, a name declared twice appearing twice.  When no name is
    declared twice on any schema, the names of each field list are unique
    and the descriptor a builder holds is the one in the field list of its
    schema. *)
Theorem builder_names_are_declarations (cs : list call) (h : heap) :
  run cs = Some h ->
  (forall p fs, schemas h !! p = Some fs -> map Name fs = declared p cs)
  /\ ((forall p, NoDup (declared p cs)) ->
      forall b fb, builders h !! b = Some fb ->
        exists fs, schemas h !! parent fb = Some fs
                   /\ NoDup (map Name fs) /\ param fb ∈ fs).
Proof.
  intros Hrun. split.
  - intros p fs Hfs. pose proof (run_names cs h p Hrun) as H. by rewrite Hfs in H.
  - intros Hnd b fb Hb.
    destruct (run_inv cs h Hrun Hnd) as [I1 _].
    destruct (I1 _ _ Hb) as (fs & Hfs & Hin). exists fs. repeat split; try done.
    pose proof (run_names cs h (parent fb) Hrun) as H. rewrite Hfs in H.
    rewrite H. apply Hnd.
Qed.

End BuilderProperties.

Lemma builder_names_are_declarations_witness :
  Builder.run declared_once = Some heap_once
  /\ map Name fields_once = Builder.declared 0 declared_once.
Proof.
  split; [reflexivity|].
  exact (proj1 (builder_names_are_declarations declared_once heap_once eq_refl)
           0%nat fields_once eq_refl).
Defined.

(** C5 as stated fails on the code: declaring the field [a] a second time
    leaves two descriptors named [a] in the field list (and the setter
    chained to the second declaration overwrites the first descriptor). *)
Lemma builder_names_counterexample :
  Builder.run declared_twice = Some heap_twice
  /\ Builder.schemas heap_twice
     = [[ mkParam "a" Ty.Integer "" [] None ""; mkParam "a" "" "" [] None "" ]]
  /\ ~ NoDup (map Name (mkParam "a" Ty.Integer "" [] (None : option nat) ""
                        :: [mkParam "a" "" "" [] None ""])).
Proof.
  split; [reflexivity|]. split; [reflexivity|].
  simpl. intros H. apply NoDup_cons in H as [H _]. apply H, list_elem_of_here.
Qed.


(** ** The presenter *)

Section PresenterProperties.

Import Presenter.

Lemma Present_eq (p : Entity) (obj : gval) (options : list H) :
  Present p obj options =
  match obj with
  | GNil => Some ∅
  | _ => loop (presentStep obj (firstOption options)) (Fields p) ∅
  end.
Proof. destruct p, obj; reflexivity. Qed.

Lemma loop_app {A S} (step : A -> S -> option S) (l1 l2 : list A) (s : S) :
  loop step (l1 ++ l2) s = (s' ← loop step l1 s; loop step l2 s').
Proof.
  revert s. induction l1 as [|a l1 IH]; intros s; simpl; [done|].
  destruct (step a s); simpl; auto.
Qed.




End PresenterProperties.



(** ** [ToModel] *)

Section ModelProperties.

Variable E : External.

Lemma assign_fname val f : fname (assign E val f) = fname f.
Proof. unfold assign. repeat case_match; reflexivity. Qed.

Lemma assign_fexported val f : fexported (assign E val f) = fexported f.
Proof. unfold assign. repeat case_match; reflexivity. Qed.

Lemma copied_fname i fields f : fname (copied E i fields f) = fname f.
Proof. unfold copied. repeat case_match; auto using assign_fname. Qed.

Lemma copied_fexported i fields f : fexported (copied E i fields f) = fexported f.
Proof. unfold copied. repeat case_match; auto using assign_fexported. Qed.

Lemma filter_map_names (g : field gval -> field gval) k (fields : list (field gval)) :
  (forall f, fname (g f) = fname f) ->
  filter (fun f => stringsEqualFold (fname f) k = true) (map g fields)
  = map g (filter (fun f => stringsEqualFold (fname f) k = true) fields).
Proof.
  intros Hg. induction fields as [|f fields IH]; [done|].
  simpl. rewrite !filter_cons, Hg. case_decide; simpl; by rewrite IH.
Qed.

Lemma stringsEqualFold_spec n k : stringsEqualFold n k = true <-> toSnakeCase n = k.
Proof. unfold stringsEqualFold. apply String.eqb_eq. Qed.

Lemma setField_copied (m : Input) fields k x :
  m !! k = None ->
  setField E k x (GStruct (map (copied E m fields) fields))
  = Some (GStruct (map (copied E (<[k := x]> m) fields) fields)).
Proof.
  intros Hk. unfold setField.
  rewrite filter_map_names by (intros; apply copied_fname).
  assert (Hother : forall f, toSnakeCase (fname f) ≠ k ->
                     copied E (<[k := x]> m) fields f = copied E m fields f).
  { intros f Hne. unfold copied. by rewrite lookup_insert_ne. }
  assert (Hsame : forall f, toSnakeCase (fname f) = k -> copied E m fields f = f).
  { intros f Heq. unfold copied. by rewrite Heq, Hk. }
  assert (Hnew : forall f, toSnakeCase (fname f) = k ->
            copied E (<[k := x]> m) fields f
            = if sole fields f && fexported f && negb (is_nil x) then assign E x f else f).
  { intros f Heq. unfold copied. by rewrite Heq, lookup_insert_eq. }
  assert (Hkeep : (forall f, f ∈ fields -> toSnakeCase (fname f) = k ->
                     sole fields f && fexported f && negb (is_nil x) = false) ->
                  map (copied E m fields) fields
                  = map (copied E (<[k := x]> m) fields) fields).
  { intros Hno. apply map_ext_in. intros f Hin. apply list_elem_of_In in Hin.
    destruct (decide (toSnakeCase (fname f) = k)) as [Heq|Hne].
    - by rewrite Hnew, Hsame, Hno.
    - by rewrite Hother. }
  destruct (filter _ fields) as [|found [|found' rest]] eqn:Hfilter; simpl.
  - f_equal. f_equal. apply Hkeep. intros f Hin Heq.
    unfold sole. rewrite Heq, Hfilter. reflexivity.
  - assert (Huniq : forall f, f ∈ fields -> toSnakeCase (fname f) = k -> f = found).
    { intros f Hin Heq.
      assert (f ∈ filter (fun f => stringsEqualFold (fname f) k = true) fields) as Hf.
      { apply list_elem_of_filter. split; [by apply stringsEqualFold_spec|done]. }
      rewrite Hfilter in Hf. by apply list_elem_of_singleton in Hf. }
    assert (Hsole : forall f, f ∈ fields -> toSnakeCase (fname f) = k ->
                      sole fields f = true).
    { intros f Hin Heq. unfold sole. by rewrite Heq, Hfilter. }
    rewrite copied_fexported.
    destruct (fexported found) eqn:Hexp; simpl.
    + destruct (is_nil x) eqn:Hnil.
      * destruct x; try discriminate. f_equal. f_equal. apply Hkeep.
        intros f Hin Heq. by rewrite andb_false_r.
      * assert (Some (GStruct (map (fun f => if stringsEqualFold (fname f) k
                                            then assign E x f else f)
                                  (map (copied E m fields) fields)))
                = Some (GStruct (map (copied E (<[k:=x]> m) fields) fields))) as Hgoal.
        { f_equal. f_equal. rewrite map_map. apply map_ext_in.
          intros f Hin. apply list_elem_of_In in Hin. rewrite copied_fname.
          destruct (stringsEqualFold (fname f) k) eqn:Hm.
          - apply stringsEqualFold_spec in Hm.
            rewrite Hnew, Hsame, (Hsole f), (Huniq f), Hexp by done. reflexivity.
          - rewrite Hother; [done|]. intros Heq.
            apply stringsEqualFold_spec in Heq. congruence. }
        destruct x; try discriminate; exact Hgoal.
    + f_equal. f_equal. apply Hkeep. intros f Hin Heq.
      rewrite (Huniq f Hin Heq), Hexp. by rewrite andb_false_r.
  - f_equal. f_equal. apply Hkeep. intros f Hin Heq.
    unfold sole. rewrite Heq, Hfilter. reflexivity.
Qed.

Lemma AssignableTo_ConvertibleTo V T :
  AssignableTo V T = true -> ConvertibleTo V T = true.
Proof. unfold ConvertibleTo. by intros ->. Qed.

Lemma map_copied_empty fields : map (copied E ∅ fields) fields = fields.
Proof.
  rewrite <- (map_id fields) at 3. apply map_ext. intros f.
  unfold copied. by rewrite lookup_empty.
Qed.

Lemma ToModel_struct (i : Input) fields :
  ToModel E i (GPtr (Some (GStruct fields)))
  = Some (GStruct (map (copied E i fields) fields)).
Proof.
  unfold ToModel.
  apply (map_fold_weak_ind
           (fun (r : option gval) (m : Input) =>
              r = Some (GStruct (map (copied E m fields) fields)))).
  - by rewrite map_copied_empty.
  - intros k x m r Hk ->. simpl. by apply setField_copied.
Qed.

Lemma ToModel_non_struct (i : Input) v :
  is_struct v = false ->
  (i = ∅ -> ToModel E i (GPtr (Some v)) = Some v)
  /\ (i ≠ ∅ -> ToModel E i (GPtr (Some v)) = None).
Proof.
  intros Hv. unfold ToModel.
  apply (map_fold_weak_ind
           (fun (r : option gval) (m : Input) =>
              (m = ∅ -> r = Some v) /\ (m ≠ ∅ -> r = None))).
  - split; [done|]. intros H. by destruct H.
  - intros k x m r Hk [H1 H2]. split.
    + intros H. by apply insert_non_empty in H.
    + intros _. destruct (decide (m = ∅)) as [Hm|Hm].
      * rewrite (H1 Hm). simpl. by destruct v.
      * by rewrite (H2 Hm).
Qed.

(** What [ToModel] does, does not depend on the order in which [range]
    yields the entries of the input. *)
Lemma ToModel_any_order (i : Input) (dst : gval) (order : list (string * value)) :
  order ≡ₚ map_to_list i -> ToModelIn E order dst = ToModel E i dst.
Proof.
  intros Hperm.
  assert (Hnd : NoDup (order.*1)) by (rewrite Hperm; apply NoDup_fst_map_to_list).
  assert (Hi : list_to_map order = i).
  { rewrite <- (list_to_map_to_list i). by apply list_to_map_proper. }
  destruct dst as [| | | | |[v|]| | |]; try reflexivity.
  destruct (is_struct v) eqn:Hv.
  - destruct v; try discriminate. rewrite ToModel_struct, <- Hi. clear Hi Hperm.
    unfold ToModelIn. induction order as [|[k x] order IH] using rev_ind.
    + simpl. by rewrite map_copied_empty.
    + rewrite fmap_app in Hnd. apply NoDup_app in Hnd as (Hnd & Hk & _).
      rewrite foldl_app, IH by done. simpl.
      rewrite list_to_map_snoc.
      * apply setField_copied. apply not_elem_of_list_to_map_1.
        intros Hin. apply (Hk k Hin). apply list_elem_of_here.
      * intros Hin. apply (Hk k Hin). apply list_elem_of_here.
  - destruct (ToModel_non_struct i v Hv) as [H1 H2].
    destruct order as [|[k x] order].
    + simpl in Hi. rewrite H1 by done. reflexivity.
    + rewrite H2 by (rewrite <- Hi; apply insert_non_empty).
      unfold ToModelIn. simpl.
      replace (setField E k x v) with (@None gval) by (by destruct v).
      clear. induction order as [|kv order IH]; [done|exact IH].
Qed.

(** C8 (as amended) — [ToModel].  The call panics exactly when the
    destination is not a non-nil pointer, or is a non-nil pointer to
    something that is not a record while the input has an entry (with an
    empty input such a destination is left as it is, without a panic).  On
    a non-nil pointer to a record it never panics and leaves the record
    with every field [copied]: a field is written from the entry under the
    snake-case form of its name when it is the only field with that form,
    is exported, the entry is not nil, and the type of the entry is
    assignable or convertible to the type of the field; every other field
    is unchanged. *)
Theorem ToModel_copies (i : Input) (dst : gval) :
  (ToModel E i dst = None <->
   (forall v, dst ≠ GPtr (Some v))
   \/ (exists v, dst = GPtr (Some v) /\ is_struct v = false /\ i ≠ ∅))
  /\ (forall fields, dst = GPtr (Some (GStruct fields)) ->
       ToModel E i dst = Some (GStruct (map (copied E i fields) fields))
       /\ forall f, f ∈ fields ->
            (fexported f = false -> copied E i fields f = f)
            /\ (i !! toSnakeCase (fname f) = None -> copied E i fields f = f)
            /\ (i !! toSnakeCase (fname f) = Some VNil -> copied E i fields f = f)
            /\ (forall val, i !! toSnakeCase (fname f) = Some val ->
                  ConvertibleTo (TypeOf val) (ftype f) = false ->
                  copied E i fields f = f)
            /\ (forall val, i !! toSnakeCase (fname f) = Some val ->
                  sole fields f = true -> fexported f = true -> is_nil val = false ->
                  ConvertibleTo (TypeOf val) (ftype f) = true ->
                  copied E i fields f
                  = mkField (fname f) true (ftype f)
                      (if AssignableTo (TypeOf val) (ftype f) then of_value val
                       else Convert E val (ftype f)))).
Proof.
  split.
  - destruct dst as [| | | | |[v|]| | |];
      try (split; [intros _; left; intros; discriminate|reflexivity]).
    destruct (is_struct v) eqn:Hv.
    + destruct v; try discriminate. rewrite ToModel_struct. split; [discriminate|].
      intros [H|(v & [= <-] & Hs & _)]; [by destruct (H (GStruct fields))|discriminate].
    + destruct (ToModel_non_struct i v Hv) as [H1 H2].
      destruct (decide (i = ∅)) as [Hi|Hi].
      * rewrite (H1 Hi). split; [discriminate|].
        intros [H|(v' & _ & _ & Hi')]; [by destruct (H v)|done].
      * rewrite (H2 Hi). split; [|done]. intros _. right. eauto.
  - intros fields ->. split; [apply ToModel_struct|].
    intros f Hin. unfold copied, assign. repeat split.
    + intros ->. destruct (i !! _); [|done]. by rewrite andb_false_r.
    + by intros ->.
    + intros ->. simpl. by rewrite andb_false_r.
    + intros val -> Hconv. rewrite Hconv.
      destruct (AssignableTo (TypeOf val) (ftype f)) eqn:Ha.
      * apply AssignableTo_ConvertibleTo in Ha. congruence.
      * by destruct (_ && _).
    + intros val -> -> Hexp -> Hconv. rewrite Hexp, Hconv. simpl.
      by destruct (AssignableTo (TypeOf val) (ftype f)).
Qed.


End ModelProperties.

Example toSnakeCase_tests :
  toSnakeCase "Name" = "name" /\ toSnakeCase "FirstName" = "first_name"
  /\ toSnakeCase "UserID" = "user_id" /\ toSnakeCase "IsActive" = "is_active"
  /\ toSnakeCase "XMLHttpRequest" = "xmlhttp_request" /\ toSnakeCase "" = ""
  /\ toSnakeCase "A" = "a" /\ toSnakeCase "AB" = "ab" /\ toSnakeCase "ABC" = "abc".
Proof. repeat split; reflexivity. Qed.

Lemma ToModel_copies_witness :
  ToModel env user_input (GPtr (Some (GStruct user_fields)))
  = Some (GStruct (map (copied env user_input user_fields) user_fields))
  /\ map (copied env user_input user_fields) user_fields = user_fields_after.
Proof.
  split; [|vm_compute; reflexivity].
  exact (proj1 (proj2 (ToModel_copies env user_input (GPtr (Some (GStruct user_fields))))
                  user_fields eq_refl)).
Defined.

(** C8 as stated fails on the code: with an empty input the call does not
    panic on a pointer to an [int], which is not a record; and an entry is
    not copied when two fields of the record convert to its key. *)
Lemma ToModel_copies_counterexample :
  (is_struct (GInt 3) = false
   /\ ToModel env ∅ (GPtr (Some (GInt 3))) = Some (GInt 3))
  /\ (toSnakeCase "UserID" = "user_id" /\ toSnakeCase "UserId" = "user_id"
      /\ ToModel env {[ "user_id" := VInt 7 ]} (GPtr (Some (GStruct twin_fields)))
         = Some (GStruct twin_fields)).
Proof. repeat split; vm_compute; reflexivity. Qed.

(** * Further properties *)

(** ** The binder *)

Section BinderFurther.

Variable E : External.

Lemma bindFields_keys raw mode fs (o0 o1 : Input) k :
  forEach (bindField E raw mode) fs o0 = Ok o1 ->
  is_Some (o1 !! k) -> is_Some (o0 !! k) \/ is_Some (raw !! k).
Proof.
  intros H Hk. destruct (raw !! k) as [v|] eqn:Hraw; [right; eauto|].
  left. by rewrite <- (bindFields_absent E _ _ _ _ _ _ Hraw H).
Qed.

Lemma bindFields_dom raw mode fs (o : Input) :
  forEach (bindField E raw mode) fs ∅ = Ok o ->
  dom (passthrough raw o) = dom raw.
Proof.
  intros Hloop. rewrite passthrough_union, dom_union_L.
  apply set_eq. intros k. rewrite elem_of_union, !elem_of_dom. split; [|auto].
  intros [Hk|Hk]; [|done].
  destruct (bindFields_keys _ _ _ _ _ _ Hloop Hk) as [H0|H0]; [|done].
  rewrite lookup_empty in H0. by destruct H0.
Qed.

Lemma BindAndValidate_ok (p : Params) (raw out : Input) (mode : string) err :
  BindAndValidate E p raw mode = Returns (Some out, err) ->
  exists o, forEach (bindField E raw mode) (Fields p) ∅ = Ok o
            /\ out = passthrough raw o /\ err = None.
Proof.
  unfold BindAndValidate, bindFields.
  destruct (forEach (bindField E raw mode) (Fields p) ∅) as [o| |]; try discriminate.
  intros [= <- <-]. eauto.
Qed.

(** X1 — the keys of the output.  When [BindAndValidate] returns an
    output, it has exactly the keys of the raw map: a declared field that
    is absent is not added, and no key of the input is dropped. *)
Theorem BindAndValidate_dom (p : Params) (raw out : Input) (mode : string)
    (err : option error) :
  BindAndValidate E p raw mode = Returns (Some out, err) ->
  dom out = dom raw.
Proof.
  intros H. apply BindAndValidate_ok in H as (o & Hloop & -> & _).
  by eapply bindFields_dom.
Qed.

Lemma validated_ok {S A} (f : Param S) v (k : outcome A) a :
  validated E f v k = Ok a ->
  k = Ok a /\ (Validate f ≠ "" -> validate_Var E v (Validate f) = VarOk).
Proof.
  unfold validated. destruct (String.eqb_spec (Validate f) "") as [Heq|Hne].
  - intros ->. split; [done|]. by intros [].
  - destruct (validate_Var E v (Validate f)); try discriminate. auto.
Qed.

Lemma collect_ok {A B} (g : A -> outcome B) (l : list A) bs :
  collect g l = Ok bs -> Forall2 (fun a b => g a = Ok b) l bs.
Proof.
  revert bs. induction l as [|a l IH]; simpl; intros bs H.
  - injection H as <-. constructor.
  - destruct (g a) as [b| |] eqn:Hg; simpl in H; try discriminate.
    destruct (collect g l) as [bs'| |]; simpl in H; try discriminate.
    injection H as <-. constructor; auto.
Qed.

Lemma bindValue_conforms f v mode w :
  bindValue E f v mode = Ok w -> conforms (Type_ f) w = true.
Proof.
  unfold bindValue, bindString, nestedJSON, conforms. intros H.
  repeat match type of H with
         | (if ?c then _ else _) = _ => destruct c
         | match ?v with _ => _ end = _ => destruct v eqn:?
         | validated _ _ _ _ = Ok _ => apply validated_ok in H; destruct H as [H _]
         end;
    try discriminate; try (injection H as <-); try reflexivity.
  all: match type of H with
       | (?c ≫= _) = _ => destruct c as [arr| |] eqn:Hc; simpl in H; try discriminate
       end.
  all: by injection H as <-.
Qed.

Lemma bindValue_ruled f v mode w arg :
  bindValue E f v mode = Ok w ->
  Validate f ≠ "" ->
  ruled E f v = Some arg ->
  validate_Var E arg (Validate f) = VarOk.
Proof.
  unfold bindValue, bindString, ruled. intros H Htag Harg.
  destruct (String.eqb (Type_ f) Ty.String) eqn:H1; simpl in Harg.
  { destruct v; try discriminate. injection Harg as <-.
    apply validated_ok in H as [_ H]. auto. }
  destruct (String.eqb (Type_ f) Ty.Integer) eqn:H2.
  { apply String.eqb_eq in H2. rewrite H2 in Harg. simpl in Harg.
    destruct v; try discriminate. injection Harg as <-.
    apply validated_ok in H as [_ H]. auto. }
  destruct (String.eqb (Type_ f) Ty.Float) eqn:H3.
  { apply String.eqb_eq in H3. rewrite H3 in Harg. simpl in Harg.
    destruct v; try discriminate. injection Harg as <-.
    apply validated_ok in H as [_ H]. auto. }
  destruct (String.eqb (Type_ f) Ty.BigDecimal) eqn:H4.
  { apply String.eqb_eq in H4. rewrite H4 in Harg. simpl in Harg.
    destruct v; try discriminate. injection Harg as <-.
    apply validated_ok in H as [_ H]. auto. }
  destruct (String.eqb (Type_ f) Ty.Numeric) eqn:H5.
  { apply String.eqb_eq in H5. rewrite H5 in Harg. simpl in Harg.
    destruct v; try discriminate; injection Harg as <-;
      apply validated_ok in H as [_ H]; auto. }
  destruct (String.eqb (Type_ f) Ty.Date) eqn:H6.
  { simpl in Harg. destruct v; try discriminate. injection Harg as <-.
    apply validated_ok in H as [_ H]. auto. }
  destruct (String.eqb (Type_ f) Ty.DateTime) eqn:H7.
  { simpl in Harg. destruct v; try discriminate. injection Harg as <-.
    apply validated_ok in H as [_ H]. auto. }
  destruct (String.eqb (Type_ f) Ty.Time) eqn:H8.
  { simpl in Harg. destruct v; try discriminate. injection Harg as <-.
    apply validated_ok in H as [_ H]. auto. }
  simpl in Harg. discriminate.
Qed.

Lemma forEach_ok_split {A S} (step : A -> S -> outcome S) pre a post (s s' : S) :
  forEach step (pre ++ a :: post) s = Ok s' ->
  exists s1 s2, forEach step pre s = Ok s1 /\ step a s1 = Ok s2
                /\ forEach step post s2 = Ok s'.
Proof.
  rewrite forEach_app. destruct (forEach step pre s) as [s1| |]; simpl; try discriminate.
  destruct (step a s1) as [s2| |] eqn:Ha; simpl; try discriminate.
  intros H. eauto.
Qed.

Lemma bindFields_value raw mode pre post f v (o : Input) :
  forEach (bindField E raw mode) (pre ++ f :: post) ∅ = Ok o ->
  Forall (fun g => Name g ≠ Name f) post ->
  raw !! Name f = Some v ->
  exists w, o !! Name f = Some w /\ bindValue E f v mode = Ok w.
Proof.
  intros Hloop Hpost Hv.
  apply forEach_ok_split in Hloop as (o1 & o2 & _ & Hf & Hrest).
  unfold bindField in Hf. rewrite Hv in Hf.
  destruct (bindValue E f v mode) as [w| |] eqn:Hw; simpl in Hf; try discriminate.
  injection Hf as <-. exists w. split; [|done].
  rewrite (bindFields_other_key E _ _ _ _ _ _ Hrest Hpost).
  by rewrite lookup_insert_eq.
Qed.

(** X2 — the value bound for a field.  When [BindAndValidate] returns an
    output, a field present in the input and followed by no field of the
    same name is in the output with the value the type switch gives for
    it, and this value has the dynamic type of the declared type: a string
    for text, dates, times and decimals, an [int] for an integer, a float64
    for a float, a bool for a boolean, a slice for an array. *)
Theorem BindAndValidate_bound_value (p : Params) (raw out : Input) (mode : string)
    (err : option error) (pre post : list (Param Params)) (f : Param Params)
    (v : value) :
  BindAndValidate E p raw mode = Returns (Some out, err) ->
  Fields p = pre ++ f :: post ->
  Forall (fun g => Name g ≠ Name f) post ->
  raw !! Name f = Some v ->
  exists w, out !! Name f = Some w
            /\ bindValue E f v mode = Ok w
            /\ conforms (Type_ f) w = true.
Proof.
  intros H Hp Hpost Hv.
  apply BindAndValidate_ok in H as (o & Hloop & -> & _). rewrite Hp in Hloop.
  destruct (bindFields_value _ _ _ _ _ _ _ Hloop Hpost Hv) as (w & Ho & Hw).
  exists w. split; [|split; [done|by eapply bindValue_conforms]].
  by rewrite passthrough_lookup, Ho.
Qed.

(** X3 — rules of a successful call.  When [BindAndValidate] returns an
    output, every field of the schema that is present in the input and has
    a validation tag passed its rule, on the value [ruled] the code hands
    to the engine. *)
Theorem BindAndValidate_rules_passed (p : Params) (raw out : Input) (mode : string)
    (err : option error) (f : Param Params) (v arg : value) :
  BindAndValidate E p raw mode = Returns (Some out, err) ->
  f ∈ Fields p ->
  raw !! Name f = Some v ->
  Validate f ≠ "" ->
  ruled E f v = Some arg ->
  validate_Var E arg (Validate f) = VarOk.
Proof.
  intros H Hin Hv Htag Harg.
  apply BindAndValidate_ok in H as (o & Hloop & _ & _).
  apply list_elem_of_split in Hin as (pre & post & Hp). rewrite Hp in Hloop.
  apply forEach_ok_split in Hloop as (o1 & o2 & _ & Hf & _).
  unfold bindField in Hf. rewrite Hv in Hf.
  destruct (bindValue E f v mode) as [w| |] eqn:Hw; simpl in Hf; try discriminate.
  eapply bindValue_ruled; eauto.
Qed.

Lemma bindFields_required raw mode fs f (o0 o : Input) :
  forEach (bindField E raw mode) fs o0 = Ok o ->
  f ∈ fs ->
  isRequired f mode = true ->
  is_Some (raw !! Name f).
Proof.
  intros Hloop Hin Hreq.
  apply list_elem_of_split in Hin as (pre & post & ->).
  apply forEach_ok_split in Hloop as (o1 & o2 & _ & Hf & _).
  unfold bindField in Hf. destruct (raw !! Name f); [eauto|].
  by rewrite Hreq in Hf.
Qed.

(** X4 — required fields of a successful call.  When [BindAndValidate]
    returns an output, every field required on the mode is in the input
    and in the output. *)
Theorem BindAndValidate_required_present (p : Params) (raw out : Input)
    (mode : string) (err : option error) (f : Param Params) :
  BindAndValidate E p raw mode = Returns (Some out, err) ->
  f ∈ Fields p ->
  isRequired f mode = true ->
  is_Some (raw !! Name f) /\ is_Some (out !! Name f).
Proof.
  intros H Hin Hreq.
  apply BindAndValidate_ok in H as (o & Hloop & -> & _).
  assert (Hraw : is_Some (raw !! Name f)) by (by eapply bindFields_required).
  split; [done|].
  apply elem_of_dom. rewrite (bindFields_dom _ _ _ _ Hloop). by apply elem_of_dom.
Qed.

Lemma forEach_ext {A S} (step1 step2 : A -> S -> outcome S) (l : list A) (s : S) :
  Forall (fun a => forall s, step1 a s = step2 a s) l ->
  forEach step1 l s = forEach step2 l s.
Proof.
  revert s. induction l as [|a l IH]; intros s Hall; [done|].
  inversion Hall as [|? ? Ha Hl]; subst. simpl. rewrite Ha.
  destruct (step2 a s); simpl; auto.
Qed.

(** X5 — unknown keys do not interfere.  Adding to the input an entry
    whose key names no field of the schema changes nothing for the
    declared fields: the call fails with the same error or panics as
    before, and when it succeeded the output is the former output with the
    entry added. *)
Theorem BindAndValidate_unknown_key (p : Params) (raw : Input) (mode : string)
    (k : string) (v : value) :
  Forall (fun f => Name f ≠ k) (Fields p) ->
  BindAndValidate E p (<[k := v]> raw) mode =
  match BindAndValidate E p raw mode with
  | Returns (Some out, err) => Returns (Some (<[k := v]> out), err)
  | r => r
  end.
Proof.
  intros Hnames. unfold BindAndValidate, bindFields.
  rewrite (forEach_ext (bindField E (<[k:=v]> raw) mode) (bindField E raw mode)).
  - destruct (forEach (bindField E raw mode) (Fields p) ∅) as [o| |] eqn:Hloop;
      try reflexivity.
    do 2 f_equal. f_equal. rewrite !passthrough_union.
    apply map_eq. intros j.
    pose proof (bindFields_other_key E _ _ _ _ _ _ Hloop Hnames) as Hk.
    rewrite lookup_empty in Hk.
    destruct (decide (k = j)) as [<-|Hne].
    + by rewrite lookup_insert_eq, lookup_union, Hk, lookup_insert_eq.
    + by rewrite lookup_insert_ne, !lookup_union, lookup_insert_ne.
  - eapply Forall_impl; [exact Hnames|]. intros f Hf s. unfold bindField.
    by rewrite lookup_insert_ne.
Qed.

Lemma bindValue_rebind f v mode w :
  rebindable f = true ->
  bindValue E f v mode = Ok w ->
  bindValue E f w mode = Ok w.
Proof.
  unfold rebindable, bindValue, bindString. intros Hr H.
  destruct (String.eqb (Type_ f) Ty.String) eqn:H1.
  { destruct v; try discriminate. pose proof H as H'.
    apply validated_ok in H' as [[= <-] _]. exact H. }
  destruct (String.eqb (Type_ f) Ty.Integer) eqn:H2.
  { destruct v; try discriminate.
    - apply validated_ok in H as [[= <-] _]. reflexivity.
    - by injection H as <-. }
  destruct (String.eqb (Type_ f) Ty.Float) eqn:H3.
  { destruct v; try discriminate. pose proof H as H'.
    apply validated_ok in H' as [[= <-] _]. exact H. }
  destruct (String.eqb (Type_ f) Ty.BigDecimal) eqn:H4.
  { simpl in Hr. apply String.eqb_eq in H4.
    assert (Htag : String.eqb (Validate f) "" = true).
    { rewrite H4 in Hr. simpl in Hr. exact Hr. }
    destruct v; try discriminate.
    - injection H as <-. unfold validated. by rewrite Htag.
    - pose proof H as H'. apply validated_ok in H' as [[= <-] _]. exact H. }
  destruct (String.eqb (Type_ f) Ty.Numeric) eqn:H5.
  { destruct v; try discriminate; pose proof H as H';
      apply validated_ok in H' as [[= <-] _]; exact H. }
  destruct (String.eqb (Type_ f) Ty.Date) eqn:H6.
  { destruct v; try discriminate. pose proof H as H'.
    apply validated_ok in H' as [[= <-] _]. exact H. }
  destruct (String.eqb (Type_ f) Ty.DateTime) eqn:H7.
  { destruct v; try discriminate. pose proof H as H'.
    apply validated_ok in H' as [[= <-] _]. exact H. }
  destruct (String.eqb (Type_ f) Ty.Time) eqn:H8.
  { destruct v; try discriminate. pose proof H as H'.
    apply validated_ok in H' as [[= <-] _]. exact H. }
  destruct (String.eqb (Type_ f) Ty.Boolean) eqn:H9.
  { destruct v; try discriminate. by injection H as <-. }
  simpl in Hr. discriminate.
Qed.

Lemma rebind_loop (out : Input) mode fs (o0 : Input) :
  Forall (fun f => match out !! Name f with
                   | Some w => bindValue E f w mode = Ok w
                   | None => isRequired f mode = false
                   end) fs ->
  o0 ⊆ out ->
  exists o1, forEach (bindField E out mode) fs o0 = Ok o1 /\ o1 ⊆ out.
Proof.
  revert o0. induction fs as [|f fs IH]; intros o0 Hall Hsub; simpl.
  - eauto.
  - inversion Hall as [|? ? Hf Hfs]; subst.
    destruct (out !! Name f) as [w|] eqn:Hw.
    + assert (Hstep : bindField E out mode f o0 = Ok (<[Name f := w]> o0)).
      { unfold bindField. by rewrite Hw, Hf. }
      rewrite Hstep. simpl. apply IH; [done|]. by apply insert_subseteq_l.
    + assert (Hstep : bindField E out mode f o0 = Ok o0).
      { unfold bindField. by rewrite Hw, Hf. }
      rewrite Hstep. simpl. by apply IH.
Qed.

(** X6 — binding is idempotent on scalar schemas.  For a schema whose
    field names are distinct and whose fields are all [rebindable], an
    output [BindAndValidate] returned binds again, under the same mode, to
    itself. *)
Theorem BindAndValidate_idempotent (p : Params) (raw out : Input) (mode : string) :
  NoDup (map Name (Fields p)) ->
  Forall (fun f => rebindable f = true) (Fields p) ->
  BindAndValidate E p raw mode = Returns (Some out, None) ->
  BindAndValidate E p out mode = Returns (Some out, None).
Proof.
  intros Hnd Hscalar H.
  destruct (BindAndValidate_ok _ _ _ _ _ H) as (o & Hbound & Hout & _).
  assert (Hall : Forall (fun f => match out !! Name f with
                                  | Some w => bindValue E f w mode = Ok w
                                  | None => isRequired f mode = false
                                  end) (Fields p)).
  { apply Forall_forall. intros f Hin.
    destruct (raw !! Name f) as [v|] eqn:Hv.
    - destruct (list_elem_of_split _ _ Hin) as (pre & post & Hp).
      assert (Hpost : Forall (fun g => Name g ≠ Name f) post).
      { rewrite Hp, map_app in Hnd. simpl in Hnd.
        apply NoDup_app in Hnd as (_ & _ & Hnd). apply NoDup_cons in Hnd as [Hnd _].
        apply Forall_forall. intros g Hg Heq. apply Hnd. rewrite <- Heq.
        by apply list_elem_of_fmap_2. }
      rewrite Hp in Hbound.
      destruct (bindFields_value _ _ _ _ _ _ _ Hbound Hpost Hv) as (w & Ho & Hw).
      rewrite Hout, passthrough_lookup, Ho.
      eapply bindValue_rebind; eauto.
      rewrite Forall_forall in Hscalar. auto.
    - assert (Hnone : out !! Name f = None).
      { apply not_elem_of_dom. rewrite Hout, (bindFields_dom _ _ _ _ Hbound).
        by apply not_elem_of_dom. }
      rewrite Hnone. destruct (isRequired f mode) eqn:Hreq; [|done].
      destruct (bindFields_required _ _ _ _ _ _ Hbound Hin Hreq) as [? Hs].
      congruence. }
  destruct (rebind_loop out mode (Fields p) ∅ Hall (map_empty_subseteq _))
    as (o1 & Hloop & Hsub).
  unfold BindAndValidate, bindFields. rewrite Hloop. do 3 f_equal.
  rewrite passthrough_union. by apply map_subseteq_union.
Qed.

Lemma append_assoc (s1 s2 s3 : string) :
  ((s1 ++ s2) ++ s3 = s1 ++ (s2 ++ s3))%string.
Proof.
  induction s1 as [|c s1 IH]; [done|].
  change (String c ((s1 ++ s2) ++ s3) = String c (s1 ++ (s2 ++ s3)))%string.
  by rewrite IH.
Qed.

Lemma quoted_Contains (pre name rest : string) :
  Contains (pre ++ "'" ++ name ++ "'" ++ rest) ("'" ++ name ++ "'").
Proof. exists pre, rest. by rewrite !append_assoc. Qed.

Lemma Error_names_field (e : error) (name : string) :
  error_field e = Some name -> Contains (Error e) ("'" ++ name ++ "'").
Proof.
  destruct e as [n m|n w|n c|n|n|n c|m|m]; simpl; intros [= <-].
  - exact (quoted_Contains "missing required field " n (" for " ++ m)).
  - exact (quoted_Contains "field " n (" must be " ++ w)).
  - exact (quoted_Contains "field " n (" validation failed: " ++ Error c)).
  - exact (quoted_Contains "field " n " must be valid JSON").
  - exact (quoted_Contains "element in " n " must be object").
  - exact (quoted_Contains "element in " n (" validation failed: " ++ Error c)).
Qed.

(** X7 — an error names its field.  The message of every error
    [BindAndValidate] returns contains, between single quotes, the name
    of a field of the schema. *)
Theorem BindAndValidate_error_names_field (p : Params) (raw : Input)
    (mode : string) (out : option Input) (err : error) :
  BindAndValidate E p raw mode = Returns (out, Some err) ->
  exists f, f ∈ Fields p /\ Contains (Error err) ("'" ++ Name f ++ "'").
Proof.
  unfold BindAndValidate, bindFields. intros H.
  destruct (forEach (bindField E raw mode) (Fields p) ∅) as [o| |] eqn:Hloop;
    try discriminate.
  injection H as <- <-.
  apply forEach_fail in Hloop as (pre & f & post & s0 & Hp & _ & Hf).
  exists f. split.
  - rewrite Hp. apply elem_of_app. right. apply list_elem_of_here.
  - apply Error_names_field. by apply (bindField_fail E) in Hf as [? _].
Qed.

End BinderFurther.

Lemma BindAndValidate_dom_witness :
  BindAndValidate env test_schema test_raw "create" = Returns (Some test_out, None)
  /\ dom test_out = dom test_raw.
Proof.
  assert (H : BindAndValidate env test_schema test_raw "create"
              = Returns (Some test_out, None)) by (vm_compute; reflexivity).
  split; [exact H|].
  exact (BindAndValidate_dom env test_schema test_raw test_out "create" None H).
Defined.

Lemma BindAndValidate_bound_value_witness :
  BindAndValidate env test_schema test_raw "create" = Returns (Some test_out, None)
  /\ Fields test_schema
     = [mkParam "name" Ty.String "" [] None ""] ++ age_field
       :: [mkParam "email" Ty.String "" [] None ""]
  /\ test_raw !! Name age_field = Some (VFloat (S754_finite false 15 1))
  /\ exists w, test_out !! Name age_field = Some w
               /\ bindValue env age_field (VFloat (S754_finite false 15 1)) "create" = Ok w
               /\ conforms (Type_ age_field) w = true.
Proof.
  assert (H : BindAndValidate env test_schema test_raw "create"
              = Returns (Some test_out, None)) by (vm_compute; reflexivity).
  split; [exact H|]. split; [reflexivity|]. split; [reflexivity|].
  refine (BindAndValidate_bound_value env test_schema test_raw test_out "create" None
            [mkParam "name" Ty.String "" [] None ""]
            [mkParam "email" Ty.String "" [] None ""] age_field
            (VFloat (S754_finite false 15 1)) H eq_refl _ eq_refl).
  repeat constructor. simpl. discriminate.
Defined.

Lemma BindAndValidate_rules_passed_witness :
  BindAndValidate env (MkParams [age_ruled]) {[ "age" := VFloat f5_9 ]} "create"
  = Returns (Some {[ "age" := VInt 5 ]}, None)
  /\ ruled env age_ruled (VFloat f5_9) = Some (VInt 5)
  /\ validate_Var env (VInt 5) (Validate age_ruled) = VarOk.
Proof.
  assert (H : BindAndValidate env (MkParams [age_ruled]) {[ "age" := VFloat f5_9 ]} "create"
              = Returns (Some {[ "age" := VInt 5 ]}, None)) by (vm_compute; reflexivity).
  split; [exact H|]. split; [reflexivity|].
  refine (BindAndValidate_rules_passed env (MkParams [age_ruled])
            {[ "age" := VFloat f5_9 ]} {[ "age" := VInt 5 ]} "create" None
            age_ruled (VFloat f5_9) (VInt 5) H _ eq_refl _ eq_refl).
  - apply list_elem_of_here.
  - discriminate.
Defined.

Lemma BindAndValidate_required_present_witness :
  BindAndValidate env required_schema test_raw "create" = Returns (Some test_out, None)
  /\ isRequired name_field "create" = true
  /\ is_Some (test_raw !! Name name_field) /\ is_Some (test_out !! Name name_field).
Proof.
  assert (H : BindAndValidate env required_schema test_raw "create"
              = Returns (Some test_out, None)) by (vm_compute; reflexivity).
  split; [exact H|]. split; [reflexivity|].
  refine (BindAndValidate_required_present env required_schema test_raw test_out
            "create" None name_field H _ eq_refl).
  apply list_elem_of_here.
Defined.

Lemma BindAndValidate_unknown_key_witness :
  Forall (fun f : Param Params => Name f ≠ "debug") (Fields required_schema)
  /\ BindAndValidate env required_schema (<["debug" := VBool true]> age_only) "create"
     = Returns (None, Some (ErrMissingRequired "name" "create")).
Proof.
  assert (Hn : Forall (fun f : Param Params => Name f ≠ "debug") (Fields required_schema)).
  { repeat constructor; simpl; discriminate. }
  split; [exact Hn|].
  rewrite (BindAndValidate_unknown_key env required_schema age_only "create"
             "debug" (VBool true) Hn).
  reflexivity.
Defined.

Lemma BindAndValidate_idempotent_witness :
  NoDup (map Name (Fields test_schema))
  /\ Forall (fun f => rebindable f = true) (Fields test_schema)
  /\ BindAndValidate env test_schema test_raw "create" = Returns (Some test_out, None)
  /\ BindAndValidate env test_schema test_out "create" = Returns (Some test_out, None).
Proof.
  assert (H1 : NoDup (map Name (Fields test_schema))).
  { apply (bool_decide_unpack (NoDup (map Name (Fields test_schema)))).
    vm_compute. exact I. }
  assert (H2 : Forall (fun f => rebindable f = true) (Fields test_schema))
    by (repeat constructor).
  assert (H3 : BindAndValidate env test_schema test_raw "create"
               = Returns (Some test_out, None)) by (vm_compute; reflexivity).
  split; [exact H1|]. split; [exact H2|]. split; [exact H3|].
  exact (BindAndValidate_idempotent env test_schema test_raw test_out "create" H1 H2 H3).
Defined.

Lemma BindAndValidate_error_names_field_witness :
  BindAndValidate env age_first_schema age_thirty "create"
  = Returns (None, Some (ErrMustBe "age" "integer"))
  /\ exists f, f ∈ Fields age_first_schema
               /\ Contains (Error (ErrMustBe "age" "integer")) ("'" ++ Name f ++ "'").
Proof.
  assert (H : BindAndValidate env age_first_schema age_thirty "create"
              = Returns (None, Some (ErrMustBe "age" "integer")))
    by (vm_compute; reflexivity).
  split; [exact H|].
  exact (BindAndValidate_error_names_field env age_first_schema age_thirty "create"
           None (ErrMustBe "age" "integer") H).
Defined.

(** ** The typed accessors *)

Section AccessorProperties.

Variable E : External.

Lemma bound_lookup (p : Params) (raw out : Input) (mode : string) err
    (pre post : list (Param Params)) (f : Param Params) (v : value) :
  BindAndValidate E p raw mode = Returns (Some out, err) ->
  Fields p = pre ++ f :: post ->
  Forall (fun g => Name g ≠ Name f) post ->
  raw !! Name f = Some v ->
  exists w, out !! Name f = Some w /\ bindValue E f v mode = Ok w.
Proof.
  intros H Hp Hpost Hv.
  apply BindAndValidate_ok in H as (o & Hloop & -> & _). rewrite Hp in Hloop.
  destruct (bindFields_value E _ _ _ _ _ _ _ Hloop Hpost Hv) as (w & Ho & Hw).
  exists w. split; [|done]. by rewrite passthrough_lookup, Ho.
Qed.

Lemma bindString_ok f v what w :
  bindString E f v what = Ok w -> w = v /\ exists s, v = VString s.
Proof.
  unfold bindString. destruct v; try discriminate.
  intros H. apply validated_ok in H as [[= <-] _]. eauto.
Qed.

(** X8 — the typed accessors after a successful call.  When
    [BindAndValidate] returns an output without error, for a declared
    field that is present in the input and followed by no field of the
    same name, the accessor of the field's type reads the bound value,
    whatever default it is given: [String], [Date], [DateTime] and [Time]
    return the input string; [Float] and [Boolean] return the input
    float64 and bool; [Integer] returns the input [int], or the conversion
    of the input float64; [BigDecimal] returns the input string, or the
    input float64 printed with ten decimals.  [Numeric] returns the input
    float64; for a field bound to a string it returns what [parseFloat]
    reads in the string, and its default when [parseFloat] fails on it:
    this is the one case in which an accessor answers a bound field with
    its default. *)
Theorem accessors_after_bind (p : Params) (raw out : Input) (mode : string)
    (pre post : list (Param Params)) (f : Param Params) (v : value) :
  BindAndValidate E p raw mode = Returns (Some out, None) ->
  Fields p = pre ++ f :: post ->
  Forall (fun g => Name g ≠ Name f) post ->
  raw !! Name f = Some v ->
  (Type_ f = Ty.String -> v = VString (Accessors.String out (Name f)))
  /\ (Type_ f = Ty.Date -> v = VString (Accessors.Date out (Name f)))
  /\ (Type_ f = Ty.DateTime -> v = VString (Accessors.DateTime out (Name f)))
  /\ (Type_ f = Ty.Time -> v = VString (Accessors.Time out (Name f)))
  /\ (Type_ f = Ty.Integer -> forall def,
        v = VInt (Accessors.Integer out (Name f) def)
        \/ exists x, v = VFloat x
                     /\ Accessors.Integer out (Name f) def = int_of_float64 E x)
  /\ (Type_ f = Ty.Float -> forall def,
        v = VFloat (Accessors.Float out (Name f) def))
  /\ (Type_ f = Ty.Boolean -> forall def,
        v = VBool (Accessors.Boolean out (Name f) def))
  /\ (Type_ f = Ty.BigDecimal ->
        v = VString (Accessors.BigDecimal out (Name f))
        \/ exists x, v = VFloat x
                     /\ Accessors.BigDecimal out (Name f) = Sprintf_10f x)
  /\ (Type_ f = Ty.Numeric -> forall parseFloat def,
        v = VFloat (Accessors.Numeric parseFloat out (Name f) def)
        \/ exists s, v = VString s
                     /\ Accessors.Numeric parseFloat out (Name f) def
                        = match parseFloat s with Some x => x | None => def end).
Proof.
  intros H Hp Hpost Hv.
  destruct (bound_lookup _ _ _ _ _ _ _ _ _ H Hp Hpost Hv) as (w & Hout & Hw).
  unfold Accessors.Date, Accessors.DateTime, Accessors.Time, Accessors.BigDecimal,
    Accessors.String, Accessors.Integer, Accessors.Float, Accessors.Boolean,
    Accessors.Numeric.
  rewrite Hout. unfold bindValue in Hw.
  repeat split; intros Ht; rewrite Ht in Hw; simpl in Hw.
  1-4: by apply bindString_ok in Hw as [-> [s ->]].
  - intros def. destruct v; try discriminate.
    + right. apply validated_ok in Hw as [[= <-] _]. eauto.
    + left. by injection Hw as <-.
  - intros def. destruct v; try discriminate.
    by apply validated_ok in Hw as [[= <-] _].
  - intros def. destruct v; try discriminate. by injection Hw as <-.
  - destruct v; try discriminate.
    + right. injection Hw as <-. eauto.
    + left. by apply validated_ok in Hw as [[= <-] _].
  - intros pf def. destruct v; try discriminate.
    + left. by apply validated_ok in Hw as [[= <-] _].
    + right. apply validated_ok in Hw as [[= <-] _]. eauto.
Qed.

(** X9 — an undeclared number is not an integer.  A number under a key
    that names no field of the schema is passed through as the float64 it
    was decoded to: on the output of a successful call [Integer] returns
    its default for this key, and [Float] returns the number. *)
Theorem Integer_of_undeclared_number (p : Params) (raw out : Input) (mode : string)
    (k : string) (x : float64) (def : Z) (fdef : float64) :
  BindAndValidate E p raw mode = Returns (Some out, None) ->
  Forall (fun f => Name f ≠ k) (Fields p) ->
  raw !! k = Some (VFloat x) ->
  Accessors.Integer out k def = def /\ Accessors.Float out k fdef = x.
Proof.
  intros H Hk Hv.
  apply BindAndValidate_ok in H as (o & Hloop & -> & _).
  assert (Ho : o !! k = None).
  { rewrite (bindFields_other_key E _ _ _ _ _ _ Hloop Hk). apply lookup_empty. }
  unfold Accessors.Integer, Accessors.Float.
  by rewrite passthrough_lookup, Ho, Hv.
Qed.

End AccessorProperties.

(** ** The nested binder *)

Section NestedProperties.

Variable E : External.

Lemma validateJSONStep_keys parsed mode f (o0 o1 : Input) k :
  validateJSONStep E parsed mode f o0 = Ok o1 ->
  is_Some (o1 !! k) -> is_Some (o0 !! k) \/ is_Some (parsed !! k).
Proof.
  unfold validateJSONStep, validateJSONField. intros H Hk.
  destruct (parsed !! Name f) as [val|] eqn:Hf.
  - destruct (validateJSONValue E (nestedOf E mode f) f val) as [w| |];
      simpl in H; try discriminate.
    injection H as <-. destruct (decide (Name f = k)) as [<-|Hne].
    + right. eauto.
    + left. by rewrite lookup_insert_ne in Hk.
  - destruct (isRequired f mode); try discriminate. injection H as <-. by left.
Qed.

Lemma validateJSON_loop_keys parsed mode fs (o0 o1 : Input) k :
  forEach (validateJSONStep E parsed mode) fs o0 = Ok o1 ->
  is_Some (o1 !! k) -> is_Some (o0 !! k) \/ is_Some (parsed !! k).
Proof.
  revert o0. induction fs as [|f fs IH]; simpl; intros o0 H Hk.
  - injection H as <-. by left.
  - destruct (validateJSONStep E parsed mode f o0) as [o| |] eqn:Hstep;
      simpl in H; try discriminate.
    destruct (IH _ H Hk) as [Ho|]; [|by right].
    eapply validateJSONStep_keys; eauto.
Qed.

(** X10 — the keys of a nested object.  When [validateJSON] returns an
    object, its keys are exactly the keys of the input after the JSON
    round trip: a declared field that is absent is not added, and no key
    is dropped. *)
Theorem validateJSON_dom (p : Params) (raw parsed out : Input) (mode : string) :
  validateJSON E p raw mode = Ok out ->
  jsonRoundTrip raw = Some parsed ->
  dom out = dom parsed.
Proof.
  rewrite validateJSON_eq. intros H Hrt. rewrite Hrt in H.
  destruct (forEach (validateJSONStep E parsed mode) (Fields p) ∅) as [o| |] eqn:Hloop;
    simpl in H; try discriminate.
  injection H as <-. rewrite passthrough_union, dom_union_L.
  apply set_eq. intros k. rewrite elem_of_union, !elem_of_dom. split; [|auto].
  intros [Hk|Hk]; [|done].
  destruct (validateJSON_loop_keys _ _ _ _ _ _ Hloop Hk) as [H0|H0]; [|done].
  rewrite lookup_empty in H0. by destruct H0.
Qed.

Lemma Params_nested_ind (P : Params -> Prop) :
  (forall fs, Forall (fun f => forall s, Schema f = Some s -> P s) fs ->
              P (MkParams fs)) ->
  forall p, P p.
Proof.
  intros H. fix IH 1. intros [fs]. apply H.
  revert fs. fix IHl 1. intros [|f fs]; constructor.
  - destruct f as [n t v r [s|] st]; simpl; intros s' Hs; [|discriminate].
    injection Hs as <-. apply IH.
  - apply IHl.
Qed.

Lemma validateJSONValue_untagged nested nested' (f : Param Params) val :
  (forall m, match nested, nested' with
             | Some g, Some g' => g m = g' m
             | None, None => True
             | _, _ => False
             end) ->
  validateJSONValue E nested'
    (mkParam (Name f) (Type_ f)
             (if String.eqb (Type_ f) Ty.String then Validate f else "")
             (RequiredOn f)
             (match Schema f with Some s => Some (untagged s) | None => None end)
             (SliceType f)) val
  = validateJSONValue E nested f val.
Proof.
  intros Hn. unfold validateJSONValue, validated. simpl.
  destruct (String.eqb (Type_ f) Ty.String); [reflexivity|].
  destruct (String.eqb (Type_ f) Ty.Integer); [reflexivity|].
  destruct (String.eqb (Type_ f) Ty.JSON); [|reflexivity].
  destruct nested as [g|], nested' as [g'|]; try (by destruct (Hn ∅)).
  destruct val; try reflexivity. by rewrite (Hn m).
Qed.

(** X11 — the rules the nested binder runs.  [validateJSON] calls the
    rule engine only for fields of type [String]: removing the validation
    tag of every other field, at every depth of the schema, changes
    neither the object it returns, nor its error, nor whether it
    panics. *)
Theorem validateJSON_untagged (p : Params) (raw : Input) (mode : string) :
  validateJSON E (untagged p) raw mode = validateJSON E p raw mode.
Proof.
  revert raw. induction p as [fs IH] using Params_nested_ind. intros raw.
  rewrite !validateJSON_eq. destruct (jsonRoundTrip raw) as [parsed|]; [|done].
  assert (Hloop : forall o,
    forEach (validateJSONStep E parsed mode) (Fields (untagged (MkParams fs))) o
    = forEach (validateJSONStep E parsed mode) fs o).
  { simpl. induction fs as [|f fs IHfs]; intros o; [done|].
    inversion IH as [|? ? Hf Hfs]; subst. simpl.
    assert (Hstep : validateJSONStep E parsed mode
                      (mkParam (Name f) (Type_ f)
                         (if String.eqb (Type_ f) Ty.String then Validate f else "")
                         (RequiredOn f)
                         (match Schema f with
                          | Some s => Some (untagged s)
                          | None => None
                          end) (SliceType f)) o
                    = validateJSONStep E parsed mode f o).
    { unfold validateJSONStep, validateJSONField. simpl.
      destruct (parsed !! Name f) as [val|]; [|reflexivity].
      rewrite (validateJSONValue_untagged (nestedOf E mode f)); [done|].
      intros m. unfold nestedOf. simpl. destruct (Schema f) as [s|] eqn:Hs; [|done].
      symmetry. by apply Hf. }
    rewrite Hstep. destruct (validateJSONStep E parsed mode f o); simpl; auto. }
  by rewrite Hloop.
Qed.

End NestedProperties.

(** ** Nested schemas under the binder *)

Section NestedBinding.

Variable E : External.

Lemma nestedJSON_ok s m mode wrap w :
  nestedJSON E s m mode wrap = Ok w ->
  exists nested, validateJSON E s m mode = Ok nested /\ w = VMap nested.
Proof.
  unfold nestedJSON. destruct (validateJSON E s m mode) as [nested| |]; try discriminate.
  intros [= <-]. eauto.
Qed.

(** X12 — nested objects are bound by the nested binder.  When
    [BindAndValidate] returns an output without error, for a field with a
    nested schema that is followed by no field of the same name: a
    structured-JSON field given as an object is bound to what
    [validateJSON] of the nested schema returns for this object, under
    the same mode; and an array field whose elements are structured JSON
    is bound to an array of the same length, whose elements are what
    [validateJSON] returns for the elements of the input, each of them an
    object, in the same order. *)
Theorem BindAndValidate_nested (p : Params) (raw out : Input) (mode : string)
    (pre post : list (Param Params)) (f : Param Params) (s : Params) :
  BindAndValidate E p raw mode = Returns (Some out, None) ->
  Fields p = pre ++ f :: post ->
  Forall (fun g => Name g ≠ Name f) post ->
  Schema f = Some s ->
  (Type_ f = Ty.JSON -> forall m, raw !! Name f = Some (VMap m) ->
     exists nested, validateJSON E s m mode = Ok nested
                    /\ out !! Name f = Some (VMap nested))
  /\ (Type_ f = Ty.Slice -> SliceType f = Ty.JSON ->
      forall elems, raw !! Name f = Some (VSlice elems) ->
        exists arr, out !! Name f = Some (VSlice arr)
                    /\ Forall2 (fun elem r =>
                                  exists m nested,
                                    elem = VMap m
                                    /\ validateJSON E s m mode = Ok nested
                                    /\ r = VMap nested) elems arr).
Proof.
  intros H Hp Hpost Hs. split.
  - intros Ht m Hv.
    destruct (bound_lookup E _ _ _ _ _ _ _ _ _ H Hp Hpost Hv) as (w & Hout & Hw).
    unfold bindValue in Hw. rewrite Ht, Hs in Hw. simpl in Hw.
    apply nestedJSON_ok in Hw as (nested & Hn & ->). eauto.
  - intros Ht Hst elems Hv.
    destruct (bound_lookup E _ _ _ _ _ _ _ _ _ H Hp Hpost Hv) as (w & Hout & Hw).
    unfold bindValue in Hw. rewrite Ht, Hst, Hs in Hw. simpl in Hw.
    destruct (collect _ elems) as [arr| |] eqn:Hc; simpl in Hw; try discriminate.
    injection Hw as <-. exists arr. split; [done|].
    apply collect_ok in Hc. eapply Forall2_impl; [exact Hc|].
    intros elem r Hr. simpl in Hr. destruct elem; try discriminate.
    apply nestedJSON_ok in Hr as (nested & Hn & ->). eauto.
Qed.

Lemma validated_no_panic {S A} (f : Param S) v (k : outcome A) :
  engine_defined E f -> scalar v = true -> k ≠ Panic -> validated E f v k ≠ Panic.
Proof.
  unfold validated. intros Hf Hv Hk.
  destruct (String.eqb_spec (Validate f) "") as [|Htag]; [done|].
  destruct (validate_Var E v (Validate f)) eqn:Hvar; try done.
  by destruct (Hf Htag v Hv).
Qed.

Lemma forEach_no_panic {A S} (step : A -> S -> outcome S) (l : list A) (s : S) :
  Forall (fun a => forall s, step a s ≠ Panic) l -> forEach step l s ≠ Panic.
Proof.
  revert s. induction l as [|a l IH]; intros s Hall; [done|].
  inversion Hall as [|? ? Ha Hl]; subst. simpl.
  destruct (step a s) as [s'| |] eqn:Hstep; simpl; [by apply IH|done|].
  by destruct (Ha s).
Qed.

Lemma collect_no_panic {A B} (g : A -> outcome B) (l : list A) :
  (forall a, g a ≠ Panic) -> collect g l ≠ Panic.
Proof.
  intros Hg. induction l as [|a l IH]; [done|]. simpl.
  destruct (g a) as [b| |] eqn:Ha; simpl; [|done|by destruct (Hg a)].
  destruct (collect g l); simpl; done.
Qed.

Lemma validateJSON_no_panic (s : Params) (m : Input) (mode : string) :
  Forall (fun g => engine_defined E g) (Fields s) ->
  flat s ->
  validateJSON E s m mode ≠ Panic.
Proof.
  intros Htags Hflat. rewrite validateJSON_eq.
  destruct (jsonRoundTrip m) as [parsed|]; [|done].
  assert (Hloop : forEach (validateJSONStep E parsed mode) (Fields s) ∅ ≠ Panic).
  { apply forEach_no_panic. unfold flat in Hflat.
    assert (Hall : Forall (fun g => engine_defined E g
                                    /\ (Type_ g = Ty.JSON -> Schema g = None))
                          (Fields s)) by (by apply Forall_and).
    eapply Forall_impl; [exact Hall|].
    intros g [Htag Hg] o. unfold validateJSONStep, validateJSONField.
    destruct (parsed !! Name g) as [val|]; [|by destruct (isRequired g mode)].
    assert (Hval : validateJSONValue E (nestedOf E mode g) g val ≠ Panic).
    { unfold validateJSONValue.
      destruct (String.eqb (Type_ g) Ty.String).
      { destruct val; try done. by apply validated_no_panic. }
      destruct (String.eqb (Type_ g) Ty.Integer); [by destruct val|].
      destruct (String.eqb_spec (Type_ g) Ty.JSON) as [Ht|]; [|done].
      unfold nestedOf. by rewrite (Hg Ht). }
    by destruct (validateJSONValue E (nestedOf E mode g) g val). }
  by destruct (forEach (validateJSONStep E parsed mode) (Fields s) ∅).
Qed.

Lemma nestedJSON_no_panic s m mode wrap :
  Forall (fun g => engine_defined E g) (Fields s) ->
  flat s ->
  nestedJSON E s m mode wrap ≠ Panic.
Proof.
  intros Htags Hflat. unfold nestedJSON.
  pose proof (validateJSON_no_panic s m mode Htags Hflat).
  by destruct (validateJSON E s m mode).
Qed.

Lemma bindValue_no_panic f val mode :
  engine_defined E f ->
  (forall s, Schema f = Some s ->
             Forall (fun g => engine_defined E g) (Fields s) /\ flat s) ->
  bindValue E f val mode ≠ Panic.
Proof.
  intros Htag Hf. unfold bindValue, bindString.
  repeat match goal with
         | |- (if ?c then _ else _) ≠ _ => destruct c
         end;
    try (destruct val; try done; by apply validated_no_panic).
  - destruct val; try done.
    + by destruct (json_Unmarshal E s).
    + destruct (Schema f) as [s|] eqn:Hs; [|done].
      destruct (Hf s eq_refl). by apply nestedJSON_no_panic.
  - destruct val; try done.
    destruct (String.eqb (SliceType f) Ty.JSON); [|done].
    destruct (Schema f) as [s|] eqn:Hs; [|done]. destruct (Hf s eq_refl).
    match goal with |- (?c ≫= _) ≠ _ => assert (Hc : c ≠ Panic) end.
    { apply collect_no_panic. intros a. destruct a; try done.
      by apply nestedJSON_no_panic. }
    by destruct (collect _ elems).
Qed.

(** X13 — no panic.  [BindAndValidate] does not panic when the rule
    engine knows the tag of every tagged field of the schema and of its
    nested schemas, and no field of a nested schema is a structured-JSON
    field with a schema of its own: it returns an output or an error,
    whatever the input holds. *)
Theorem BindAndValidate_no_panic (p : Params) (raw : Input) (mode : string) :
  Forall (fun f => engine_defined E f
                   /\ forall s, Schema f = Some s ->
                        Forall (fun g => engine_defined E g) (Fields s) /\ flat s)
         (Fields p) ->
  BindAndValidate E p raw mode ≠ Panics.
Proof.
  intros Hall. unfold BindAndValidate, bindFields.
  assert (Hloop : forEach (bindField E raw mode) (Fields p) ∅ ≠ Panic).
  { apply forEach_no_panic. eapply Forall_impl; [exact Hall|].
    intros f [Htag Hf] o. unfold bindField.
    destruct (raw !! Name f) as [val|]; [|by destruct (isRequired f mode)].
    pose proof (bindValue_no_panic f val mode Htag Hf).
    by destruct (bindValue E f val mode). }
  by destruct (forEach (bindField E raw mode) (Fields p) ∅).
Qed.

End NestedBinding.

(** ** The JSON round trip of the nested binder *)

Section RoundTrip.

Variable E : External.

Lemma decodeObject_None (m : gmap string (option value)) (k : string) :
  m !! k = Some None -> decodeObject m = None.
Proof.
  intros Hk. unfold decodeObject.
  assert (Hin : (k, None) ∈ merge_sort key_le (map_to_list m)).
  { rewrite merge_sort_Permutation. by apply elem_of_map_to_list. }
  generalize dependent (merge_sort key_le (map_to_list m)). intros l Hin.
  assert (Hnone : forall xs : list (string * option value),
             foldl (fun (acc : option Input) (kv : string * option value) =>
                      out ← acc; v ← kv.2; Some (<[Utf8.ToValid kv.1 := v]> out))
                   None xs
             = None).
  { induction xs as [|kv xs IH]; [done|]. simpl. apply IH. }
  generalize (Some (∅ : Input)). induction l as [|kv l IH]; intros acc.
  - by apply elem_of_nil in Hin.
  - simpl. apply elem_of_cons in Hin as [<-|Hin].
    + simpl. destruct acc; simpl; apply Hnone.
    + by apply IH.
Qed.

(** X14 — a number that JSON cannot hold.  A nested object that holds a
    float64 which is not finite (a NaN or an infinity) cannot be written
    as JSON, and the error of [json.Marshal] is dropped: [validateJSON]
    returns the error of the decoder on the empty text, unexpected end of
    JSON input, whatever the schema and the mode; and a structured-JSON
    field with a nested schema given such an object fails with this error
    wrapped in the validation error of the field. *)
Theorem validateJSON_not_finite (s : Params) (m : Input) (mode : string)
    (k : string) (x : float64) :
  m !! k = Some (VFloat x) ->
  is_finite x = false ->
  validateJSON E s m mode = Fail (ErrUnmarshal "unexpected end of JSON input")
  /\ forall f, Type_ f = Ty.JSON -> Schema f = Some s ->
       bindValue E f (VMap m) mode
       = Fail (ErrValidationFailed (Name f)
                 (ErrUnmarshal "unexpected end of JSON input")).
Proof.
  intros Hk Hx.
  assert (Hrt : jsonRoundTrip m = None).
  { unfold jsonRoundTrip. apply (decodeObject_None _ k).
    rewrite lookup_fmap, Hk. simpl. by rewrite Hx. }
  assert (H : validateJSON E s m mode
              = Fail (ErrUnmarshal "unexpected end of JSON input")).
  { by rewrite validateJSON_eq, Hrt. }
  split; [exact H|].
  intros f Ht Hs. unfold bindValue, nestedJSON. rewrite Ht, Hs. simpl. by rewrite H.
Qed.

End RoundTrip.

Lemma validateJSON_not_finite_witness :
  ({[ "ratio" := VFloat S754_nan ]} : Input) !! "ratio" = Some (VFloat S754_nan)
  /\ is_finite S754_nan = false
  /\ validateJSON env preferences_schema {[ "ratio" := VFloat S754_nan ]} "create"
     = Fail (ErrUnmarshal "unexpected end of JSON input")
  /\ forall f, Type_ f = Ty.JSON -> Schema f = Some preferences_schema ->
       bindValue env f (VMap {[ "ratio" := VFloat S754_nan ]}) "create"
       = Fail (ErrValidationFailed (Name f)
                 (ErrUnmarshal "unexpected end of JSON input")).
Proof.
  split; [reflexivity|]. split; [reflexivity|].
  exact (validateJSON_not_finite env preferences_schema
           {[ "ratio" := VFloat S754_nan ]} "create" "ratio" S754_nan
           eq_refl eq_refl).
Defined.

(** ** The order of map iteration *)

Section OrderProperties.

Variable E : External.

(** X15 — the order of [range] over a map.  Go leaves the order in which
    [range] yields the entries of a map unspecified.  Whatever the order
    in which the pass-through loop of [BindAndValidate] and the loop of
    [ToModel] receive the entries of the input, the results are the same:
    the output and error of the binder, and the record, or the panic, of
    [ToModel]. *)
Theorem range_order_irrelevant (p : Params) (raw : Input) (mode : string)
    (order : list (string * value)) :
  order ≡ₚ map_to_list raw ->
  BindAndValidateIn E order p raw mode = BindAndValidate E p raw mode
  /\ forall dst, ToModelIn E order dst = ToModel E raw dst.
Proof.
  intros Hperm. split.
  - unfold BindAndValidateIn, BindAndValidate.
    destruct (bindFields E p raw mode) as [out| |]; try reflexivity.
    by rewrite (passthrough_any_order raw out order Hperm).
  - intros dst. by apply ToModel_any_order.
Qed.

End OrderProperties.

(** ** The schema builder, call by call *)

Section BuilderFurther.

Import Builder.

Lemma replay_snoc b cs c name :
  replay b (cs ++ [c]) name = applied b c (replay b cs name).
Proof. unfold replay. by rewrite foldl_app. Qed.

Lemma applied_name b c q : Name (applied b c q) = Name q.
Proof. destruct c; simpl; try case_decide; reflexivity. Qed.

Lemma replay_name b cs name : Name (replay b cs name) = name.
Proof.
  induction cs as [|c cs IH] using rev_ind; [done|].
  by rewrite replay_snoc, applied_name.
Qed.

Lemma set_replay upd b0 c cs h0 h :
  (forall q, Name (upd q) = Name q) ->
  (forall b q, applied b c q = if decide (b0 = b) then upd q else q) ->
  (forall b fb, builders h0 !! b = Some fb ->
                param fb = replay b cs (Name (param fb))) ->
  (forall b name, (length (builders h0) <= b)%nat ->
                  replay b cs name = mkParam name "" "" [] None "") ->
  set upd b0 h0 = Some h ->
  (forall b fb, builders h !! b = Some fb ->
                param fb = replay b (cs ++ [c]) (Name (param fb)))
  /\ (forall b name, (length (builders h) <= b)%nat ->
                     replay b (cs ++ [c]) name = mkParam name "" "" [] None "").
Proof.
  intros Hname Happ I1 I2 Hset.
  apply set_spec in Hset as (fb0 & fs & Hb0 & Hfs & Hs & Hb); [|done].
  split.
  - intros b fb Hfb. rewrite replay_snoc, Happ. rewrite Hb in Hfb.
    destruct (decide (b0 = b)) as [<-|Hne].
    + rewrite list_lookup_insert_eq in Hfb by (by eapply lookup_lt_Some).
      injection Hfb as <-. simpl. rewrite Hname. f_equal. by apply I1.
    + rewrite list_lookup_insert_ne in Hfb by done. by apply I1.
  - intros b name Hlen. rewrite Hb, length_insert in Hlen.
    rewrite replay_snoc, Happ, I2 by done.
    rewrite decide_False; [done|].
    intros <-. apply lookup_lt_Some in Hb0. lia.
Qed.

Lemma run_replay cs h :
  run cs = Some h ->
  (forall b fb, builders h !! b = Some fb ->
                param fb = replay b cs (Name (param fb)))
  /\ (forall b name, (length (builders h) <= b)%nat ->
                     replay b cs name = mkParam name "" "" [] None "").
Proof.
  revert h. induction cs as [|c cs IH] using rev_ind; intros h Hrun.
  - injection Hrun as <-. split; [|done]. intros b fb Hb. simpl in Hb. by rewrite lookup_nil in Hb.
  - apply run_snoc_Some in Hrun as (h0 & Hrun & Hstep).
    destruct (IH _ Hrun) as [I1 I2].
    destruct c; simpl in Hstep.
    + injection Hstep as <-. simpl. split.
      * intros b fb Hb. rewrite replay_snoc. simpl. by apply I1.
      * intros b name Hlen. rewrite replay_snoc. simpl. by apply I2.
    + destruct (Requires p name h0) as [r|] eqn:Hd; simpl in Hstep; [|discriminate].
      injection Hstep as <-. apply declare_spec in Hd as (fs & Hfs & Hs & Hb).
      split.
      * intros b fb Hfb. rewrite replay_snoc. simpl. rewrite Hb in Hfb.
        apply lookup_app_Some in Hfb as [Hfb|[Hlen Hfb]]; [by apply I1|].
        apply list_lookup_singleton_Some in Hfb as [_ <-]. simpl.
        symmetry. apply I2. lia.
      * intros b name' Hlen. rewrite replay_snoc. simpl. apply I2.
        rewrite Hb, length_app in Hlen. lia.
    + destruct (Optional p name h0) as [r|] eqn:Hd; simpl in Hstep; [|discriminate].
      injection Hstep as <-. apply declare_spec in Hd as (fs & Hfs & Hs & Hb).
      split.
      * intros b fb Hfb. rewrite replay_snoc. simpl. rewrite Hb in Hfb.
        apply lookup_app_Some in Hfb as [Hfb|[Hlen Hfb]]; [by apply I1|].
        apply list_lookup_singleton_Some in Hfb as [_ <-]. simpl.
        symmetry. apply I2. lia.
      * intros b name' Hlen. rewrite replay_snoc. simpl. apply I2.
        rewrite Hb, length_app in Hlen. lia.
    + refine (set_replay _ _ _ _ _ _ _ _ I1 I2 Hstep);
        [done|intros b' q; simpl; by repeat case_decide].
    + refine (set_replay _ _ _ _ _ _ _ _ I1 I2 Hstep);
        [done|intros b' q; simpl; by repeat case_decide].
    + refine (set_replay _ _ _ _ _ _ _ _ I1 I2 Hstep);
        [done|intros b' q; simpl; by repeat case_decide].
    + refine (set_replay _ _ _ _ _ _ _ _ I1 I2 Hstep);
        [done|intros b' q; simpl; by repeat case_decide].
    + refine (set_replay _ _ _ _ _ _ _ _ I1 I2 Hstep);
        [done|intros b' q; simpl; by repeat case_decide].
Qed.

Lemma replay_RequiredOn b cs name :
  RequiredOn (replay b cs name) = endpoints_of b cs.
Proof.
  induction cs as [|c cs IH] using rev_ind; [done|].
  rewrite replay_snoc. unfold endpoints_of in *. rewrite omap_app, concat_app, <- IH.
  destruct c; simpl; try case_decide; simpl; by rewrite ?app_nil_r.
Qed.

(** X16 — what a chain of setters builds.  After any sequence of builder
    calls that declares no name twice on a schema, the field list of the
    schema a builder was declared on holds one descriptor with the
    builder's name, and it is the descriptor made by the calls on this
    builder alone, in their order: the last type, tag and nested schema
    set, and the endpoints of every [On].  Calls on other builders leave
    it as it is. *)
Theorem builder_replay (cs : list call) (h : heap) (b : ptr) (fb : FieldBuilder) :
  run cs = Some h ->
  (forall p, NoDup (declared p cs)) ->
  builders h !! b = Some fb ->
  exists fs, schemas h !! parent fb = Some fs
             /\ replay b cs (Name (param fb)) ∈ fs
             /\ forall g, g ∈ fs -> Name g = Name (param fb) ->
                          g = replay b cs (Name (param fb)).
Proof.
  intros Hrun Hnd Hb.
  destruct (run_inv cs h Hrun Hnd) as [I1 _].
  destruct (I1 _ _ Hb) as (fs & Hfs & Hin).
  destruct (run_replay cs h Hrun) as [R1 _]. rewrite <- (R1 _ _ Hb).
  exists fs. split; [done|]. split; [done|].
  intros g Hg Hname.
  assert (Hnames : NoDup (map Name fs)).
  { pose proof (run_names cs h (parent fb) Hrun) as H. rewrite Hfs in H.
    rewrite H. apply Hnd. }
  apply list_elem_of_split in Hin as (l1 & l2 & ->).
  rewrite map_app in Hnames. simpl in Hnames.
  apply NoDup_app in Hnames as (_ & Hl1 & Hnames).
  apply NoDup_cons in Hnames as [Hl2 _].
  apply elem_of_app in Hg as [Hg|Hg].
  - exfalso. apply (Hl1 (Name g)); [by apply list_elem_of_fmap_2|].
    rewrite Hname. apply list_elem_of_here.
  - apply elem_of_cons in Hg as [->|Hg]; [done|].
    exfalso. apply Hl2. rewrite <- Hname. by apply list_elem_of_fmap_2.
Qed.

(** X17 — the modes a field is required on.  The [RequiredOn] list of the
    descriptor a builder holds is the concatenation of the endpoints
    passed to [On] on this builder, in the order of the calls, whether the
    field was declared by [Requires] or by [Optional]; so the field is
    required on a mode exactly when one of these endpoints is the mode
    once trimmed, and a field declared by [Requires] with no call of [On]
    is required on no mode. *)
Theorem builder_required_on (cs : list call) (h : heap) (b : ptr) (fb : FieldBuilder)
    (mode : string) :
  run cs = Some h ->
  builders h !! b = Some fb ->
  RequiredOn (param fb) = endpoints_of b cs
  /\ (isRequired (param fb) mode = true
      <-> exists r, r ∈ endpoints_of b cs /\ TrimSpace r = mode).
Proof.
  intros Hrun Hb. destruct (run_replay cs h Hrun) as [R1 _].
  assert (Hreq : RequiredOn (param fb) = endpoints_of b cs).
  { rewrite (R1 _ _ Hb). apply replay_RequiredOn. }
  split; [done|]. by rewrite isRequired_spec, Hreq.
Qed.

End BuilderFurther.

(** ** The presenter *)

Section PresenterFurther.

Import Presenter.

Lemma Present_loop (p : Entity) (obj : gval) (options : list H) :
  obj ≠ GNil ->
  Present p obj options = loop (presentStep obj (firstOption options)) (Fields p) ∅.
Proof. intros Hobj. rewrite Present_eq. by destruct obj. Qed.

Lemma presentStep_keys obj opts f (out out' : H) k :
  presentStep obj opts f out = Some out' ->
  is_Some (out' !! k)
  <-> is_Some (out !! k) \/ (JSONKey f = k /\ skipped f obj opts = Some false).
Proof.
  unfold presentStep, presentField. intros H.
  destruct (skipped f obj opts) as [[|]|]; simpl in H; try discriminate.
  - injection H as <-. split; [auto|]. by intros [?|[_ ?]].
  - destruct (resolve f obj) as [val|]; simpl in H; [|discriminate].
    assert (Hins : exists val', out' = <[JSONKey f := val']> out).
    { destruct (Presenter f); simpl in H.
      - destruct (serializeNested _ val) as [val'|]; simpl in H; [|discriminate].
        injection H as <-. eauto.
      - injection H as <-. eauto. }
    destruct Hins as (val' & ->).
    destruct (decide (JSONKey f = k)) as [<-|Hne].
    + rewrite lookup_insert_eq. split; eauto.
    + rewrite lookup_insert_ne by done. split; [auto|]. by intros [?|[? _]].
Qed.

Lemma loop_keys obj opts fs (out out' : H) k :
  loop (presentStep obj opts) fs out = Some out' ->
  is_Some (out' !! k)
  <-> is_Some (out !! k)
      \/ exists f, f ∈ fs /\ JSONKey f = k /\ skipped f obj opts = Some false.
Proof.
  revert out. induction fs as [|f fs IH]; intros out H; simpl in H.
  - injection H as <-. split; [auto|]. intros [?|(f & Hf & _)]; [done|].
    by apply elem_of_nil in Hf.
  - destruct (presentStep obj opts f out) as [o|] eqn:Hstep; simpl in H; [|discriminate].
    rewrite (IH _ H), (presentStep_keys _ _ _ _ _ k Hstep). split.
    + intros [[?|[? ?]]|(g & Hg & ? & ?)]; [by left| |].
      * right. exists f. split; [apply list_elem_of_here|done].
      * right. exists g. split; [by apply list_elem_of_further|done].
    + intros [?|(g & Hg & Hk & Hs)]; [by left; left|].
      apply elem_of_cons in Hg as [->|Hg]; [by left; right|].
      right. eauto.
Qed.

(** X18 — the keys of a presentation.  The map [Present] returns for an
    object that is not nil has a key exactly for the output keys of the
    descriptors that are included, those with no condition or whose
    condition returns true on the object and the options. *)
Theorem Present_keys (p : Entity) (obj : gval) (options : list H) (result : H)
    (k : string) :
  obj ≠ GNil ->
  Present p obj options = Some result ->
  is_Some (result !! k)
  <-> exists f, f ∈ Fields p /\ JSONKey f = k
                /\ skipped f obj (firstOption options) = Some false.
Proof.
  intros Hobj H. rewrite Present_loop in H by done.
  rewrite (loop_keys _ _ _ _ _ k H), lookup_empty. split; [|auto].
  intros [Hk|?]; [|done]. by destruct Hk.
Qed.

Lemma loop_step_None {A S} (step : A -> S -> option S) pre a post (s : S) :
  (forall s0, step a s0 = None) ->
  loop step (pre ++ a :: post) s = None.
Proof.
  intros Ha. rewrite loop_app. destruct (loop step pre s) as [s0|]; simpl; [|done].
  by rewrite Ha.
Qed.

Lemma skipped_included {P} (f : EntityField P) obj opts :
  (Condition f = None
   \/ exists cond, Condition f = Some cond /\ cond obj opts = Some true) ->
  skipped f obj opts = Some false.
Proof. unfold skipped. intros [->|(cond & -> & Hc)]; [done|]. by rewrite Hc. Qed.


(** X20 — an object that is not a record.  [Present] panics on an object
    that is neither a record nor a non-nil pointer to a record (a nil
    pointer of a record type, a number, a pointer to a pointer) as soon as
    the presenter has one included descriptor without a transform
    function. *)
Theorem Present_not_a_record (p : Entity) (obj : gval) (options : list H)
    (f : EntityField Entity) :
  obj ≠ GNil ->
  (forall fields, indirect obj ≠ Some (GStruct fields)) ->
  f ∈ Fields p ->
  Func f = None ->
  (Condition f = None
   \/ exists cond, Condition f = Some cond /\ cond obj (firstOption options) = Some true) ->
  Present p obj options = None.
Proof.
  intros Hnil Hobj Hin Hfunc Hcond.
  apply skipped_included in Hcond as Hskip.
  apply list_elem_of_split in Hin as (pre & post & Hp).
  rewrite Present_loop, Hp by done. apply loop_step_None. intros s0.
  unfold presentStep, presentField. rewrite Hskip. simpl.
  unfold resolve, fieldOrDefault. rewrite Hfunc.
  destruct (indirect obj) as [[]|] eqn:Hi; try done.
  by destruct (Hobj fields).
Qed.

Lemma loop_ext {A S} (step1 step2 : A -> S -> option S) (l : list A) (s : S) :
  Forall (fun a => forall s, step1 a s = step2 a s) l ->
  loop step1 l s = loop step2 l s.
Proof.
  revert s. induction l as [|a l IH]; intros s Hall; [done|].
  inversion Hall as [|? ? Ha Hl]; subst. simpl. rewrite Ha.
  destruct (step2 a s); simpl; auto.
Qed.

(** X21 — a record or a pointer to it.  For a presenter whose descriptors
    have neither a transform function nor a condition (the two that are
    handed the object itself), [Present] returns the same for a record and
    for a pointer to it. *)
Theorem Present_pointer_or_value (p : Entity) (fields : list (field gval))
    (options : list H) :
  Forall (fun f => Func f = None /\ Condition f = None) (Fields p) ->
  Present p (GPtr (Some (GStruct fields))) options
  = Present p (GStruct fields) options.
Proof.
  intros Hall. rewrite !Present_loop by done. apply loop_ext.
  eapply Forall_impl; [exact Hall|]. intros f [Hfunc Hcond] s.
  unfold presentStep, presentField, skipped, resolve, fieldOrDefault.
  by rewrite Hfunc, Hcond.
Qed.


End PresenterFurther.

(** ** Nested presenters *)

Section NestedPresenter.

Import Presenter.



End NestedPresenter.


(** ** [ToModel] and the snake-case keys *)

Section ModelFurther.

Variable E : External.

(** X24 — a key that names no field.  An entry of the input whose key is
    the snake-case form of no field name of the record has no effect on
    [ToModel]: the record is the same with and without it. *)
Theorem ToModel_unknown_key (i : Input) (k : string) (val : value)
    (fields : list (field gval)) :
  Forall (fun f => toSnakeCase (fname f) ≠ k) fields ->
  ToModel E (<[k := val]> i) (GPtr (Some (GStruct fields)))
  = ToModel E i (GPtr (Some (GStruct fields))).
Proof.
  intros Hall. rewrite !ToModel_struct. do 2 f_equal.
  apply map_ext_in. intros f Hin. apply list_elem_of_In in Hin.
  rewrite Forall_forall in Hall. unfold copied.
  rewrite lookup_insert_ne; [done|]. intros Heq. by apply (Hall f Hin).
Qed.

Lemma assign_twice val f : assign E val (assign E val f) = assign E val f.
Proof.
  unfold assign.
  destruct (AssignableTo (TypeOf val) (ftype f)) eqn:Ha; simpl; [by rewrite Ha|].
  destruct (ConvertibleTo (TypeOf val) (ftype f)) eqn:Hc; simpl.
  - by rewrite Ha, Hc.
  - by rewrite Ha, Hc.
Qed.

Lemma sole_map (g : field gval -> field gval) fields f :
  (forall f, fname (g f) = fname f) ->
  sole (map g fields) (g f) = sole fields f.
Proof.
  intros Hg. unfold sole. rewrite Hg, filter_map_names by done.
  by destruct (filter _ fields) as [|? [|? ?]].
Qed.

(** X25 — copying twice.  [ToModel] is idempotent: on the record a first
    call has written, a second call with the same input changes
    nothing. *)
Theorem ToModel_idempotent (i : Input) (fields : list (field gval)) (v : gval) :
  ToModel E i (GPtr (Some (GStruct fields))) = Some v ->
  ToModel E i (GPtr (Some v)) = Some v.
Proof.
  rewrite ToModel_struct. intros [= <-]. rewrite ToModel_struct. do 2 f_equal.
  rewrite map_map. apply map_ext. intros f.
  unfold copied at 1. rewrite copied_fname, copied_fexported.
  rewrite (sole_map (copied E i fields)) by (intros; apply copied_fname).
  unfold copied. destruct (i !! toSnakeCase (fname f)) as [val|]; [|done].
  destruct (sole fields f && fexported f && negb (is_nil val)); [|done].
  apply assign_twice.
Qed.

End ModelFurther.

Section SnakeCase.

Lemma byte_chr z : 0 <= z < 256 -> Utf8.byte (Utf8.chr z) = z.
Proof.
  intros Hz. unfold Utf8.byte, Utf8.chr. rewrite N_ascii_embedding by lia. lia.
Qed.

Lemma lor_high (m k y : Z) :
  0 <= k -> 0 <= y < 2 ^ k -> Z.lor (m * 2 ^ k) y = m * 2 ^ k + y.
Proof.
  intros Hk Hy. symmetry. apply Z.add_nocarry_lor. apply Z.bits_inj'. intros n Hn.
  rewrite Z.land_spec, Z.bits_0. destruct (Z.lt_ge_cases n k).
  - by rewrite Z.mul_pow2_bits_low.
  - rewrite <- (Z.mod_small y (2 ^ k)) by lia.
    rewrite Z.mod_pow2_bits_high by lia. apply andb_false_r.
Qed.

Lemma low6 r : 0 <= Z.land r 63 < 64.
Proof.
  change 63 with (Z.ones 6). rewrite Z.land_ones by lia.
  apply Z.mod_pos_bound. lia.
Qed.

Lemma cont_byte y : 0 <= y < 64 -> Utf8.byte (Utf8.chr (Z.lor 128 y)) = 128 + y.
Proof.
  intros Hy. change 128 with (2 * 2 ^ 6) at 1. rewrite lor_high by lia.
  apply byte_chr. lia.
Qed.

Lemma not_upper_high b : 128 <= b -> Utf8.between 65 b 90 = false.
Proof. unfold Utf8.between. lia. Qed.

Lemma has_upper_app s1 s2 :
  has_upper (s1 ++ s2) = has_upper s1 || has_upper s2.
Proof.
  induction s1 as [|c s1 IH]; [done|].
  change (has_upper (String c (s1 ++ s2)) = has_upper (String c s1) || has_upper s2).
  simpl. by rewrite IH, orb_assoc.
Qed.

Lemma EncodeRune_lower r :
  Utf8.between 65 r 90 = false -> has_upper (Utf8.EncodeRune r) = false.
Proof.
  intros Hr. unfold Utf8.EncodeRune.
  destruct (Utf8.between 0 r 127) eqn:H1.
  { simpl. rewrite byte_chr, Hr; [done|]. unfold Utf8.between in H1. lia. }
  destruct (Utf8.between 128 r 2047) eqn:H2.
  { unfold Utf8.between in H2.
    assert (0 <= Z.shiftr r 6 < 32).
    { rewrite Z.shiftr_div_pow2 by lia. split; [apply Z.div_pos; lia|].
      apply Z.div_lt_upper_bound; lia. }
    simpl. change 192 with (6 * 2 ^ 5). rewrite lor_high by lia.
    rewrite byte_chr by lia. rewrite cont_byte by apply low6.
    pose proof (low6 r). by rewrite !not_upper_high by lia. }
  destruct (Utf8.between 55296 r 57343 || (r <? 0) || (Utf8.MaxRune <? r)) eqn:H3.
  { reflexivity. }
  unfold Utf8.between, Utf8.MaxRune in *.
  destruct (r <=? 65535) eqn:H4.
  { assert (0 <= Z.shiftr r 12 < 16).
    { rewrite Z.shiftr_div_pow2 by lia. split; [apply Z.div_pos; lia|].
      apply Z.div_lt_upper_bound; lia. }
    simpl. change 224 with (14 * 2 ^ 4). rewrite lor_high by lia.
    rewrite byte_chr by lia. rewrite !cont_byte by apply low6.
    pose proof (low6 r). pose proof (low6 (Z.shiftr r 6)).
    by rewrite !not_upper_high by lia. }
  assert (0 <= Z.shiftr r 18 < 8).
  { rewrite Z.shiftr_div_pow2 by lia. split; [apply Z.div_pos; lia|].
    apply Z.div_lt_upper_bound; lia. }
  simpl. change 240 with (30 * 2 ^ 3). rewrite lor_high by lia.
  rewrite byte_chr by lia. rewrite !cont_byte by apply low6.
  pose proof (low6 r). pose proof (low6 (Z.shiftr r 6)).
  pose proof (low6 (Z.shiftr r 12)).
  by rewrite !not_upper_high by lia.
Qed.

Lemma string_of_runes_lower rs :
  Forall (fun r => Utf8.between 65 r 90 = false) rs ->
  has_upper (Utf8.string_of_runes rs) = false.
Proof.
  induction 1 as [|r rs Hr _ IH]; [done|].
  unfold Utf8.string_of_runes in *. simpl.
  by rewrite has_upper_app, IH, EncodeRune_lower.
Qed.

Lemma toSnakeCase_lower str : has_upper (toSnakeCase str) = false.
Proof.
  unfold toSnakeCase. destruct (String.eqb str ""); [done|].
  apply string_of_runes_lower.
  generalize (Utf8.range str). intros l.
  assert (Hgen : forall out : list Z,
             Forall (fun r => Utf8.between 65 r 90 = false) out ->
             Forall (fun r => Utf8.between 65 r 90 = false)
               (foldl (fun out ir =>
                         let '(i, r) := ir in
                         if Utf8.between 65 r 90 then
                           (if (0 <? i)%nat
                               && match String.get (i - 1) str with
                                  | Some c => Utf8.between 97 (Utf8.byte c) 122
                                  | None => false
                                  end
                            then out ++ [95] else out) ++ [r - 65 + 97]
                         else out ++ [r]) out l)).
  { induction l as [|[i r] l IH]; intros out Hout; [done|].
    simpl. apply IH.
    destruct (Utf8.between 65 r 90) eqn:Hr.
    - apply Forall_app. split.
      + destruct (_ && _); [|done]. apply Forall_app. split; [done|].
        by repeat constructor.
      + repeat constructor. unfold Utf8.between in *. lia.
    - apply Forall_app. split; [done|]. by repeat constructor. }
  apply Hgen. constructor.
Qed.

(** X26 — keys with a capital letter.  [toSnakeCase] never returns a
    string with a capital ASCII letter.  So [stringsEqualFold] is false
    for every field name against a key that holds one (the comparison is
    not case-insensitive: the key [Name] does not match the field [Name]),
    and [ToModel] ignores every entry under such a key. *)
Theorem capital_key_matches_no_field (E : External) (k : string) :
  has_upper k = true ->
  (forall n, stringsEqualFold n k = false)
  /\ forall (i : Input) (val : value) (fields : list (field gval)),
       ToModel E (<[k := val]> i) (GPtr (Some (GStruct fields)))
       = ToModel E i (GPtr (Some (GStruct fields))).
Proof.
  intros Hk.
  assert (Hne : forall n, toSnakeCase n ≠ k).
  { intros n Heq. pose proof (toSnakeCase_lower n) as H. rewrite Heq in H. congruence. }
  split.
  - intros n. destruct (stringsEqualFold n k) eqn:Heq; [|done].
    apply stringsEqualFold_spec in Heq. by destruct (Hne n).
  - intros i val fields. rewrite !ToModel_struct. do 2 f_equal.
    apply map_ext. intros f. unfold copied. by rewrite lookup_insert_ne.
Qed.

End SnakeCase.

(** ** Instances of the further properties *)

Lemma accessors_after_bind_witness :
  BindAndValidate env test_schema test_raw "create" = Returns (Some test_out, None)
  /\ test_raw !! Name age_field = Some (VFloat (S754_finite false 15 1))
  /\ (VFloat (S754_finite false 15 1) = VInt (Accessors.Integer test_out "age" 0)
      \/ exists x, VFloat (S754_finite false 15 1) = VFloat x
                   /\ Accessors.Integer test_out "age" 0 = int_of_float64 env x).
Proof.
  assert (H : BindAndValidate env test_schema test_raw "create"
              = Returns (Some test_out, None)) by (vm_compute; reflexivity).
  split; [exact H|]. split; [reflexivity|].
  assert (Hpost : Forall (fun g : Param Params => Name g ≠ Name age_field)
                    [mkParam "email" Ty.String "" [] None ""]).
  { repeat constructor. simpl. discriminate. }
  exact (proj1 (proj2 (proj2 (proj2 (proj2
           (accessors_after_bind env test_schema test_raw test_out "create"
              [mkParam "name" Ty.String "" [] None ""]
              [mkParam "email" Ty.String "" [] None ""] age_field
              (VFloat (S754_finite false 15 1)) H eq_refl Hpost eq_refl)))))
           eq_refl 0).
Defined.

Lemma Integer_of_undeclared_number_witness :
  BindAndValidate env required_schema john_scored "create"
  = Returns (Some john_scored, None)
  /\ john_scored !! "score" = Some (VFloat f5_9)
  /\ Accessors.Integer john_scored "score" 7 = 7
  /\ Accessors.Float john_scored "score" (S754_zero false) = f5_9.
Proof.
  assert (H : BindAndValidate env required_schema john_scored "create"
              = Returns (Some john_scored, None)) by (vm_compute; reflexivity).
  split; [exact H|]. split; [reflexivity|].
  refine (Integer_of_undeclared_number env required_schema john_scored john_scored
            "create" "score" f5_9 7 (S754_zero false) H _ eq_refl).
  repeat constructor; simpl; discriminate.
Defined.

Lemma validateJSON_dom_witness :
  validateJSON env preferences_schema preferences_yes "create" = Ok preferences_yes
  /\ jsonRoundTrip preferences_yes = Some preferences_yes
  /\ dom preferences_yes = dom preferences_yes.
Proof.
  assert (H : validateJSON env preferences_schema preferences_yes "create"
              = Ok preferences_yes) by (vm_compute; reflexivity).
  assert (Hrt : jsonRoundTrip preferences_yes = Some preferences_yes)
    by (vm_compute; reflexivity).
  split; [exact H|]. split; [exact Hrt|].
  exact (validateJSON_dom env preferences_schema preferences_yes preferences_yes
           preferences_yes "create" H Hrt).
Defined.

Lemma range_order_irrelevant_witness :
  reverse (map_to_list test_raw) ≡ₚ map_to_list test_raw
  /\ BindAndValidateIn env (reverse (map_to_list test_raw)) test_schema test_raw "create"
     = BindAndValidate env test_schema test_raw "create"
  /\ forall dst, ToModelIn env (reverse (map_to_list test_raw)) dst
                 = ToModel env test_raw dst.
Proof.
  assert (H : reverse (map_to_list test_raw) ≡ₚ map_to_list test_raw)
    by apply reverse_Permutation.
  split; [exact H|].
  exact (range_order_irrelevant env test_schema test_raw "create"
           (reverse (map_to_list test_raw)) H).
Defined.

Lemma declared_chain_names (p : Builder.ptr) :
  NoDup (Builder.declared p declared_chain).
Proof.
  unfold Builder.declared, declared_chain. simpl.
  destruct (decide (0%nat = p)); simpl.
  - apply (bool_decide_unpack (NoDup ["email"; "nick"])). vm_compute. exact I.
  - apply NoDup_nil_2.
Qed.

Lemma builder_replay_witness :
  Builder.run declared_chain = Some heap_chain
  /\ Builder.builders heap_chain !! 0%nat = Some email_builder
  /\ replay 0 declared_chain "email" = Builder.param email_builder
  /\ exists fs, Builder.schemas heap_chain !! Builder.parent email_builder = Some fs
                /\ replay 0 declared_chain (Name (Builder.param email_builder)) ∈ fs
                /\ forall g, g ∈ fs -> Name g = Name (Builder.param email_builder) ->
                             g = replay 0 declared_chain
                                   (Name (Builder.param email_builder)).
Proof.
  split; [reflexivity|]. split; [reflexivity|]. split; [reflexivity|].
  exact (builder_replay declared_chain heap_chain 0%nat email_builder eq_refl
           declared_chain_names eq_refl).
Defined.

Lemma builder_required_on_witness :
  Builder.run declared_chain = Some heap_chain
  /\ Builder.builders heap_chain !! 1%nat = Some nick_builder
  /\ endpoints_of 1 declared_chain = []
  /\ RequiredOn (Builder.param nick_builder) = endpoints_of 1 declared_chain
  /\ (isRequired (Builder.param nick_builder) "create" = true
      <-> exists r, r ∈ endpoints_of 1 declared_chain /\ TrimSpace r = "create").
Proof.
  split; [reflexivity|]. split; [reflexivity|]. split; [reflexivity|].
  exact (builder_required_on declared_chain heap_chain 1%nat nick_builder "create"
           eq_refl eq_refl).
Defined.

Lemma Present_keys_witness :
  john ≠ GNil
  /\ Presenter.Present conditional_presenter john [] = Some {[ "Name" := GString "John" ]}
  /\ (is_Some (({[ "Name" := GString "John" ]} : Presenter.H) !! "City")
      <-> exists f, f ∈ Presenter.Fields conditional_presenter
                    /\ Presenter.JSONKey f = "City"
                    /\ Presenter.skipped f john (Presenter.firstOption []) = Some false).
Proof.
  assert (Hnil : john ≠ GNil) by discriminate.
  assert (H : Presenter.Present conditional_presenter john []
              = Some {[ "Name" := GString "John" ]}) by (vm_compute; reflexivity).
  split; [exact Hnil|]. split; [exact H|].
  exact (Present_keys conditional_presenter john [] _ "City" Hnil H).
Defined.


Lemma Present_not_a_record_witness :
  GPtr None ≠ GNil
  /\ (forall fields, indirect (GPtr None) ≠ Some (GStruct fields))
  /\ name_entity ∈ Presenter.Fields city_presenter
  /\ Presenter.Present city_presenter (GPtr None) [] = None.
Proof.
  assert (Hnil : GPtr None ≠ GNil) by discriminate.
  assert (Hobj : forall fields, indirect (GPtr None) ≠ Some (GStruct fields))
    by (intros fields; discriminate).
  assert (Hin : name_entity ∈ Presenter.Fields city_presenter)
    by apply list_elem_of_here.
  split; [exact Hnil|]. split; [exact Hobj|]. split; [exact Hin|].
  exact (Present_not_a_record city_presenter (GPtr None) [] name_entity
           Hnil Hobj Hin eq_refl (or_introl eq_refl)).
Defined.

Lemma Present_pointer_or_value_witness :
  Forall (fun f => Presenter.Func f = None /\ Presenter.Condition f = None)
         (Presenter.Fields city_presenter)
  /\ Presenter.Present city_presenter (GPtr (Some (GStruct john_fields))) []
     = Presenter.Present city_presenter (GStruct john_fields) [].
Proof.
  assert (H : Forall (fun f => Presenter.Func f = None /\ Presenter.Condition f = None)
                (Presenter.Fields city_presenter)) by (repeat constructor).
  split; [exact H|].
  exact (Present_pointer_or_value city_presenter john_fields [] H).
Defined.

Lemma ToModel_unknown_key_witness :
  Forall (fun f => toSnakeCase (fname f) ≠ "referrer") user_fields
  /\ ToModel env (<["referrer" := VString "ad"]> user_input)
             (GPtr (Some (GStruct user_fields)))
     = ToModel env user_input (GPtr (Some (GStruct user_fields))).
Proof.
  assert (H : Forall (fun f => toSnakeCase (fname f) ≠ "referrer") user_fields).
  { repeat constructor; vm_compute; discriminate. }
  split; [exact H|].
  exact (ToModel_unknown_key env user_input "referrer" (VString "ad") user_fields H).
Defined.

Lemma ToModel_idempotent_witness :
  ToModel env user_input (GPtr (Some (GStruct user_fields)))
  = Some (GStruct user_fields_after)
  /\ ToModel env user_input (GPtr (Some (GStruct user_fields_after)))
     = Some (GStruct user_fields_after).
Proof.
  assert (H : ToModel env user_input (GPtr (Some (GStruct user_fields)))
              = Some (GStruct user_fields_after)).
  { rewrite ToModel_struct. vm_compute. reflexivity. }
  split; [exact H|].
  exact (ToModel_idempotent env user_input user_fields (GStruct user_fields_after) H).
Defined.

Lemma capital_key_matches_no_field_witness :
  has_upper "Name" = true
  /\ (forall n, stringsEqualFold n "Name" = false)
  /\ forall (i : Input) (val : value) (fields : list (field gval)),
       ToModel env (<["Name" := val]> i) (GPtr (Some (GStruct fields)))
       = ToModel env i (GPtr (Some (GStruct fields))).
Proof.
  split; [reflexivity|].
  exact (capital_key_matches_no_field env "Name" eq_refl).
Defined.

Lemma BindAndValidate_nested_witness :
  BindAndValidate env (MkParams [preferences_field])
                  {[ "preferences" := VMap preferences_yes ]} "create"
  = Returns (Some {[ "preferences" := VMap preferences_yes ]}, None)
  /\ exists nested,
       validateJSON env preferences_schema preferences_yes "create" = Ok nested
       /\ ({[ "preferences" := VMap preferences_yes ]} : Input) !! Name preferences_field
          = Some (VMap nested).
Proof.
  assert (H : BindAndValidate env (MkParams [preferences_field])
                {[ "preferences" := VMap preferences_yes ]} "create"
              = Returns (Some {[ "preferences" := VMap preferences_yes ]}, None))
    by (vm_compute; reflexivity).
  split; [exact H|].
  exact (proj1 (BindAndValidate_nested env (MkParams [preferences_field])
                  {[ "preferences" := VMap preferences_yes ]}
                  {[ "preferences" := VMap preferences_yes ]} "create"
                  [] [] preferences_field preferences_schema
                  H eq_refl (List.Forall_nil _) eq_refl)
           eq_refl preferences_yes eq_refl).
Defined.

Lemma min_max_defined (v : value) :
  scalar v = true -> Rules.Var v "min=0,max=150" ≠ VarPanic.
Proof.
  intros Hv. unfold Rules.Var.
  change (Rules.split "," "min=0,max=150") with ["min=0"; "max=150"]%string.
  assert (Hmin : Rules.rule v "min=0" ≠ VarPanic).
  { unfold Rules.rule.
    change (Rules.split "=" "min=0") with ["min"; "0"]%string.
    change (Rules.asInt "0") with (Some 0). simpl.
    destruct v; try discriminate; simpl; by repeat case_match. }
  assert (Hmax : Rules.rule v "max=150" ≠ VarPanic).
  { unfold Rules.rule.
    change (Rules.split "=" "max=150") with ["max"; "150"]%string.
    change (Rules.asInt "150") with (Some 150). simpl.
    destruct v; try discriminate; simpl; by repeat case_match. }
  simpl. destruct (Rules.rule v "min=0"); try done.
  by destruct (Rules.rule v "max=150").
Qed.

Lemma BindAndValidate_no_panic_witness :
  Forall (fun f => engine_defined env f
                   /\ forall s, Schema f = Some s ->
                        Forall (fun g => engine_defined env g) (Fields s) /\ flat s)
         (Fields ruled_schema)
  /\ BindAndValidate env ruled_schema {[ "age" := VString "thirty" ]} "create" ≠ Panics.
Proof.
  assert (H : Forall (fun f => engine_defined env f
                   /\ forall s, Schema f = Some s ->
                        Forall (fun g => engine_defined env g) (Fields s) /\ flat s)
                (Fields ruled_schema)).
  { constructor; [|constructor; [|constructor]].
    - split; [intros _ v Hv; by apply min_max_defined|]. intros s [=].
    - split; [intros Htag; by destruct Htag|]. intros s [= <-]. split.
      + repeat (constructor; [intros Htag; by destruct Htag|]). constructor.
      + unfold flat. repeat (constructor; [discriminate|]). constructor. }
  split; [exact H|].
  exact (BindAndValidate_no_panic env ruled_schema {[ "age" := VString "thirty" ]}
           "create" H).
Defined.

Lemma validateJSON_untagged_witness :
  Validate age_ruled = "min=0,max=150"
  /\ validateJSON env (MkParams [age_ruled]) {[ "age" := VFloat f200 ]} "create"
     = Ok {[ "age" := VInt 200 ]}.
Proof.
  split; [reflexivity|].
  rewrite <- (validateJSON_untagged env (MkParams [age_ruled])
                {[ "age" := VFloat f200 ]} "create").
  vm_compute. reflexivity.
Defined.


(** The negative zero is a zero value, alone and as the only content of a
    record, so that [Present] shows the default for it. *)
Example negative_zero_is_zero :
  IsZero TFloat64 (GFloat64 (S754_zero true)) = true
  /\ IsZero (TStruct "Reading") (GStruct cold_fields) = true
  /\ Presenter.Present temp_presenter (GStruct cold_fields) []
     = Some {[ "temp" := GString "n/a" ]}.
Proof. repeat split; vm_compute; reflexivity. Qed.

(** The example engine panics on a parameter that [strconv.ParseInt] does
    not read as an [int64], and on a rule it does not know. *)
Example engine_panics :
  Rules.Var (VInt 5) "max=9223372036854775808" = VarPanic
  /\ Rules.Var (VInt 5) "max=9223372036854775807" = VarOk
  /\ Rules.Var (VString "John") "nosuchrule" = VarPanic.
Proof. repeat split; vm_compute; reflexivity. Qed.
